(** * PingPilot: change-detection core, embedded and verified

    A shallow embedding of the Python sources under [app/]:
    - [diffing.py]      ([normalize_text_block], [text_hash], [image_hash],
                         [is_allowed_by_robots]),
    - [monitor_core.py] ([ahash], [hamming64], [text_change_ratio],
                         [classify_material_change]),
    - [extractor.py]    ([index_blocks], [diff_blocks], [filter_relevant]),
    - [main.py]         ([llm_decide_from_blocks], [run_check]),
    - [notify.py]       ([send_email], [send_slack]),
    together with the parts of the Python runtime they rest on (UTF-8
    encoding, SHA-256, the [re] matcher, [difflib.SequenceMatcher]).

    Conventions.  A Python [str] is the list of its code points, a [bytes]
    value the list of its octets, both as [Z].  A function that may raise
    returns [Exc], the exception being represented by its message. *)

From Stdlib Require Import String Ascii ZArith List Bool Lia.
From Stdlib Require Import Permutation Sorted QArith Qround.
From Stdlib Require Import DecimalString DecimalZ DecimalPos.
Import ListNotations.

Local Open Scope Z_scope.

(* ===================================================================== *)
(** * Python values *)

Module Py.

(** A [str] is a sequence of code points; a [bytes] a sequence of octets. *)
Definition str := list Z.
Definition bytes := list Z.

(** ASCII string literals of the sources, written as Rocq strings. *)
Definition lit (s : string) : str :=
  map (fun c => Z.of_N (N_of_ascii c)) (list_ascii_of_string s).

Fixpoint str_eqb (a b : str) : bool :=
  match a, b with
  | [], [] => true
  | x :: a', y :: b' => (x =? y) && str_eqb a' b'
  | _, _ => false
  end.

(** [a or b] on strings that may be [None]: the empty string is falsy. *)
Definition or_str (a : option str) (b : str) : str :=
  match a with
  | Some (c :: s) => c :: s
  | _ => b
  end.

(** Results of calls that may raise; the exception is kept as [str(e)]. *)
Inductive Exc (A : Type) : Type :=
| Ok (a : A)
| Raise (msg : str).
Arguments Ok {A} a.
Arguments Raise {A} msg.

Definition bind {A B} (m : Exc A) (k : A -> Exc B) : Exc B :=
  match m with
  | Ok a => k a
  | Raise e => Raise e
  end.

(** [s[:n]] for a non-negative or negative bound [n]. *)
Definition slice_to {A} (n : Z) (l : list A) : list A :=
  if 0 <=? n then firstn (Z.to_nat n) l
  else firstn (Z.to_nat (Z.of_nat (length l) + n)) l.

(** [str.encode("utf-8")]: surrogates and values beyond U+10FFFF raise. *)
Definition utf8_char (c : Z) : option bytes :=
  if c <? 0 then None
  else if c <? 0x80 then Some [c]
  else if c <? 0x800 then
    Some [Z.lor 0xC0 (Z.shiftr c 6); Z.lor 0x80 (Z.land c 0x3F)]
  else if (0xD800 <=? c) && (c <=? 0xDFFF) then None
  else if c <? 0x10000 then
    Some [Z.lor 0xE0 (Z.shiftr c 12);
          Z.lor 0x80 (Z.land (Z.shiftr c 6) 0x3F);
          Z.lor 0x80 (Z.land c 0x3F)]
  else if c <? 0x110000 then
    Some [Z.lor 0xF0 (Z.shiftr c 18);
          Z.lor 0x80 (Z.land (Z.shiftr c 12) 0x3F);
          Z.lor 0x80 (Z.land (Z.shiftr c 6) 0x3F);
          Z.lor 0x80 (Z.land c 0x3F)]
  else None.

Fixpoint encode_utf8 (s : str) : option bytes :=
  match s with
  | [] => Some []
  | c :: s' =>
      match utf8_char c, encode_utf8 s' with
      | Some b, Some bs => Some (b ++ bs)
      | _, _ => None
      end
  end.

Definition encode_error : str :=
  lit "'utf-8' codec can't encode character: surrogates not allowed".

End Py.
Export Py.

(* ===================================================================== *)
(** * hashlib.sha256 (FIPS 180-4) on octet lists, 32-bit words as [Z] *)

Module Sha256.

(** Reduction modulo [2 ^ 32] of a non-negative integer. *)
Definition w32 (x : Z) : Z := Z.land x 0xFFFFFFFF.
Definition add32 (x y : Z) : Z := w32 (x + y).
Definition rotr (n x : Z) : Z :=
  Z.lor (Z.shiftr x n) (w32 (Z.shiftl x (32 - n))).
Definition not32 (x : Z) : Z := 0xFFFFFFFF - x.

Definition Ch (x y z : Z) : Z :=
  Z.lxor (Z.land x y) (Z.land (not32 x) z).
Definition Maj (x y z : Z) : Z :=
  Z.lxor (Z.lxor (Z.land x y) (Z.land x z)) (Z.land y z).
Definition bsig0 (x : Z) : Z :=
  Z.lxor (Z.lxor (rotr 2 x) (rotr 13 x)) (rotr 22 x).
Definition bsig1 (x : Z) : Z :=
  Z.lxor (Z.lxor (rotr 6 x) (rotr 11 x)) (rotr 25 x).
Definition ssig0 (x : Z) : Z :=
  Z.lxor (Z.lxor (rotr 7 x) (rotr 18 x)) (Z.shiftr x 3).
Definition ssig1 (x : Z) : Z :=
  Z.lxor (Z.lxor (rotr 17 x) (rotr 19 x)) (Z.shiftr x 10).

(** The constants of FIPS 180-4, 4.2.2 and 5.3.3: the first 32 bits of the
    fractional parts of the cube roots of the first 64 primes, and of the
    square roots of the first 8. *)
Definition is_prime (n : Z) : bool :=
  forallb (fun d => negb (n mod Z.of_nat d =? 0)) (seq 2 (Z.to_nat n - 2)).

Definition primes : list Z :=
  firstn 64 (filter is_prime (map Z.of_nat (seq 2 310))).

(** The greatest [x] below [2 ^ bits] with [x ^ k <= n]. *)
Fixpoint iroot (k : Z) (bits : nat) (n x : Z) : Z :=
  match bits with
  | O => x
  | S b =>
      let y := x + 2 ^ Z.of_nat b in
      iroot k b n (if y ^ k <=? n then y else x)
  end.

Definition frac_root (k : Z) (p : Z) : Z :=
  w32 (iroot k 48 (p * 2 ^ (32 * k)) 0).

Definition K : list Z := Eval vm_compute in map (frac_root 3) primes.

(** The eight working variables / chaining values. *)
Record state := St { sa : Z; sb : Z; sc : Z; sd : Z;
                     se : Z; sf : Z; sg : Z; sh : Z }.

Definition H0_words : list Z := map (frac_root 2) (firstn 8 primes).

Definition H0 : state := Eval vm_compute in
  St (nth 0 H0_words 0) (nth 1 H0_words 0) (nth 2 H0_words 0)
     (nth 3 H0_words 0) (nth 4 H0_words 0) (nth 5 H0_words 0)
     (nth 6 H0_words 0) (nth 7 H0_words 0).

(** Padding: 0x80, zeros up to 56 mod 64, the bit length on 8 octets. *)
Definition be_bytes (n : nat) (x : Z) : bytes :=
  map (fun i => Z.shiftr x (8 * Z.of_nat i) mod 256) (rev (seq 0 n)).

Definition pad (m : bytes) : bytes :=
  let len := Z.of_nat (length m) in
  let zeros := Z.to_nat ((55 - len) mod 64) in
  m ++ [0x80] ++ repeat 0 zeros ++ be_bytes 8 (8 * len).

Fixpoint chunks (fuel : nat) (n : nat) (l : bytes) : list bytes :=
  match fuel with
  | O => []
  | S fuel' =>
      match l with
      | [] => []
      | _ => firstn n l :: chunks fuel' n (skipn n l)
      end
  end.

Definition be_word (l : bytes) : Z :=
  fold_left (fun acc b => acc * 256 + b) l 0.

Definition block_words (blk : bytes) : list Z :=
  map be_word (chunks 16 4 blk).

(** Message schedule: [W] is kept most recent first while it is built. *)
Fixpoint extend (n : nat) (rw : list Z) : list Z :=
  match n with
  | O => rw
  | S n' =>
      let x := add32 (add32 (ssig1 (nth 1 rw 0)) (nth 6 rw 0))
                     (add32 (ssig0 (nth 14 rw 0)) (nth 15 rw 0)) in
      extend n' (x :: rw)
  end.

Definition schedule (blk : bytes) : list Z :=
  rev (extend 48 (rev (block_words blk))).

Definition round (s : state) (kw : Z * Z) : state :=
  let '(k, w) := kw in
  let t1 := add32 (add32 (add32 (add32 (sh s) (bsig1 (se s)))
                                (Ch (se s) (sf s) (sg s))) k) w in
  let t2 := add32 (bsig0 (sa s)) (Maj (sa s) (sb s) (sc s)) in
  St (add32 t1 t2) (sa s) (sb s) (sc s)
     (add32 (sd s) t1) (se s) (sf s) (sg s).

Definition compress (h : state) (blk : bytes) : state :=
  let s := fold_left round (combine K (schedule blk)) h in
  St (add32 (sa h) (sa s)) (add32 (sb h) (sb s))
     (add32 (sc h) (sc s)) (add32 (sd h) (sd s))
     (add32 (se h) (se s)) (add32 (sf h) (sf s))
     (add32 (sg h) (sg s)) (add32 (sh h) (sh s)).

Definition digest_state (m : bytes) : state :=
  let p := pad m in
  fold_left compress (chunks (length p) 64 p) H0.

(** [.hexdigest()]: eight words, eight lowercase hex digits each. *)
Definition hex_digit (d : Z) : Z :=
  if d <? 10 then 48 + d else 87 + d.

Definition hex_word (x : Z) : str :=
  map (fun i => hex_digit (Z.shiftr x (4 * Z.of_nat i) mod 16))
      (rev (seq 0 8)).

Definition hexdigest (m : bytes) : str :=
  let s := digest_state m in
  hex_word (sa s) ++ hex_word (sb s) ++ hex_word (sc s) ++
  hex_word (sd s) ++ hex_word (se s) ++ hex_word (sf s) ++
  hex_word (sg s) ++ hex_word (sh s).

End Sha256.

(* ===================================================================== *)
(** * The [re] module: a backtracking matcher

    Enough of Python's regular expressions for the patterns of
    [monitor_core.py] and [diffing.py]: classes, concatenation, ordered
    alternation, greedy bounded and unbounded repetition, capturing
    groups, [\b] and the [re.I] flag.  The classes [\d] and [\w] and case
    folding are those of the ASCII range; [\s] is Python's full set of
    whitespace code points. *)

Module Re.

Definition is_digit (c : Z) : bool := (48 <=? c) && (c <=? 57).

Definition is_upper (c : Z) : bool := (65 <=? c) && (c <=? 90).
Definition is_lower (c : Z) : bool := (97 <=? c) && (c <=? 122).

(** [\w]: letters, digits and the underscore. *)
Definition is_word (c : Z) : bool :=
  is_digit c || is_upper c || is_lower c || (c =? 95).

(** [\s] on [str]: the code points for which [str.isspace] holds. *)
Definition is_space (c : Z) : bool :=
  ((9 <=? c) && (c <=? 13)) || ((28 <=? c) && (c <=? 32)) ||
  (c =? 0x85) || (c =? 0xA0) || (c =? 0x1680) ||
  ((0x2000 <=? c) && (c <=? 0x200A)) ||
  (c =? 0x2028) || (c =? 0x2029) || (c =? 0x202F) ||
  (c =? 0x205F) || (c =? 0x3000).

Definition to_lower (c : Z) : Z := if is_upper c then c + 32 else c.

Inductive regex : Type :=
| Eps
| Cls (p : Z -> bool)
| Seq (a b : regex)
| Alt (a b : regex)
| Rep (lo : nat) (hi : option nat) (a : regex)
| Grp (n : nat) (a : regex)
| WordB.

(** Captures: group number with its span, the latest binding first. *)
Definition caps := list (nat * (nat * nat)).

Definition word_at (s : str) (i : nat) : bool :=
  match nth_error s i with
  | Some c => is_word c
  | None => false
  end.

(** [\b] holds at [i] when exactly one of [s[i-1]], [s[i]] is a word
    character, the outside of the string counting as none. *)
Definition boundary (s : str) (i : nat) : bool :=
  xorb (match i with O => false | S j => word_at s j end) (word_at s i).

Section Matcher.
Variable s : str.
Variable R : Type.

(** [run r i c k]: match [r] at position [i] with captures [c], then
    continue with [k]; alternatives are tried in priority order and
    the first complete success is returned. *)
Fixpoint run (r : regex) : nat -> caps -> (nat -> caps -> option R)
                           -> option R :=
  match r with
  | Eps => fun i c k => k i c
  | Cls p => fun i c k =>
      match nth_error s i with
      | Some x => if p x then k (S i) c else None
      | None => None
      end
  | Seq a b => fun i c k => run a i c (fun j c' => run b j c' k)
  | Alt a b => fun i c k =>
      match run a i c k with
      | Some x => Some x
      | None => run b i c k
      end
  | Rep lo hi a => fun i c k =>
      (fix loop (fuel cnt i : nat) (c : caps) : option R :=
         let stop := if Nat.leb lo cnt then k i c else None in
         match fuel with
         | O => stop
         | S fuel' =>
             let more :=
               match hi with
               | Some h => Nat.ltb cnt h
               | None => true
               end in
             if more then
               match run a i c
                       (fun j c' =>
                          if Nat.ltb i j then loop fuel' (S cnt) j c'
                          else None) with
               | Some x => Some x
               | None => stop
               end
             else stop
         end) (S (length s - i)) O i c
  | Grp n a => fun i c k =>
      run a i c (fun j c' => k j ((n, (i, j)) :: c'))
  | WordB => fun i c k => if boundary s i then k i c else None
  end.
End Matcher.

(** A match object.  [re.Match] defines no [__eq__]: two match objects
    are compared by identity, which [m_id] stands for. *)
Record MatchObj : Type :=
  { m_id : nat; m_start : nat; m_end : nat; m_caps : caps }.

(** The leftmost match starting at or after [i]. *)
Fixpoint scan (r : regex) (s : str) (fuel i : nat)
  : option (nat * nat * caps) :=
  match run s (nat * nat * caps) r i [] (fun j c => Some (i, j, c)) with
  | Some m => Some m
  | None =>
      match fuel with
      | O => None
      | S fuel' => scan r s fuel' (S i)
      end
  end.

(** [pattern.search(s)], called when [next] objects have been created:
    a successful search creates a new match object. *)
Definition search (r : regex) (s : str) (next : nat)
  : option MatchObj * nat :=
  match scan r s (length s) O with
  | Some (i, j, c) => (Some {| m_id := next; m_start := i; m_end := j;
                               m_caps := c |}, S next)
  | None => (None, next)
  end.

(** [x != y] on results of [search]: [None] equals itself only, and
    match objects are equal only when they are the same object. *)
Definition match_ne (x y : option MatchObj) : bool :=
  match x, y with
  | None, None => false
  | Some a, Some b => negb (Nat.eqb (m_id a) (m_id b))
  | _, _ => true
  end.

Definition group (s : str) (c : caps) (n : nat) : str :=
  match find (fun e => Nat.eqb (fst e) n) c with
  | Some (_, (i, j)) => firstn (j - i) (skipn i s)
  | None => []
  end.

(** [pattern.findall(s)] for a pattern with exactly one group: the text
    of group 1 of each successive non-overlapping match. *)
Fixpoint findall_from (r : regex) (s : str) (fuel i : nat) : list str :=
  match fuel with
  | O => []
  | S fuel' =>
      match scan r s (length s - i) i with
      | Some (a, b, c) =>
          group s c 1 ::
          findall_from r s fuel' (if Nat.eqb a b then S b else b)
      | None => []
      end
  end.

Definition findall (r : regex) (s : str) : list str :=
  findall_from r s (S (length s)) O.

(** [m.group(0)] of a search, when there is a match: the matched text. *)
Definition matched (r : regex) (s : str) : option str :=
  match fst (search r s O) with
  | Some m => Some (firstn (m_end m - m_start m) (skipn (m_start m) s))
  | None => None
  end.

(** Pattern building. *)
Definition chr (c : Z) : regex := Cls (Z.eqb c).
Definition chr_i (c : Z) : regex :=
  Cls (fun x => to_lower x =? to_lower c).
Definition one_of (l : list Z) : regex :=
  Cls (fun x => existsb (Z.eqb x) l).

Fixpoint seq_of (l : list regex) : regex :=
  match l with
  | [] => Eps
  | [a] => a
  | a :: l' => Seq a (seq_of l')
  end.

Fixpoint alt_of (l : list regex) : regex :=
  match l with
  | [] => Cls (fun _ => false)
  | [a] => a
  | a :: l' => Alt a (alt_of l')
  end.

(** A literal word, under [re.I] when [ci] is set. *)
Definition word (ci : bool) (w : string) : regex :=
  seq_of (map (if ci then chr_i else chr) (lit w)).

Definition opt (a : regex) : regex := Rep 0 (Some 1%nat) a.
Definition star (a : regex) : regex := Rep 0 None a.

End Re.

(* ===================================================================== *)
(** * difflib.SequenceMatcher (isjunk=None, autojunk=True) *)

Module Difflib.

(** Positions [j] of [b], in increasing order, at which [b[j] == x]. *)
Definition positions (b : str) (x : Z) : list nat :=
  map fst (filter (fun e => snd e =? x) (combine (seq 0 (length b)) b)).

(** [__chain_b]: with 200 elements or more, an element occurring more
    than [n // 100 + 1] times is "popular" and leaves [b2j]. *)
Definition popular (b : str) (x : Z) : bool :=
  let n := length b in
  Nat.leb 200 n && Nat.ltb (n / 100 + 1) (length (positions b x)).

Definition b2j (b : str) (x : Z) : list nat :=
  if popular b x then [] else positions b x.

Definition j2len_get (m : list (nat * nat)) (j : Z) : nat :=
  match find (fun e => Z.of_nat (fst e) =? j) m with
  | Some (_, k) => k
  | None => O
  end.

(** State of the search: [(besti, bestj, bestsize)]. *)
Definition best := (nat * nat * nat)%type.

(** The loop [for j in b2j.get(a[i], nothing)] of [find_longest_match]. *)
Fixpoint scan_js (js : list nat) (i blo bhi : nat)
         (j2len newj2len : list (nat * nat)) (bst : best)
  : list (nat * nat) * best :=
  match js with
  | [] => (newj2len, bst)
  | j :: js' =>
      if Nat.ltb j blo then scan_js js' i blo bhi j2len newj2len bst
      else if Nat.leb bhi j then (newj2len, bst)
      else
        let k := S (j2len_get j2len (Z.of_nat j - 1)) in
        let '(_, _, bestsize) := bst in
        let bst' := if Nat.ltb bestsize k
                    then (S i - k, S j - k, k)%nat else bst in
        scan_js js' i blo bhi j2len ((j, k) :: newj2len) bst'
  end.

(** The loop [for i in range(alo, ahi)]. *)
Fixpoint scan_is (a b : str) (is_ : list nat) (blo bhi : nat)
         (j2len : list (nat * nat)) (bst : best) : best :=
  match is_ with
  | [] => bst
  | i :: is' =>
      let '(newj2len, bst') :=
        scan_js (b2j b (nth i a 0)) i blo bhi j2len [] bst in
      scan_is a b is' blo bhi newj2len bst'
  end.

(** Extension of the block to the left, then to the right, over equal
    elements (no element is junk). *)
Fixpoint grow_left (a b : str) (fuel alo blo : nat) (bst : best) : best :=
  match fuel with
  | O => bst
  | S fuel' =>
      let '(bi, bj, sz) := bst in
      if Nat.ltb alo bi && Nat.ltb blo bj &&
         (nth (bi - 1) a 0 =? nth (bj - 1) b 0)
      then grow_left a b fuel' alo blo (bi - 1, bj - 1, S sz)%nat
      else bst
  end.

Fixpoint grow_right (a b : str) (fuel ahi bhi : nat) (bst : best) : best :=
  match fuel with
  | O => bst
  | S fuel' =>
      let '(bi, bj, sz) := bst in
      if Nat.ltb (bi + sz) ahi && Nat.ltb (bj + sz) bhi &&
         (nth (bi + sz) a 0 =? nth (bj + sz) b 0)
      then grow_right a b fuel' ahi bhi (bi, bj, S sz)
      else bst
  end.

Definition find_longest_match (a b : str) (alo ahi blo bhi : nat) : best :=
  let bst := scan_is a b (seq alo (ahi - alo)) blo bhi [] (alo, blo, O) in
  let bst := grow_left a b (length a) alo blo bst in
  grow_right a b (length a) ahi bhi bst.

(** [get_matching_blocks]: the work list is a stack; the sizes of the
    blocks found are collected (sorting and merging adjacent blocks
    changes neither the sizes nor their sum). *)
Fixpoint blocks (a b : str) (fuel : nat)
         (queue : list (nat * nat * nat * nat)) : list best :=
  match fuel with
  | O => []
  | S fuel' =>
      match queue with
      | [] => []
      | (alo, ahi, blo, bhi) :: q =>
          let '(i, j, k) := find_longest_match a b alo ahi blo bhi in
          match k with
          | O => blocks a b fuel' q
          | S _ =>
              let q1 := if Nat.ltb alo i && Nat.ltb blo j
                        then (alo, i, blo, j) :: q else q in
              let q2 := if Nat.ltb (i + k) ahi && Nat.ltb (j + k) bhi
                        then (i + k, ahi, j + k, bhi)%nat :: q1 else q1 in
              (i, j, k) :: blocks a b fuel' q2
          end
      end
  end.

Definition matches (a b : str) : nat :=
  list_sum
    (map (fun m => snd m)
         (blocks a b (S (2 * (length a + length b)))
                 [(O, length a, O, length b)])).

(** [SequenceMatcher(None, a, b).ratio()], as an exact fraction. *)
Definition ratio (a b : str) : Q :=
  match (length a + length b)%nat with
  | O => 1%Q
  | S n => Qmake (2 * Z.of_nat (matches a b)) (Pos.of_succ_nat n)
  end.

End Difflib.

(* ===================================================================== *)
(** * monitor_core.py *)

Module MonitorCore.
Import Re.

Definition VISUAL_HAMMING_THRESHOLD : Z := 8.

(** [text_change_ratio(prev, curr) = round(1.0 - r, 4)]; the rounding is
    to the nearest multiple of 1/10000 (the ties of binary floating
    point are not modelled). *)
Definition round4 (q : Q) : Q :=
  Qmake (Qfloor (q * 10000 + (1 # 2))) 10000.

Definition text_change_ratio (prev curr : str) : Q :=
  round4 (1 - Difflib.ratio prev curr).

(** Number of set bits of a non-negative integer: [int.bit_count]. *)
Fixpoint pos_bit_count (p : positive) : Z :=
  match p with
  | xH => 1
  | xO p' => pos_bit_count p'
  | xI p' => 1 + pos_bit_count p'
  end.

Definition bit_count (x : Z) : Z :=
  match x with
  | Z0 => 0
  | Zpos p => pos_bit_count p
  | Zneg p => pos_bit_count p
  end.

Section Ahash.
(** [Image.open(io.BytesIO(bytes)).convert("L").resize((n, n))] read
    with [getdata()] / [tobytes()]: the [n * n] gray levels, row by
    row.  The decoder is Pillow's; it raises on a malformed image. *)
Variable gray_resize : bytes -> nat -> Exc (list Z).

Fixpoint set_bits (pixels : list Z) (i : Z) (total n : Z) (bits : Z) : Z :=
  match pixels with
  | [] => bits
  | p :: ps =>
      (* p > avg, with avg = total / n *)
      let bits' := if total <? p * n
                   then Z.lor bits (Z.shiftl 1 i) else bits in
      set_bits ps (i + 1) total n bits'
  end.

(** [ahash(image_bytes, size=8)] *)
Definition ahash (image_bytes : bytes) (size : nat) : Exc Z :=
  match image_bytes with
  | [] => Ok 0
  | _ =>
      bind (gray_resize image_bytes size) (fun pixels =>
      match pixels with
      | [] => Raise (lit "division by zero")
      | _ =>
          Ok (set_bits pixels 0 (fold_right Z.add 0 pixels)
                       (Z.of_nat (length pixels)) 0)
      end)
  end.
End Ahash.

(** [hamming64(a, b) = (a ^ b).bit_count()] *)
Definition hamming64 (a b : Z) : Z := bit_count (Z.lxor a b).

(** [PRICE_RE = (\$|€|£)\s?\d[\d,\.]*] *)
Definition PRICE_RE : regex :=
  seq_of [Grp 1 (alt_of [chr 0x24; chr 0x20AC; chr 0xA3]);
          opt (Cls is_space);
          Cls is_digit;
          star (Cls (fun x => is_digit x || (x =? 44) || (x =? 46)))].

Definition months : list string :=
  ["Jan"; "Feb"; "Mar"; "Apr"; "May"; "Jun";
   "Jul"; "Aug"; "Sep"; "Oct"; "Nov"; "Dec"]%string.

Definition date_sep : regex := one_of [47; 46; 45].

(** [DATE_RE = \b(\d{1,2}[/.-]\d{1,2}([/.-]\d{2,4})?|(Jan|...|Dec)\b)],
    compiled with [re.I]. *)
Definition DATE_RE : regex :=
  Seq WordB
    (Grp 1 (Alt
      (seq_of [Rep 1 (Some 2%nat) (Cls is_digit); date_sep;
               Rep 1 (Some 2%nat) (Cls is_digit);
               opt (Grp 2 (Seq date_sep
                               (Rep 2 (Some 4%nat) (Cls is_digit))))])
      (Seq (Grp 3 (alt_of (map (word true) months))) WordB))).

(** [STOCK_RE = \b(in stock|out of stock|unavailable|pre[- ]?order)\b],
    compiled with [re.I]. *)
Definition STOCK_RE : regex :=
  seq_of [WordB;
          Grp 1 (alt_of [word true "in stock"; word true "out of stock";
                         word true "unavailable";
                         seq_of [word true "pre"; opt (one_of [45; 32]);
                                 word true "order"]]);
          WordB].

(** [CTA_RE = \b(buy now|add to cart|book now|subscribe)\b], [re.I]. *)
Definition CTA_RE : regex :=
  seq_of [WordB;
          Grp 1 (alt_of [word true "buy now"; word true "add to cart";
                         word true "book now"; word true "subscribe"]);
          WordB].

Fixpoint strs_eqb (a b : list str) : bool :=
  match a, b with
  | [], [] => true
  | x :: a', y :: b' => str_eqb x y && strs_eqb a' b'
  | _, _ => false
  end.

(** [classify_material_change(old, new)].  Each [search] yields a match
    object of its own, so the [!=] between two searches compares
    identities. *)
Definition classify_material_change (old new : str) : bool * str :=
  let '(p_old, n) := search PRICE_RE old O in
  let '(p_new, n) := search PRICE_RE new n in
  let changed_price :=
    match_ne p_old p_new ||
    negb (strs_eqb (findall PRICE_RE old) (findall PRICE_RE new)) in
  let '(d_old, n) := search DATE_RE old n in
  let '(d_new, n) := search DATE_RE new n in
  let changed_date := match_ne d_old d_new in
  let '(s_old, n) := search STOCK_RE old n in
  let '(s_new, n) := search STOCK_RE new n in
  let changed_stock := match_ne s_old s_new in
  let '(c_old, n) := search CTA_RE old n in
  let '(c_new, _) := search CTA_RE new n in
  let changed_cta := match_ne c_old c_new in
  if changed_stock || changed_price then (true, lit "high")
  else if changed_date then (true, lit "medium")
  else if changed_cta then (true, lit "low")
  else (false, lit "none").

End MonitorCore.

(* ===================================================================== *)
(** * diffing.py *)

Module Diffing.

(** [re.sub(r"\s+", " ", s)]: every maximal run of whitespace becomes
    one space; [in_run] tells that the run has already been replaced. *)
Fixpoint collapse (in_run : bool) (s : str) : str :=
  match s with
  | [] => []
  | c :: s' =>
      if Re.is_space c
      then (if in_run then collapse true s' else 32 :: collapse true s')
      else c :: collapse false s'
  end.

Fixpoint lstrip (s : str) : str :=
  match s with
  | c :: s' => if Re.is_space c then lstrip s' else s
  | [] => []
  end.

Definition strip (s : str) : str := rev (lstrip (rev (lstrip s))).

(** [normalize_text_block(s) = re.sub(r"\s+", " ", (s or "")).strip()] *)
Definition normalize_text_block (s : option str) : str :=
  strip (collapse false (or_str s [])).

(** [text_hash(text) = hashlib.sha256(text.encode("utf-8")).hexdigest()] *)
Definition text_hash (text : str) : Exc str :=
  match encode_utf8 text with
  | Some b => Ok (Sha256.hexdigest b)
  | None => Raise encode_error
  end.

Section Image.
Variable gray_resize : bytes -> nat -> Exc (list Z).

(** [image_hash(png_bytes)]: SHA-256 of the 64x64 gray-level buffer. *)
Definition image_hash (png_bytes : bytes) : Exc str :=
  bind (gray_resize png_bytes 64) (fun buf => Ok (Sha256.hexdigest buf)).
End Image.

(** [re.match(r"^https?://[^/]+", url).group(0)] *)
Definition ORIGIN_RE : Re.regex :=
  Re.seq_of [Re.word false "http"; Re.opt (Re.chr 115);
             Re.word false "://";
             Re.Rep 1 None (Re.Cls (fun c => negb (c =? 47)))].

Definition origin (url : str) : option str :=
  match Re.run url nat ORIGIN_RE O [] (fun j _ => Some j) with
  | Some j => Some (firstn j url)
  | None => None
  end.

Section Robots.
(** [RobotFileParser.read()] on a robots.txt address: either it raises
    or it leaves the rules that [can_fetch(user_agent, url)] consults. *)
Variable robots_read : str -> Exc (str -> str -> bool).

(** [is_allowed_by_robots(url, user_agent="PingPilotBot")] *)
Definition is_allowed_by_robots (url : str) (user_agent : str) : bool :=
  match origin url with
  | None => true
  | Some base =>
      match robots_read (base ++ lit "/robots.txt") with
      | Raise _ => true
      | Ok can_fetch => can_fetch user_agent url
      end
  end.
End Robots.

End Diffing.

(* ===================================================================== *)
(** * extractor.py *)

Module Extractor.

(** A content block: the dict built by [block(text, type_, path, weight)],
    with all of its five keys. *)
Record Block : Type :=
  { b_type : str; b_text : str; b_path : str; b_weight : Z; b_hash : str }.

(** The dict [{"added": ..., "removed": ..., "modified": ...}]. *)
Record Changes : Type :=
  { added : list Block; removed : list Block; modified : list Block }.

(** [{"added": [], "removed": [], "modified": []}] *)
Definition no_changes : Changes :=
  {| added := []; removed := []; modified := [] |}.

(** A dict from paths to block lists, in insertion order. *)
Definition index := list (str * list Block).

Fixpoint get (idx : index) (path : str) : option (list Block) :=
  match idx with
  | [] => None
  | (q, bs) :: idx' => if str_eqb q path then Some bs else get idx' path
  end.

(** [idx.setdefault(path, []).append(b)] *)
Fixpoint setdefault_append (idx : index) (path : str) (b : Block) : index :=
  match idx with
  | [] => [(path, [b])]
  | (q, bs) :: idx' =>
      if str_eqb q path then (q, bs ++ [b]) :: idx'
      else (q, bs) :: setdefault_append idx' path b
  end.

(** [index_blocks(blocks)] *)
Definition index_blocks (blocks : list Block) : index :=
  fold_left (fun idx b => setdefault_append idx (b_path b) b) blocks [].

Definition hash_in (h : str) (bs : list Block) : bool :=
  existsb (fun b => str_eqb (b_hash b) h) bs.

(** The first loop of [diff_blocks], over [curr_idx.items()]. *)
Fixpoint scan_current (prev_idx : index) (items : index)
         (add mod_ : list Block) : list Block * list Block :=
  match items with
  | [] => (add, mod_)
  | (path, cur_blocks) :: items' =>
      match get prev_idx path with
      | None | Some [] =>
          scan_current prev_idx items' (add ++ cur_blocks) mod_
      | Some pv =>
          scan_current prev_idx items' add
            (mod_ ++ filter (fun cb => negb (hash_in (b_hash cb) pv))
                            cur_blocks)
      end
  end.

(** The second loop, over [prev_idx.items()]. *)
Fixpoint scan_previous (curr_idx : index) (items : index)
         (rem : list Block) : list Block :=
  match items with
  | [] => rem
  | (path, pv) :: items' =>
      match get curr_idx path with
      | None => scan_previous curr_idx items' (rem ++ pv)
      | Some _ => scan_previous curr_idx items' rem
      end
  end.

(** [diff_blocks(prev, curr)] *)
Definition diff_blocks (prev curr : list Block) : Changes :=
  let prev_idx := index_blocks prev in
  let curr_idx := index_blocks curr in
  let '(add, mod_) := scan_current prev_idx curr_idx [] [] in
  {| added := add;
     removed := scan_previous curr_idx prev_idx [];
     modified := mod_ |}.

(** Reading the result: whether some block of [bs] lies at [path], and
    the blocks of [bs] that do. *)
Definition has_path (bs : list Block) (path : str) : bool :=
  existsb (fun b => str_eqb (b_path b) path) bs.

Definition at_path (path : str) (bs : list Block) : list Block :=
  filter (fun b => str_eqb (b_path b) path) bs.

Definition keys (idx : index) : list str := map fst idx.

(** What an index holds for a block list: under each path that occurs,
    the blocks at that path in their order; each path once. *)
Definition indexes (idx : index) (l : list Block) : Prop :=
  (forall p, get idx p = if has_path l p then Some (at_path p l) else None)
  /\ NoDup (keys idx)
  /\ (forall p, In p (keys idx) <-> has_path l p = true).

(** The inner [score(b)] of [filter_relevant]. *)
Definition score (b : Block) : Z :=
  let base := b_weight b in
  let base := if str_eqb (b_type b) (lit "price") then base + 5 else base in
  let base := if str_eqb (b_type b) (lit "headline") then base + 3 else base in
  let base := if str_eqb (b_type b) (lit "list_item") then base + 2 else base in
  if Nat.ltb (length (b_text b)) 12 then base - 2 else base.

(** [sorted(items, key=score, reverse=True)]: a stable sort, the greater
    keys first; items of equal key stay in their order. *)
Fixpoint insert_desc (x : Block) (l : list Block) : list Block :=
  match l with
  | [] => [x]
  | y :: l' =>
      if score x <? score y then y :: insert_desc x l'
      else x :: y :: l'
  end.

Definition sorted_desc (items : list Block) : list Block :=
  fold_right insert_desc [] items.

Definition DEFAULT_KEEP_MAX : Z := 60.

(** [filter_relevant(changes, keep_max=60)] *)
Definition filter_relevant (changes : Changes) (keep_max : Z) : Changes :=
  {| added := slice_to keep_max (sorted_desc (added changes));
     removed := slice_to keep_max (sorted_desc (removed changes));
     modified := slice_to keep_max (sorted_desc (modified changes)) |}.

(** The score as the specification words it: the base weight, plus a
    bonus by type, minus a penalty for a text shorter than 12. *)
Definition type_bonus (t : str) : Z :=
  if str_eqb t (lit "price") then 5
  else if str_eqb t (lit "headline") then 3
  else if str_eqb t (lit "list_item") then 2
  else 0.

Definition is_short (b : Block) : bool := Nat.ltb (length (b_text b)) 12.

Definition score_spec (b : Block) : Z :=
  b_weight b + type_bonus (b_type b) - (if is_short b then 2 else 0).

(** [output] is [input] ranked: sorted by decreasing score, blocks of
    equal score in the order of [input], then cut with [[:keep_max]]. *)
Definition ranked (input output : list Block) (keep_max : Z) : Prop :=
  exists sorted : list Block,
    Permutation sorted input /\
    StronglySorted (fun x y => score y <= score x) sorted /\
    (forall v : Z, filter (fun b => score b =? v) sorted =
                   filter (fun b => score b =? v) input) /\
    output = slice_to keep_max sorted.

End Extractor.

(* ===================================================================== *)
(** * db.py: the two tables *)

Module Db.

(** A row of [monitor].  The text columns added by the boot-time
    migrations are nullable, hence the options; [last_blocks_json] holds
    the block list that its JSON text encodes. *)
Record Monitor : Type :=
  { id : Z;
    url : str;
    selector : option str;
    render_js : bool;
    frequency_minutes : Z;
    last_content_hash : option str;
    last_image_hash : option str;
    last_checked_at : option Z;
    created_at : Z;
    is_active : bool;
    last_text : option str;
    ignore_robots : bool;
    last_blocks_json : option (list Extractor.Block) }.

(** A row of [checkresult]; [changes_json] is [None] for the default
    ["[]"] and otherwise the dict that the JSON text encodes. *)
Record CheckResult : Type :=
  { monitor_id : Z;
    checked_at : Z;
    status_code : Z;
    blocked_reason : str;
    raw_text_len : Z;
    norm_text_len : Z;
    text_change_ratio : Q;
    changed_text : bool;
    changed_visual : bool;
    diff_preview : str;
    visual_hamming : Z;
    material_change : bool;
    severity : str;
    semantic_summary : str;
    llm_json : str;
    changes_json : option Extractor.Changes;
    note : str }.

(** [CheckResult(monitor_id=..., note=...)]: the other columns default. *)
Definition CheckResult_note (mid now : Z) (note_ : str) : CheckResult :=
  {| monitor_id := mid; checked_at := now; status_code := 0;
     blocked_reason := []; raw_text_len := 0; norm_text_len := 0;
     text_change_ratio := 0; changed_text := false;
     changed_visual := false; diff_preview := []; visual_hamming := 0;
     material_change := false; severity := lit "none";
     semantic_summary := []; llm_json := []; changes_json := None;
     note := note_ |}.

(** [Monitor(url=..., selector=..., render_js=..., frequency_minutes=...,
    ignore_robots=...)] as [create_monitor] builds it, once inserted. *)
Definition Monitor_new (id_ : Z) (url_ : str) (selector_ : option str)
           (render_js_ : bool) (frequency_ : Z) (ignore_robots_ : bool)
           (now : Z) : Monitor :=
  {| id := id_; url := url_; selector := selector_;
     render_js := render_js_; frequency_minutes := frequency_;
     last_content_hash := Some []; last_image_hash := Some [];
     last_checked_at := None; created_at := now; is_active := true;
     last_text := Some []; ignore_robots := ignore_robots_;
     last_blocks_json := Some [] |}.

Record Store : Type :=
  { monitors : list Monitor; results : list CheckResult }.

(** [session.get(Monitor, monitor_id)] *)
Definition get (st : Store) (mid : Z) : option Monitor :=
  find (fun m => id m =? mid) (monitors st).

(** Writing back a modified row, by primary key. *)
Definition update (m : Monitor) (l : list Monitor) : list Monitor :=
  map (fun x => if id x =? id m then m else x) l.

End Db.

(* ===================================================================== *)
(** * main.py: one check *)

Module Main.
Import Db Extractor.

(** What a check does to the outside world. *)
Inductive Event : Type :=
| EvFetch (url_ : str)                 (* fetch_html_and_screenshot *)
| EvClassify (url_ : str)              (* the chain is built and invoked *)
| EvAlertLog (subject : str)           (* mail not configured: printed *)
| EvEmail (subject body : str)         (* an SMTP delivery is attempted *)
| EvSlack (text : str).                (* the webhook is posted to *)

(** The verdict object returned by the chain (or the neutral stand-in). *)
Record Verdict : Type :=
  { v_material_change : bool; v_severity : str; v_summary_short : str;
    v_json : str }.

Definition neutral : Verdict :=
  {| v_material_change := false; v_severity := lit "none";
     v_summary_short := []; v_json := lit "{}" |}.

Record Payload : Type :=
  { p_url : str;
    p_added : list (str * str);
    p_removed : list (str * str);
    p_modified : list (str * str) }.

(** The collaborators of a check: network, imaging, clock, model,
    configuration read from the environment. *)
Record Env : Type :=
  { now : Z;
    robots_read : str -> Exc (str -> str -> bool);
    fetch_html_and_screenshot :
      str -> bool -> option str -> Exc (option str * option bytes * str);
    gray_resize : bytes -> nat -> Exc (list Z);
    make_diff_preview : str -> str -> str;
    extract_blocks_from_html : str -> Exc (list Block);
    LLM_ENABLED : bool;
    chain_invoke : Payload -> Exc Verdict;
    smtp_configured : bool;
    smtp_deliver : str -> str -> Exc unit;
    SLACK_WEBHOOK_URL : bool;
    render_change_email :
      Monitor -> str -> str -> list str -> list str -> str }.

(** The session: the store, what has been added or modified and not yet
    committed, and the events so far. *)
Record Session : Type :=
  { store : Store;
    pending : list CheckResult;
    dirty : option Monitor;
    trace : list Event }.

(** Computations that read and write the session and may raise; what
    was done before an exception stays done. *)
Definition M (A : Type) : Type := Session -> Exc A * Session.

Definition ret {A} (a : A) : M A := fun s => (Ok a, s).

Definition bindM {A B} (m : M A) (k : A -> M B) : M B :=
  fun s =>
    match m s with
    | (Ok a, s') => k a s'
    | (Raise e, s') => (Raise e, s')
    end.

Definition lift {A} (x : Exc A) : M A := fun s => (x, s).

(** [try: body except Exception as e: handler(e)] *)
Definition try_except (body : M unit) (handler : str -> M unit) : M unit :=
  fun s =>
    match body s with
    | (Ok tt, s') => (Ok tt, s')
    | (Raise e, s') => handler e s'
    end.

Definition emit (e : Event) : M unit :=
  fun s => (Ok tt, {| store := store s; pending := pending s;
                      dirty := dirty s; trace := trace s ++ [e] |}).

(** [session.add(row)] *)
Definition session_add (r : CheckResult) : M unit :=
  fun s => (Ok tt, {| store := store s; pending := pending s ++ [r];
                      dirty := dirty s; trace := trace s |}).

(** Assignments to attributes of the loaded monitor. *)
Definition session_modify (m : Monitor) : M unit :=
  fun s => (Ok tt, {| store := store s; pending := pending s;
                      dirty := Some m; trace := trace s |}).

(** [session.commit()] *)
Definition session_commit : M unit :=
  fun s =>
    let mons := match dirty s with
                | Some m => update m (monitors (store s))
                | None => monitors (store s)
                end in
    (Ok tt, {| store := {| monitors := mons;
                           results := results (store s) ++ pending s |};
               pending := []; dirty := None; trace := trace s |}).

(** Reasoning about a computation run from [s]: it returns, with a
    value and a session that satisfy [P]; it is quiet when, returning
    or raising, it leaves the store and the uncommitted work alone. *)
Definition returns {A} (m : M A) (s : Session)
           (P : A -> Session -> Prop) : Prop :=
  match m s with
  | (Ok a, s') => P a s'
  | (Raise _, _) => False
  end.

Definition same_data (s s' : Session) : Prop :=
  store s' = store s /\ pending s' = pending s /\ dirty s' = dirty s.

Definition quiet {A} (m : M A) : Prop :=
  forall s, same_data s (snd (m s)).

Notation "x <- m ;; k" := (bindM m (fun x => k))
  (at level 61, m at next level, right associativity).
Notation "m ;;; k" := (bindM m (fun _ => k))
  (at level 61, right associativity).

Definition truthy {A} (l : list A) : bool :=
  match l with [] => false | _ => true end.

(** [str.upper()], on the ASCII letters. *)
Definition upper (s : str) : str :=
  map (fun c => if Re.is_lower c then c - 32 else c) s.

Section Check.
Variable env : Env.

(** notify.py: [send_email(subject, html_body)] *)
Definition send_email (subject html_body : str) : M unit :=
  if smtp_configured env then
    emit (EvEmail subject html_body) ;;;
    lift (smtp_deliver env subject html_body)
  else emit (EvAlertLog subject).

(** notify.py: [send_slack(text)]; a failed post is caught and printed. *)
Definition send_slack (text : str) : M unit :=
  if SLACK_WEBHOOK_URL env then emit (EvSlack text) else ret tt.

(** The inner [pack(items, n)] of [llm_decide_from_blocks]. *)
Definition pack (items : list Block) (n : nat) : list (str * str) :=
  map (fun i => (b_type i, firstn 500 (b_text i))) (firstn n items).

(** [llm_decide_from_blocks(url, filtered_changes)] *)
Definition llm_decide_from_blocks (url_ : str) (filtered : Changes)
  : M Verdict :=
  let payload := {| p_url := url_;
                    p_added := pack (added filtered) 20;
                    p_removed := pack (removed filtered) 20;
                    p_modified := pack (modified filtered) 10 |} in
  if negb (LLM_ENABLED env) then ret neutral
  else
    emit (EvClassify url_) ;;;
    match chain_invoke env payload with
    | Ok v => ret v
    | Raise _ => ret neutral
    end.

(** The local variables of [run_check] once the verdict is known. *)
Record Observation : Type :=
  { text_for_diff : str;
    new_text_hash : str;
    text_changed : bool;
    visual_changed : bool;
    new_img_hash : option str;
    o_diff_preview : str;
    change_ratio : Q;
    new_blocks : list Block;
    filtered : Changes;
    likely_changed : bool;
    o_material_change : bool;
    o_severity : str;
    summary_short : str;
    llm_json_str : str }.

Definition added_lines (o : Observation) : list str :=
  firstn 12 (map b_text (added (filtered o))).
Definition removed_lines (o : Observation) : list str :=
  firstn 12 (map b_text (removed (filtered o))).

(** The [try] block, first part: fetch, fingerprints, diff, verdict. *)
Definition observe (mon : Monitor) : M Observation :=
  emit (EvFetch (url mon)) ;;;
  fetched <- lift (fetch_html_and_screenshot env (url mon)
                     (render_js mon) (selector mon)) ;;
  let '(text, screenshot, raw_html) := fetched in
  let text_for_diff_ := Diffing.normalize_text_block text in

  let old_text := or_str (last_text mon) [] in
  new_text_hash_ <- lift (Diffing.text_hash text_for_diff_) ;;
  let text_changed_ :=
    match last_content_hash mon with
    | Some h => negb (str_eqb new_text_hash_ h)
    | None => false
    end in

  visual <-
    match screenshot with
    | Some (c :: shot) =>
        img_hash <-
          lift (Diffing.image_hash (gray_resize env) (c :: shot)) ;;
        ret (match last_image_hash mon with
             | Some h => negb (str_eqb img_hash h)
             | None => false
             end, Some img_hash)
    | _ => ret (false, None)
    end ;;
  let '(visual_changed_, new_img_hash_) := visual in

  let diff_preview_ :=
    if text_changed_ then make_diff_preview env old_text text_for_diff_
    else [] in
  let change_ratio_ :=
    if text_changed_ then Difflib.ratio old_text text_for_diff_
    else 0%Q in

  new_blocks_ <- (if truthy raw_html
                  then lift (extract_blocks_from_html env raw_html)
                  else ret []) ;;
  let prev_blocks :=
    match last_blocks_json mon with
    | Some bs => bs
    | None => []
    end in
  let filtered_ :=
    if truthy new_blocks_
    then filter_relevant (diff_blocks prev_blocks new_blocks_)
                         DEFAULT_KEEP_MAX
    else filter_relevant no_changes DEFAULT_KEEP_MAX in

  let likely_changed_ :=
    text_changed_ || visual_changed_ ||
    (truthy (added filtered_) || truthy (removed filtered_) ||
     truthy (modified filtered_)) in
  verdict <-
    (if likely_changed_ then
       llm_out <- llm_decide_from_blocks (url mon) filtered_ ;;
       ret (v_material_change llm_out,
            or_str (Some (v_severity llm_out)) (lit "none"),
            v_summary_short llm_out,
            v_json llm_out)
     else ret (false, lit "none", [], [])) ;;
  let '(material_, severity_, summary_, json_) := verdict in
  ret {| text_for_diff := text_for_diff_;
         new_text_hash := new_text_hash_;
         text_changed := text_changed_;
         visual_changed := visual_changed_;
         new_img_hash := new_img_hash_;
         o_diff_preview := diff_preview_;
         change_ratio := change_ratio_;
         new_blocks := new_blocks_;
         filtered := filtered_;
         likely_changed := likely_changed_;
         o_material_change := material_;
         o_severity := severity_;
         summary_short := summary_;
         llm_json_str := json_ |}.

(** The row that the check adds. *)
Definition check_row (mon : Monitor) (o : Observation) : CheckResult :=
  {| monitor_id := id mon;
     checked_at := now env;
     status_code := 200;
     blocked_reason := [];
     raw_text_len := Z.of_nat (length (text_for_diff o));
     norm_text_len := Z.of_nat (length (text_for_diff o));
     text_change_ratio := change_ratio o;
     changed_text := text_changed o;
     changed_visual := visual_changed o;
     diff_preview := or_str (Some (o_diff_preview o)) (summary_short o);
     visual_hamming := 0;
     material_change := o_material_change o;
     severity := o_severity o;
     semantic_summary := summary_short o;
     llm_json := llm_json_str o;
     changes_json := Some (filtered o);
     note := [] |}.

(** The monitor with its new baseline. *)
Definition rebased (mon : Monitor) (o : Observation) : Monitor :=
  {| id := id mon; url := url mon; selector := selector mon;
     render_js := render_js mon;
     frequency_minutes := frequency_minutes mon;
     last_content_hash := Some (new_text_hash o);
     last_image_hash :=
       match new_img_hash o with
       | Some (c :: h) => Some (c :: h)
       | _ => last_image_hash mon
       end;
     last_checked_at := Some (now env);
     created_at := created_at mon;
     is_active := is_active mon;
     last_text := Some (text_for_diff o);
     ignore_robots := ignore_robots mon;
     last_blocks_json := Some (new_blocks o) |}.

(** Second part: the row is added, the baseline overwritten, and
    both are committed. *)
Definition persist (mon : Monitor) (o : Observation) : M unit :=
  session_add (check_row mon o) ;;;
  session_modify (rebased mon o) ;;;
  session_commit.

Definition should_notify (o : Observation) : bool :=
  o_material_change o ||
  (str_eqb (o_severity o) (lit "medium") ||
   str_eqb (o_severity o) (lit "high")) ||
  text_changed o || visual_changed o.

(** Third part, after the commit: mail, then Slack. *)
Definition notify (mon : Monitor) (o : Observation) : M unit :=
  if should_notify o then
    let sev := upper (or_str (Some (o_severity o)) (lit "info")) in
    let subject := lit "[" ++ sev ++ lit "] Change: " ++ url mon in
    let body := render_change_email env mon (o_severity o)
                  (summary_short o) (added_lines o) (removed_lines o) in
    send_email subject body ;;;
    let summary_line :=
      or_str (Some (summary_short o))
             (match added_lines o with
              | l :: _ => l
              | [] => lit "Change detected"
              end) in
    send_slack (sev ++ lit " | " ++ url mon ++
                [32; 0xE2; 0x20AC; 0x201D; 32] ++ summary_line)
  else ret tt.

(** The [try] block of [run_check]. *)
Definition check (mon : Monitor) : M unit :=
  o <- observe mon ;;
  persist mon o ;;;
  notify (rebased mon o) o.

(** [run_check(monitor_id)] *)
Definition run_check_session (monitor_id_ : Z) : M unit :=
  fun s =>
    match Db.get (store s) monitor_id_ with
    | None => (Ok tt, s)
    | Some mon =>
        if negb (is_active mon) then (Ok tt, s)
        else if negb (ignore_robots mon) &&
                negb (Diffing.is_allowed_by_robots (robots_read env)
                        (url mon) (lit "PingPilotBot"))
        then
          (session_add (CheckResult_note (id mon) (now env)
                          (lit "Blocked by robots.txt")) ;;;
           session_commit) s
        else
          try_except (check mon)
            (fun e =>
               session_add (CheckResult_note (id mon) (now env)
                              (lit "Error: " ++ e)) ;;;
               session_commit) s
    end.

(** A whole call: a session is opened on the store and closed. *)
Definition run_check (st : Store) (monitor_id_ : Z)
  : Store * list Event :=
  let '(_, s) := run_check_session monitor_id_
                   {| store := st; pending := []; dirty := None;
                      trace := [] |} in
  (store s, trace s).

End Check.

End Main.

(* ===================================================================== *)
(** * Collaborators for worked runs *)

Module Scenario.
Import Db Extractor Main.

(** A decoder for one-octet pictures: [[v]] stands for a picture that is
    uniformly of gray level [v], which stays uniform at any size. *)
Definition solid_gray (img : bytes) (n : nat) : Exc (list Z) :=
  match img with
  | [v] => Ok (repeat v (n * n))
  | _ => Raise (lit "cannot identify image file")
  end.

(** The world as one check sees it: robots.txt allows or forbids
    everything, the page has the given text, screenshot and blocks, and
    mail is not configured, delivered, or refused. *)
Inductive Mail : Type := NoMail | MailOk | MailDown.

Definition world (robots_ok : bool) (page : str) (shot : option bytes)
           (blocks : list Block) (mail : Mail) : Env :=
  {| now := 1700000000;
     robots_read := fun _ => Ok (fun _ _ => robots_ok);
     fetch_html_and_screenshot :=
       fun _ _ _ => Ok (Some page, shot, lit "<html></html>");
     gray_resize := solid_gray;
     make_diff_preview := fun _ _ => lit "--- +++";
     extract_blocks_from_html := fun _ => Ok blocks;
     LLM_ENABLED := false;
     chain_invoke := fun _ => Raise (lit "no API key");
     smtp_configured := match mail with NoMail => false | _ => true end;
     smtp_deliver :=
       fun _ _ => match mail with
                  | MailDown => Raise (lit "Connection refused")
                  | _ => Ok tt
                  end;
     SLACK_WEBHOOK_URL := false;
     render_change_email := fun _ _ _ _ _ => lit "<h3>Change detected</h3>"
  |}.

(** A store with one monitor, as [create_monitor] leaves it. *)
Definition fresh : Store :=
  {| monitors := [Monitor_new 1 (lit "https://example.com/item") None
                              false 60 false 1690000000];
     results := [] |}.

(** The store after checks of monitor 1 in the given worlds, in turn. *)
Definition after (worlds : list Env) : Store :=
  fold_left (fun st env => fst (run_check env st 1)) worlds fresh.

End Scenario.

(* ===================================================================== *)
(** * Shapes of normalized text *)

Module Shape.

(** No whitespace but single spaces: every whitespace character of [s] is
    a space, and none follows another; [after_space] tells that the
    character before [s] was one. *)
Fixpoint single_spaced (after_space : bool) (s : str) : bool :=
  match s with
  | [] => true
  | c :: s' =>
      if Re.is_space c
      then (c =? 32) && negb after_space && single_spaced true s'
      else single_spaced false s'
  end.

Definition starts_clean (s : str) : bool :=
  match s with
  | [] => true
  | c :: _ => negb (Re.is_space c)
  end.

Definition ends_clean (s : str) : bool := starts_clean (rev s).

(** The characters of [s] that are not whitespace, in order. *)
Definition ink (s : str) : str := filter (fun c => negb (Re.is_space c)) s.

(** A lowercase hexadecimal digit. *)
Definition is_hex (c : Z) : bool :=
  ((48 <=? c) && (c <=? 57)) || ((97 <=? c) && (c <=? 102)).

(** A Unicode scalar value: a code point that is not a surrogate. *)
Definition is_scalar (c : Z) : bool :=
  ((0 <=? c) && (c <? 0xD800)) || ((0xE000 <=? c) && (c <? 0x110000)).

End Shape.

(* ===================================================================== *)
(** * Reading the rule classifier *)

Module Rules.

(** Whether the pattern matches somewhere in the text. *)
Definition occurs (r : Re.regex) (s : str) : bool :=
  match Re.matched r s with
  | Some _ => true
  | None => false
  end.

(** Whether it matches in one of the two texts at least. *)
Definition hits (r : Re.regex) (old new : str) : bool :=
  occurs r old || occurs r new.

End Rules.

(* ===================================================================== *)
(** * Reading the outcome of a check *)

Module Outcome.
Import Db Main.

(** The session in which [run_check] starts on a store. *)
Definition opened (st : Store) : Session :=
  {| store := st; pending := []; dirty := None; trace := [] |}.

(** The store once the row of a check and its baseline are committed. *)
Definition committed (env : Env) (st : Store) (mon : Monitor)
           (o : Observation) : Store :=
  {| monitors := update (rebased env mon o) (monitors st);
     results := results st ++ [check_row env mon o] |}.

(** The store with one more row and the monitors as they were. *)
Definition with_row (st : Store) (r : CheckResult) : Store :=
  {| monitors := monitors st; results := results st ++ [r] |}.

Definition error_row (env : Env) (mon : Monitor) (e : str) : CheckResult :=
  CheckResult_note (id mon) (now env) (lit "Error: " ++ e).

Definition blocked_row (env : Env) (mon : Monitor) : CheckResult :=
  CheckResult_note (id mon) (now env) (lit "Blocked by robots.txt").

(** Whether the robots gate stops the check of [mon]. *)
Definition gate_closed (env : Env) (mon : Monitor) : bool :=
  negb (ignore_robots mon) &&
  negb (Diffing.is_allowed_by_robots (robots_read env) (url mon)
                                     (lit "PingPilotBot")).

(** The fields of a monitor that a check has no business with. *)
Definition same_settings (m m' : Monitor) : Prop :=
  id m' = id m /\ url m' = url m /\ selector m' = selector m /\
  render_js m' = render_js m /\
  frequency_minutes m' = frequency_minutes m /\
  created_at m' = created_at m /\ is_active m' = is_active m /\
  ignore_robots m' = ignore_robots m.

End Outcome.

(* ===================================================================== *)
(** * More worlds for worked runs *)

Module Cases.
Import Db Extractor Main Scenario.

(** A world in which the page cannot be fetched. *)
Definition offline : Env :=
  let w := world true [] None [] NoMail in
  {| now := now w;
     robots_read := robots_read w;
     fetch_html_and_screenshot := fun _ _ _ => Raise (lit "timed out");
     gray_resize := gray_resize w;
     make_diff_preview := make_diff_preview w;
     extract_blocks_from_html := extract_blocks_from_html w;
     LLM_ENABLED := LLM_ENABLED w;
     chain_invoke := chain_invoke w;
     smtp_configured := smtp_configured w;
     smtp_deliver := smtp_deliver w;
     SLACK_WEBHOOK_URL := SLACK_WEBHOOK_URL w;
     render_change_email := render_change_email w |}.

(** The monitor of [fresh]. *)
Definition item : Monitor :=
  Monitor_new 1 (lit "https://example.com/item") None false 60 false
              1690000000.

(** A page with one headline, and a world that shows it. *)
Definition headline : Block :=
  {| b_type := lit "headline"; b_text := lit "Autumn sale";
     b_path := lit "h1:nth-of-type(1)"; b_weight := 10;
     b_hash := lit "c0" |}.

Definition shop : Env :=
  world true (lit "Autumn sale") None [headline] NoMail.

End Cases.

(* ===================================================================== *)
(** * A page as one check meets it *)

Module Page.
Import Db Extractor Main.

(** What the collaborators give for the page of a monitor, when none of
    them raises: the text, screenshot and markup fetched, the digest of
    the normalized text, the gray buffer of the screenshot and the blocks
    extracted from the markup. *)
Record Served : Type :=
  { text : option str;
    shot : option bytes;
    html : str;
    digest : str;
    buffer : list Z;
    blocks : list Block }.

Definition serves (env : Env) (mon : Monitor) (p : Served) : Prop :=
  fetch_html_and_screenshot env (url mon) (render_js mon) (selector mon)
  = Ok (text p, shot p, html p) /\
  Diffing.text_hash (Diffing.normalize_text_block (text p)) = Ok (digest p)
  /\
  match shot p with
  | Some (c :: l) => gray_resize env (c :: l) 64 = Ok (buffer p)
  | _ => True
  end /\
  (if truthy (html p)
   then extract_blocks_from_html env (html p) = Ok (blocks p)
   else blocks p = []).

(** The digest of the screenshot, when there is one. *)
Definition shot_digest (p : Served) : option str :=
  match shot p with
  | Some (c :: l) => Some (Sha256.hexdigest (buffer p))
  | _ => None
  end.

(** The baseline that a check of the page leaves in the monitor. *)
Definition baseline_of (env : Env) (mon : Monitor) (p : Served)
  : Monitor :=
  {| id := id mon; url := url mon; selector := selector mon;
     render_js := render_js mon;
     frequency_minutes := frequency_minutes mon;
     last_content_hash := Some (digest p);
     last_image_hash :=
       match shot_digest p with
       | Some (c :: h) => Some (c :: h)
       | _ => last_image_hash mon
       end;
     last_checked_at := Some (now env);
     created_at := created_at mon;
     is_active := is_active mon;
     last_text := Some (Diffing.normalize_text_block (text p));
     ignore_robots := ignore_robots mon;
     last_blocks_json := Some (blocks p) |}.

(** The monitor has the page for its baseline: the digests and the
    blocks stored are those of the page. *)
Definition up_to_date (mon : Monitor) (p : Served) : Prop :=
  last_content_hash mon = Some (digest p) /\
  (shot_digest p = None \/ last_image_hash mon = shot_digest p) /\
  last_blocks_json mon = Some (blocks p).

(** A row that reports no change of any kind. *)
Definition silent_row (r : CheckResult) : Prop :=
  changed_text r = false /\ changed_visual r = false /\
  text_change_ratio r = 0%Q /\ diff_preview r = [] /\
  material_change r = false /\ severity r = lit "none" /\
  changes_json r = Some no_changes /\
  status_code r = 200 /\ note r = [].

End Page.

(* ===================================================================== *)
(** * scheduler.py: the job store *)

Module Scheduler.
Import Db.

(** [str(n)] for an integer: its decimal digits, after a minus sign for a
    negative one. *)
Definition str_of_int (n : Z) : str :=
  lit (DecimalString.NilZero.string_of_int (Z.to_int n)).

(** A job of the scheduler, as [add_job] is given it: its id, the
    minutes of its interval trigger, the argument of the call, and the
    two flags. *)
Record Job : Type :=
  { job_id : str; minutes : Z; args : Z; coalesce : bool;
    max_instances : Z }.

(** [f"monitor-{mon.id}"] *)
Definition job_name (mid : Z) : str := lit "monitor-" ++ str_of_int mid.

Definition lookup (name : str) (jobs : list Job) : option Job :=
  find (fun j => str_eqb (job_id j) name) jobs.

(** [scheduler.add_job(..., id=..., replace_existing=True)]: a job of the
    same id is replaced, otherwise the job is added. *)
Fixpoint add_job (j : Job) (jobs : list Job) : list Job :=
  match jobs with
  | [] => [j]
  | x :: rest =>
      if str_eqb (job_id x) (job_id j) then j :: rest
      else x :: add_job j rest
  end.

(** [scheduler.remove_job(name)]: raises when there is no such job. *)
Fixpoint remove_job (name : str) (jobs : list Job) : Exc (list Job) :=
  match jobs with
  | [] => Raise (lit "No job by the id of " ++ name ++ lit " was found")
  | x :: rest =>
      if str_eqb (job_id x) name then Ok rest
      else match remove_job name rest with
           | Ok rest' => Ok (x :: rest')
           | Raise e => Raise e
           end
  end.

(** [try: scheduler.remove_job(name) except Exception: pass] *)
Definition remove_job_quietly (name : str) (jobs : list Job) : list Job :=
  match remove_job name jobs with
  | Ok jobs' => jobs'
  | Raise _ => jobs
  end.

(** [schedule_monitor(mon, run_fn)] *)
Definition schedule_monitor (mon : Monitor) (jobs : list Job) : list Job :=
  let freq := Z.max 5 (frequency_minutes mon) in
  add_job {| job_id := job_name (id mon); minutes := freq; args := id mon;
             coalesce := true; max_instances := 1 |} jobs.

(** [load_schedules(run_fn)]: the active monitors, in table order. *)
Definition load_schedules (st : Store) (jobs : list Job) : list Job :=
  fold_left (fun js m => schedule_monitor m js)
            (filter is_active (monitors st)) jobs.

End Scheduler.

(* ===================================================================== *)
(** * main.py: the endpoints that change monitors *)

Module Api.
Import Db Main Scheduler.

(** The outcome of a request: a response body, or [HTTPException]. *)
Inductive Http (A : Type) : Type :=
| Resp (body : A)
| HTTPException (status_code_ : Z) (detail : str).
Arguments Resp {A} body.
Arguments HTTPException {A} status_code_ detail.

(** The application state: the database and the job store. *)
Record App : Type := { db : Store; jobs : list Job }.



Section Endpoints.
Variable env : Env.


(** [run_now(monitor_id)] *)
Definition run_now (app : App) (mid : Z) : App * list Event :=
  let '(st', events) := run_check env (db app) mid in
  ({| db := st'; jobs := jobs app |}, events).

End Endpoints.

(** [delete_monitor(monitor_id)]: the job goes first, whether or not the
    monitor exists. *)
Definition delete_monitor (app : App) (mid : Z) : Http Z * App :=
  let jobs' := remove_job_quietly (job_name mid) (jobs app) in
  match Db.get (db app) mid with
  | None =>
      (HTTPException 404 (lit "Monitor not found"),
       {| db := db app; jobs := jobs' |})
  | Some mon =>
      (Resp mid,
       {| db := {| monitors :=
                     filter (fun m => negb (id m =? id mon))
                            (monitors (db app));
                   results :=
                     filter (fun r => negb (monitor_id r =? mid))
                            (results (db app)) |};
          jobs := jobs' |})
  end.

End Api.

(* ===================================================================== *)
(** * Vocabulary for addresses *)

Module Site.
Import Py.

(** The number of leading characters of [l] that satisfy [p]. *)
Fixpoint span (p : Z -> bool) (l : str) : nat :=
  match l with
  | x :: l' => if p x then S (span p l') else O
  | [] => O
  end.

(** What is left of [l] after the prefix [w], when [l] starts with it. *)
Fixpoint strip_prefix (w l : str) : option str :=
  match w, l with
  | [], _ => Some l
  | a :: w', x :: l' => if a =? x then strip_prefix w' l' else None
  | _ :: _, [] => None
  end.

Definition is_scheme (scheme : str) : Prop :=
  scheme = lit "http://" \/ scheme = lit "https://".

Definition not_slash (c : Z) : bool := negb (c =? 47).

(** [rest] does not go on with the host: it is empty or starts with a
    slash. *)
Definition ends_host (rest : str) : Prop :=
  match rest with
  | [] => True
  | c :: _ => c = 47
  end.

End Site.

(* ===================================================================== *)
(** * extractor.py: the end of [extract_blocks_from_html] *)

Module Blocks.
Import Py Extractor.

(** The tuple [(b["type"], b["text"])]. *)
Definition key : Type := (str * str)%type.

Definition key_of (b : Block) : key := (b_type b, b_text b).

Definition key_eqb (a b : key) : bool :=
  str_eqb (fst a) (fst b) && str_eqb (snd a) (snd b).

(** [k in seen] *)
Definition seen_has (seen : list key) (k : key) : bool :=
  existsb (key_eqb k) seen.

(** The loop over [blocks] that fills [uniq], started with [seen]. *)
Fixpoint unique (seen : list key) (blocks : list Block) : list Block :=
  match blocks with
  | [] => []
  | b :: rest =>
      if seen_has seen (key_of b) then unique seen rest
      else b :: unique (key_of b :: seen) rest
  end.

Section Html.
(** The blocks appended while the document is gone through: headings,
    paragraphs, list items, then the prices and the dates of the text
    scan; parsing may raise. *)
Variable collect : str -> Exc (list Block).

Definition extract_blocks_from_html (html : str) : Exc (list Block) :=
  match collect html with
  | Ok blocks => Ok (unique [] blocks)
  | Raise e => Raise e
  end.

End Html.

(** [x] comes before [y] in [l]. *)
Definition before (x y : Block) (l : list Block) : Prop :=
  exists a b c, l = a ++ x :: b ++ y :: c.

End Blocks.

(* ===================================================================== *)
(** * Results *)

Example sha256_abc :
  Sha256.hexdigest (lit "abc") =
  lit "ba7816bf8f01cfea414140de5dae2223b00361a396177a9cb410ff61f20015ad".
Proof. vm_compute. reflexivity. Qed.

Example sha256_empty :
  Sha256.hexdigest [] =
  lit "e3b0c44298fc1c149afbf4c8996fb92427ae41e4649b934ca495991b7852b855".
Proof. vm_compute. reflexivity. Qed.

Example sha256_two_blocks :
  Sha256.hexdigest
    (lit "abcdbcdecdefdefgefghfghighijhijkijkljklmklmnlmnomnopnopq") =
  lit "248d6a61d20638b8e5c026930c3e6039a33ce45964ff2167f6ecedd419db06c1".
Proof. vm_compute. reflexivity. Qed.

(** ** Strings *)

Lemma str_eqb_refl (a : str) : str_eqb a a = true.
Proof.
  induction a as [|x a IH]; simpl; [reflexivity|].
  now rewrite Z.eqb_refl, IH.
Qed.

Lemma str_eqb_eq (a b : str) : str_eqb a b = true <-> a = b.
Proof.
  split; [|intros ->; apply str_eqb_refl].
  revert b; induction a as [|x a IH]; intros [|y b]; simpl;
    try discriminate; [reflexivity|].
  intros H. apply andb_true_iff in H as [Hxy Hab].
  apply Z.eqb_eq in Hxy. f_equal; [assumption|now apply IH].
Qed.

Lemma str_eqb_neq (a b : str) : str_eqb a b = false <-> a <> b.
Proof.
  rewrite <- str_eqb_eq. destruct (str_eqb a b); split;
    congruence || (intros H; exfalso; now apply H).
Qed.

Lemma str_eqb_sym (a b : str) : str_eqb a b = str_eqb b a.
Proof.
  destruct (str_eqb a b) eqn:H, (str_eqb b a) eqn:H'; try reflexivity.
  - apply str_eqb_eq in H; subst. now rewrite str_eqb_refl in H'.
  - apply str_eqb_eq in H'; subst. now rewrite str_eqb_refl in H.
Qed.

(** ** The rule classifier of monitor_core.py *)

Section Classifier.
Import Re MonitorCore.

(** C9.  Whatever the two texts, the pair returned by
    [classify_material_change] is consistent: the flag is set exactly
    when the severity is not "none", and the severity is one of
    "none", "low", "medium", "high". *)
Theorem classify_verdict_consistent (old new : str) :
  let '(material, sev) := classify_material_change old new in
  (material = true <-> sev <> lit "none") /\
  In sev [lit "none"; lit "low"; lit "medium"; lit "high"].
Proof.
  unfold classify_material_change.
  destruct (search PRICE_RE old O) as [p_old n1].
  destruct (search PRICE_RE new n1) as [p_new n2].
  destruct (search DATE_RE old n2) as [d_old n3].
  destruct (search DATE_RE new n3) as [d_new n4].
  destruct (search STOCK_RE old n4) as [s_old n5].
  destruct (search STOCK_RE new n5) as [s_new n6].
  destruct (search CTA_RE old n6) as [c_old n7].
  destruct (search CTA_RE new n7) as [c_new n8].
  destruct (match_ne s_old s_new ||
            (match_ne p_old p_new ||
             negb (strs_eqb (findall PRICE_RE old) (findall PRICE_RE new)))).
  - split; [split; [discriminate | reflexivity]|].
    right; right; right; left; reflexivity.
  - destruct (match_ne d_old d_new).
    + split; [split; [discriminate | reflexivity]|].
      right; right; left; reflexivity.
    + destruct (match_ne c_old c_new).
      * split; [split; [discriminate | reflexivity]|].
        right; left; reflexivity.
      * split; [split; [discriminate | intros H; now elim H]|].
        left; reflexivity.
Qed.

(** A successful search always differs from any other search result:
    the flags of the classifier only tell whether some text matched. *)
Lemma search_fresh (r : regex) (s : str) (n : nat) :
  match search r s n with
  | (Some m, n') => m_id m = n /\ n' = S n
  | (None, n') => n' = n
  end.
Proof.
  unfold search. destruct (scan r s (length s) O) as [[[i j] c]|]; simpl; auto.
Qed.

Lemma match_ne_searches (r : regex) (a b : str) (n : nat) :
  let '(x, n') := search r a n in
  let '(y, _) := search r b n' in
  match_ne x y = match x, y with None, None => false | _, _ => true end.
Proof.
  pose proof (search_fresh r a n) as Ha.
  destruct (search r a n) as [[x|] n'].
  - destruct Ha as [Hx ->].
    pose proof (search_fresh r b (S n)) as Hb.
    destruct (search r b (S n)) as [[y|] n'']; [|reflexivity].
    destruct Hb as [Hy _]. simpl. rewrite Hx, Hy.
    destruct (Nat.eqb_spec n (S n)); [lia | reflexivity].
  - destruct (search r b n') as [[y|] n'']; reflexivity.
Qed.

End Classifier.

Section ClassifierCases.
Import Re MonitorCore.

(** The two worked cases of the decision table. *)
Example classify_price_10_20 :
  classify_material_change (lit "Price $10") (lit "Price $20")
  = (true, lit "high").
Proof. vm_compute. reflexivity. Qed.

Example classify_sale_jan_feb :
  classify_material_change (lit "Sale ends Jan 2024")
                           (lit "Sale ends Feb 2024")
  = (true, lit "medium").
Proof. vm_compute. reflexivity. Qed.

Example classify_add_to_cart :
  classify_material_change (lit "Shoes. Add to Cart") (lit "Shoes.")
  = (true, lit "low").
Proof. vm_compute. reflexivity. Qed.

Example classify_plain_text :
  classify_material_change (lit "Hello world") (lit "Hello world")
  = (false, lit "none").
Proof. vm_compute. reflexivity. Qed.

(** C2.  On the identical texts "Price $10" and "Price $10" the
    classifier answers (true, "high"): the two searches of the price
    pattern give two match objects, which [!=] tells apart, although
    the matched text is the same. *)
Theorem classify_identical_price_text :
  matched PRICE_RE (lit "Price $10") = Some (lit "$10") /\
  classify_material_change (lit "Price $10") (lit "Price $10")
  = (true, lit "high").
Proof. vm_compute. split; reflexivity. Qed.

(** C7.  Between "Price $10 Jan 5" and "Price $10 Feb 5" the price
    pattern matches the same text with the same captures and no stock
    phrase occurs, only the date differs; the classifier nevertheless
    answers (true, "high") and not (true, "medium"). *)
Theorem classify_date_only_difference :
  let old := lit "Price $10 Jan 5" in
  let new := lit "Price $10 Feb 5" in
  matched PRICE_RE old = matched PRICE_RE new /\
  findall PRICE_RE old = findall PRICE_RE new /\
  matched STOCK_RE old = None /\ matched STOCK_RE new = None /\
  matched DATE_RE old = Some (lit "Jan") /\
  matched DATE_RE new = Some (lit "Feb") /\
  classify_material_change old new = (true, lit "high").
Proof. vm_compute. repeat split; reflexivity. Qed.

End ClassifierCases.

(** ** Block diffing (extractor.py) *)

Section DiffBlocks.
Import Extractor.

Lemma get_setdefault_append (idx : index) (p q : str) (b : Block) :
  get (setdefault_append idx p b) q =
  if str_eqb p q
  then Some (match get idx q with Some bs => bs ++ [b] | None => [b] end)
  else get idx q.
Proof.
  induction idx as [|[k bs] idx IH]; simpl.
  - destruct (str_eqb p q); reflexivity.
  - destruct (str_eqb k p) eqn:Hkp; simpl.
    + apply str_eqb_eq in Hkp; subst k.
      destruct (str_eqb p q); reflexivity.
    + destruct (str_eqb k q) eqn:Hkq; [|apply IH].
      apply str_eqb_eq in Hkq; subst k.
      rewrite str_eqb_sym, Hkp. reflexivity.
Qed.

Lemma keys_setdefault_append (idx : index) (p : str) (b : Block) :
  keys (setdefault_append idx p b) =
  if existsb (fun k => str_eqb k p) (keys idx) then keys idx
  else keys idx ++ [p].
Proof.
  unfold keys. induction idx as [|[k bs] idx IH]; simpl; [reflexivity|].
  destruct (str_eqb k p) eqn:Hkp; simpl; [reflexivity|].
  rewrite IH. destruct (existsb _ (map fst idx)); reflexivity.
Qed.

Lemma has_path_app (l1 l2 : list Block) (p : str) :
  has_path (l1 ++ l2) p = has_path l1 p || has_path l2 p.
Proof. apply existsb_app. Qed.

Lemma at_path_app (l1 l2 : list Block) (p : str) :
  at_path p (l1 ++ l2) = at_path p l1 ++ at_path p l2.
Proof. apply filter_app. Qed.

Lemma has_path_true (l : list Block) (p : str) :
  has_path l p = true <-> exists b, In b l /\ b_path b = p.
Proof.
  unfold has_path. rewrite existsb_exists.
  split; intros [b [Hin H]]; exists b; split; auto; now apply str_eqb_eq.
Qed.

Lemma has_path_at_path (l : list Block) (p : str) :
  has_path l p = true <-> at_path p l <> [].
Proof.
  induction l as [|b l IH]; simpl; [split; [discriminate|congruence]|].
  destruct (str_eqb (b_path b) p); simpl; [split; [discriminate|auto]|].
  exact IH.
Qed.

Lemma indexes_step (idx : index) (l : list Block) (b : Block) :
  indexes idx l ->
  indexes (setdefault_append idx (b_path b) b) (l ++ [b]).
Proof.
  intros (Hget & Hnd & Hkeys). split; [|split].
  - intros q. rewrite get_setdefault_append, has_path_app, at_path_app, Hget.
    simpl. destruct (str_eqb (b_path b) q); simpl.
    + rewrite orb_true_r. destruct (has_path l q) eqn:Hq; [reflexivity|].
      destruct (at_path q l) eqn:Hat; [reflexivity|].
      assert (has_path l q = true) by (apply has_path_at_path; congruence).
      congruence.
    + rewrite orb_false_r, app_nil_r. reflexivity.
  - rewrite keys_setdefault_append.
    destruct (existsb _ (keys idx)) eqn:Hex; [assumption|].
    apply NoDup_app; [assumption | repeat constructor; intros [] | ].
    intros k Hk [<-|[]].
    assert (existsb (fun k0 => str_eqb k0 (b_path b)) (keys idx) = true).
    { apply existsb_exists. exists (b_path b). split; [assumption|].
      apply str_eqb_refl. }
    congruence.
  - intros q. rewrite keys_setdefault_append, has_path_app. simpl.
    rewrite orb_false_r.
    destruct (existsb _ (keys idx)) eqn:Hex.
    + rewrite Hkeys. apply existsb_exists in Hex as [k [Hk Hkb]].
      apply str_eqb_eq in Hkb; subst k. apply Hkeys in Hk.
      destruct (str_eqb (b_path b) q) eqn:Hbq.
      * apply str_eqb_eq in Hbq; subst q. rewrite Hk. tauto.
      * rewrite orb_false_r. tauto.
    + rewrite in_app_iff, Hkeys. simpl.
      rewrite orb_true_iff, str_eqb_eq. intuition.
Qed.

Lemma indexes_fold (bs : list Block) :
  forall idx l, indexes idx l ->
  indexes (fold_left (fun i b => setdefault_append i (b_path b) b) bs idx)
          (l ++ bs).
Proof.
  induction bs as [|b bs IH]; intros idx l H; simpl.
  - now rewrite app_nil_r.
  - replace (l ++ b :: bs) with ((l ++ [b]) ++ bs)
      by (rewrite <- app_assoc; reflexivity).
    apply IH, indexes_step, H.
Qed.

Lemma index_blocks_indexes (l : list Block) : indexes (index_blocks l) l.
Proof.
  apply (indexes_fold l [] []). split; [|split]; simpl.
  - reflexivity.
  - constructor.
  - intros p; split; [intros []|discriminate].
Qed.

Lemma get_in (idx : index) (p : str) (bs : list Block) :
  NoDup (keys idx) -> In (p, bs) idx -> get idx p = Some bs.
Proof.
  unfold keys. induction idx as [|[k cs] idx IH]; simpl; [intros _ []|].
  intros Hnd [Heq|Hin].
  - inversion Heq; subst. now rewrite str_eqb_refl.
  - inversion Hnd as [|? ? Hk Hnd']; subst.
    destruct (str_eqb k p) eqn:Hkp; [|now apply IH].
    apply str_eqb_eq in Hkp; subst k. exfalso. apply Hk.
    change p with (fst (p, bs)). now apply in_map.
Qed.

Lemma at_path_other (l : list Block) (p k : str) :
  p <> k ->
  at_path p (filter (fun b => negb (str_eqb (b_path b) k)) l) = at_path p l.
Proof.
  intros Hpk. induction l as [|b l IH]; simpl; [reflexivity|].
  destruct (str_eqb (b_path b) k) eqn:Hbk; simpl.
  - apply str_eqb_eq in Hbk.
    destruct (str_eqb (b_path b) p) eqn:Hbp; [|exact IH].
    apply str_eqb_eq in Hbp. congruence.
  - rewrite IH. reflexivity.
Qed.

Section Grouping.
(** A selection [Q path b] of blocks, made group by group. *)
Variable Q : str -> Block -> bool.

Lemma split_off_path (k : str) (l : list Block) :
  Permutation
    (filter (Q k) (at_path k l) ++
     filter (fun b => Q (b_path b) b)
            (filter (fun b => negb (str_eqb (b_path b) k)) l))
    (filter (fun b => Q (b_path b) b) l).
Proof.
  induction l as [|b l IH]; simpl; [constructor|].
  destruct (str_eqb (b_path b) k) eqn:Hbk; simpl.
  - apply str_eqb_eq in Hbk. rewrite Hbk.
    destruct (Q k b); simpl; [now apply perm_skip | exact IH].
  - destruct (Q (b_path b) b); [|exact IH].
    etransitivity; [symmetry; apply Permutation_middle|].
    now apply perm_skip.
Qed.

Lemma by_keys_perm (ks : list str) :
  forall l : list Block,
    NoDup ks -> (forall b, In b l -> In (b_path b) ks) ->
    Permutation (flat_map (fun p => filter (Q p) (at_path p l)) ks)
                (filter (fun b => Q (b_path b) b) l).
Proof.
  induction ks as [|k ks IH]; intros l Hnd Hcov; simpl.
  - destruct l as [|b l]; [constructor|].
    destruct (Hcov b (or_introl eq_refl)).
  - inversion Hnd as [|? ? Hk Hnd']; subst.
    set (l' := filter (fun b => negb (str_eqb (b_path b) k)) l).
    assert (Hsame :
              flat_map (fun p => filter (Q p) (at_path p l)) ks =
              flat_map (fun p => filter (Q p) (at_path p l')) ks).
    { rewrite !flat_map_concat_map. f_equal. apply map_ext_in.
      intros p Hp. unfold l'. rewrite at_path_other; [reflexivity|].
      intros ->. contradiction. }
    rewrite Hsame.
    etransitivity; [|apply split_off_path with (k := k)].
    apply Permutation_app_head. apply IH; [assumption|].
    intros b Hb. unfold l' in Hb. apply filter_In in Hb as [Hb Hne].
    cbv beta in Hne.
    destruct (Hcov b Hb) as [Heq|H]; [|assumption].
    rewrite <- Heq, str_eqb_refl in Hne. discriminate.
Qed.

Lemma grouped_perm (idx : index) (l : list Block) :
  indexes idx l ->
  Permutation (flat_map (fun e => filter (Q (fst e)) (snd e)) idx)
              (filter (fun b => Q (b_path b) b) l).
Proof.
  intros (Hget & Hnd & Hkeys).
  assert (Heq : flat_map (fun e => filter (Q (fst e)) (snd e)) idx =
                flat_map (fun p => filter (Q p) (at_path p l)) (keys idx)).
  { unfold keys. rewrite !flat_map_concat_map, map_map. f_equal.
    apply map_ext_in. intros [p bs] Hin. simpl.
    pose proof (get_in idx p bs Hnd Hin) as Hg. rewrite Hget in Hg.
    destruct (has_path l p); congruence. }
  rewrite Heq. apply by_keys_perm; [assumption|].
  intros b Hb. apply Hkeys, has_path_true. now exists b.
Qed.
End Grouping.

Lemma scan_current_eq (pidx items : index) :
  forall add mod_,
    scan_current pidx items add mod_ =
    (add ++ flat_map (fun e => match get pidx (fst e) with
                               | None | Some [] => snd e
                               | Some _ => []
                               end) items,
     mod_ ++ flat_map (fun e => match get pidx (fst e) with
                                | None | Some [] => []
                                | Some pv =>
                                    filter (fun cb =>
                                              negb (hash_in (b_hash cb) pv))
                                           (snd e)
                                end) items).
Proof.
  induction items as [|[p bs] items IH]; intros add mod_; simpl.
  - now rewrite !app_nil_r.
  - destruct (get pidx p) as [[|x pv]|]; rewrite IH; simpl;
      rewrite <- ?app_assoc; reflexivity.
Qed.

Lemma scan_previous_eq (cidx items : index) :
  forall rem,
    scan_previous cidx items rem =
    rem ++ flat_map (fun e => match get cidx (fst e) with
                              | None => snd e
                              | Some _ => []
                              end) items.
Proof.
  induction items as [|[p bs] items IH]; intros rem; simpl.
  - now rewrite app_nil_r.
  - destruct (get cidx p); rewrite IH; simpl;
      rewrite <- ?app_assoc; reflexivity.
Qed.

Lemma filter_const {A} (c : bool) (l : list A) :
  filter (fun _ => c) l = if c then l else [].
Proof.
  destruct c; induction l as [|x l IH]; simpl; congruence.
Qed.

(** The three lists of [diff_blocks], up to the order of the groups. *)
Lemma diff_blocks_added (prev curr : list Block) :
  Permutation (added (diff_blocks prev curr))
              (filter (fun b => negb (has_path prev (b_path b))) curr).
Proof.
  unfold diff_blocks. rewrite scan_current_eq. cbn [added app].
  destruct (index_blocks_indexes prev) as (Hget & _ & _).
  etransitivity;
    [|apply (grouped_perm (fun p _ => negb (has_path prev p))),
        index_blocks_indexes].
  apply Permutation_refl'.
  apply flat_map_ext. intros [p bs].
  simpl. rewrite Hget, filter_const.
  destruct (has_path prev p) eqn:Hp; [|reflexivity].
  apply has_path_at_path in Hp.
  destruct (at_path p prev); simpl; congruence.
Qed.

Lemma diff_blocks_modified (prev curr : list Block) :
  Permutation (modified (diff_blocks prev curr))
              (filter (fun b =>
                         has_path prev (b_path b) &&
                         negb (hash_in (b_hash b)
                                       (at_path (b_path b) prev))) curr).
Proof.
  unfold diff_blocks. rewrite scan_current_eq. cbn [modified app].
  destruct (index_blocks_indexes prev) as (Hget & _ & _).
  etransitivity;
    [|apply (grouped_perm
               (fun p b => has_path prev p &&
                           negb (hash_in (b_hash b) (at_path p prev)))),
        index_blocks_indexes].
  apply Permutation_refl'.
  apply flat_map_ext. intros [p bs].
  simpl. rewrite Hget.
  destruct (has_path prev p) eqn:Hp; simpl.
  - apply has_path_at_path in Hp.
    destruct (at_path p prev); [congruence | reflexivity].
  - symmetry. apply (filter_const false).
Qed.

Lemma diff_blocks_removed (prev curr : list Block) :
  Permutation (removed (diff_blocks prev curr))
              (filter (fun b => negb (has_path curr (b_path b))) prev).
Proof.
  unfold diff_blocks. destruct (scan_current _ _ _ _) as [a m].
  cbn [removed]. rewrite scan_previous_eq. cbn [app].
  destruct (index_blocks_indexes curr) as (Hget & _ & _).
  etransitivity;
    [|apply (grouped_perm (fun p _ => negb (has_path curr p))),
        index_blocks_indexes].
  apply Permutation_refl'.
  apply flat_map_ext. intros [p bs].
  simpl. rewrite Hget, filter_const.
  destruct (has_path curr p); reflexivity.
Qed.

Lemma filter_none {A} (f : A -> bool) (l : list A) :
  (forall x, In x l -> f x = false) -> filter f l = [].
Proof.
  induction l as [|x l IH]; intros H; simpl; [reflexivity|].
  rewrite (H x (or_introl eq_refl)). apply IH. intros y Hy.
  apply H. now right.
Qed.

Lemma hash_in_self (b : Block) (l : list Block) :
  In b l -> hash_in (b_hash b) (at_path (b_path b) l) = true.
Proof.
  intros Hin. apply existsb_exists. exists b. split.
  - apply filter_In. split; [assumption | apply str_eqb_refl].
  - apply str_eqb_refl.
Qed.

(** C4.  [diff_blocks] groups the blocks by path.  Its [added] list
    holds the current blocks whose path no previous block has, its
    [removed] list the previous blocks whose path no current block has,
    its [modified] list the current blocks at a shared path whose hash
    is not among the hashes of the previous blocks at that path (each
    list up to the order of the groups).  Hence: against an empty
    previous list a block is added; a block replaced at its path by one
    of another hash is modified; against an empty current list a block
    is removed; and when every current block finds its hash among the
    previous blocks of its path, as after a reordering, nothing is
    modified. *)
Theorem diff_blocks_by_path (prev curr : list Block) :
  let d := diff_blocks prev curr in
  Permutation (added d)
              (filter (fun b => negb (has_path prev (b_path b))) curr) /\
  Permutation (removed d)
              (filter (fun b => negb (has_path curr (b_path b))) prev) /\
  Permutation (modified d)
              (filter (fun b =>
                         has_path prev (b_path b) &&
                         negb (hash_in (b_hash b)
                                       (at_path (b_path b) prev))) curr) /\
  (forall A : Block,
      diff_blocks [] [A] =
      {| added := [A]; removed := []; modified := [] |}) /\
  (forall A A' : Block,
      b_path A = b_path A' -> b_hash A <> b_hash A' ->
      diff_blocks [A] [A'] =
      {| added := []; removed := []; modified := [A'] |}) /\
  (forall A : Block,
      diff_blocks [A] [] =
      {| added := []; removed := [A]; modified := [] |}) /\
  ((forall b, In b curr ->
              hash_in (b_hash b) (at_path (b_path b) prev) = true) ->
   modified d = []) /\
  (Permutation prev curr -> d = no_changes).
Proof.
  intros d. subst d.
  split; [apply diff_blocks_added|].
  split; [apply diff_blocks_removed|].
  split; [apply diff_blocks_modified|].
  split; [intros A; reflexivity|].
  split.
  { intros A A' Hp Hh. unfold diff_blocks, index_blocks. simpl.
    rewrite Hp, str_eqb_refl. simpl.
    apply str_eqb_neq in Hh. rewrite Hh. reflexivity. }
  split; [intros A; reflexivity|].
  split.
  { intros H. apply Permutation_nil. symmetry.
    etransitivity; [apply diff_blocks_modified|].
    rewrite filter_none; [constructor|].
    intros b Hb. rewrite (H b Hb). apply andb_false_r. }
  intros Hperm.
  assert (Ha : added (diff_blocks prev curr) = []).
  { apply Permutation_nil. symmetry.
    etransitivity; [apply diff_blocks_added|].
    rewrite filter_none; [constructor|].
    intros b Hb. apply negb_false_iff, has_path_true. exists b.
    split; [|reflexivity].
    apply (Permutation_in b (Permutation_sym Hperm) Hb). }
  assert (Hr : removed (diff_blocks prev curr) = []).
  { apply Permutation_nil. symmetry.
    etransitivity; [apply diff_blocks_removed|].
    rewrite filter_none; [constructor|].
    intros b Hb. apply negb_false_iff, has_path_true. exists b.
    split; [|reflexivity]. apply (Permutation_in b Hperm Hb). }
  assert (Hm : modified (diff_blocks prev curr) = []).
  { apply Permutation_nil. symmetry.
    etransitivity; [apply diff_blocks_modified|].
    rewrite filter_none; [constructor|].
    intros b Hb. rewrite hash_in_self; [apply andb_false_r|].
    apply (Permutation_in b (Permutation_sym Hperm) Hb). }
  destruct (diff_blocks prev curr) as [a r m]. simpl in *.
  subst. reflexivity.
Qed.

(** Two list items under one path, then the same two in the other
    order, and a headline whose text changed. *)
Lemma diff_blocks_by_path_witness :
  let item1 := {| b_type := lit "list_item"; b_text := lit "First entry";
                  b_path := lit "ul:nth-of-type(1)"; b_weight := 5;
                  b_hash := lit "h1" |} in
  let item2 := {| b_type := lit "list_item"; b_text := lit "Second entry";
                  b_path := lit "ul:nth-of-type(1)"; b_weight := 5;
                  b_hash := lit "h2" |} in
  let head := {| b_type := lit "headline"; b_text := lit "Old title";
                 b_path := lit "h1:nth-of-type(1)"; b_weight := 10;
                 b_hash := lit "h3" |} in
  let head' := {| b_type := lit "headline"; b_text := lit "New title";
                  b_path := lit "h1:nth-of-type(1)"; b_weight := 10;
                  b_hash := lit "h4" |} in
  diff_blocks [head] [head'] =
  {| added := []; removed := []; modified := [head'] |} /\
  modified (diff_blocks [item1; item2] [item2; item1]) = [] /\
  diff_blocks [item1; item2] [item2; item1] = no_changes.
Proof.
  intros item1 item2 head head'.
  destruct (diff_blocks_by_path [item1; item2] [item2; item1])
    as (_ & _ & _ & _ & Hmod & _ & Hsame & Hperm).
  split; [|split].
  - apply Hmod; [reflexivity | discriminate].
  - apply Hsame. intros b [<-|[<-|[]]]; reflexivity.
  - apply Hperm. apply perm_swap.
Defined.

End DiffBlocks.

(** ** The relevance filter (extractor.py) *)

Section FilterRelevant.
Import Extractor.

Lemma score_is_score_spec (b : Block) : score b = score_spec b.
Proof.
  unfold score, score_spec, type_bonus, is_short.
  destruct (str_eqb (b_type b) (lit "price")) eqn:Hp,
           (str_eqb (b_type b) (lit "headline")) eqn:Hh,
           (str_eqb (b_type b) (lit "list_item")) eqn:Hl;
    destruct (Nat.ltb _ 12); try lia; exfalso;
    repeat match goal with
           | H : str_eqb _ _ = true |- _ => apply str_eqb_eq in H
           end;
    try (rewrite Hp in Hh; vm_compute in Hh; discriminate);
    try (rewrite Hp in Hl; vm_compute in Hl; discriminate);
    try (rewrite Hh in Hl; vm_compute in Hl; discriminate).
Qed.

Lemma insert_desc_perm (x : Block) (l : list Block) :
  Permutation (insert_desc x l) (x :: l).
Proof.
  induction l as [|y l IH]; simpl; [constructor; constructor|].
  destruct (score x <? score y); [|apply Permutation_refl].
  etransitivity; [apply perm_skip, IH | apply perm_swap].
Qed.

Lemma sorted_desc_perm (l : list Block) : Permutation (sorted_desc l) l.
Proof.
  induction l as [|x l IH]; simpl; [constructor|].
  etransitivity; [apply insert_desc_perm | now apply perm_skip].
Qed.

Lemma insert_desc_sorted (x : Block) (l : list Block) :
  StronglySorted (fun a b => score b <= score a) l ->
  StronglySorted (fun a b => score b <= score a) (insert_desc x l).
Proof.
  induction 1 as [|y l Hs IH Hall]; simpl; [repeat constructor|].
  destruct (score x <? score y) eqn:Hxy.
  - apply Z.ltb_lt in Hxy. constructor; [assumption|].
    apply Forall_forall. intros z Hz.
    apply (Permutation_in z (insert_desc_perm x l)) in Hz.
    destruct Hz as [<-|Hz]; [lia|].
    now apply (proj1 (Forall_forall _ _) Hall).
  - apply Z.ltb_ge in Hxy. constructor; [now constructor|].
    constructor; [lia|].
    apply Forall_forall. intros z Hz.
    pose proof (proj1 (Forall_forall _ _) Hall z Hz) as Hzy.
    cbv beta in Hzy. lia.
Qed.

Lemma sorted_desc_sorted (l : list Block) :
  StronglySorted (fun a b => score b <= score a) (sorted_desc l).
Proof.
  induction l as [|x l IH]; simpl; [constructor|].
  now apply insert_desc_sorted.
Qed.

(** Stability: the blocks of any one score keep their order. *)
Lemma insert_desc_stable (v : Z) (x : Block) (l : list Block) :
  filter (fun b => score b =? v) (insert_desc x l) =
  filter (fun b => score b =? v) (x :: l).
Proof.
  induction l as [|y l IH]; [reflexivity|].
  cbn [insert_desc]. destruct (score x <? score y) eqn:Hxy;
    [|reflexivity].
  apply Z.ltb_lt in Hxy. cbn [filter] in *. rewrite IH.
  destruct (score x =? v) eqn:Hx, (score y =? v) eqn:Hy; try reflexivity.
  apply Z.eqb_eq in Hx, Hy. lia.
Qed.

Lemma sorted_desc_stable (v : Z) (l : list Block) :
  filter (fun b => score b =? v) (sorted_desc l) =
  filter (fun b => score b =? v) l.
Proof.
  induction l as [|x l IH]; [reflexivity|].
  cbn [sorted_desc fold_right]. rewrite insert_desc_stable.
  cbn [filter]. fold (sorted_desc l). now rewrite IH.
Qed.

Lemma ranked_slice (l : list Block) (k : Z) :
  ranked l (slice_to k (sorted_desc l)) k.
Proof.
  exists (sorted_desc l).
  split; [apply sorted_desc_perm|].
  split; [apply sorted_desc_sorted|].
  split; [intros v; apply sorted_desc_stable | reflexivity].
Qed.

Lemma slice_to_length {A} (k : Z) (l : list A) :
  0 <= k -> Z.of_nat (length (slice_to k l)) <= k.
Proof.
  intros Hk. unfold slice_to.
  destruct (0 <=? k) eqn:H; [|apply Z.leb_gt in H; lia].
  rewrite length_firstn. lia.
Qed.

(** A block of lower score never stands before one of higher score. *)
Lemma sorted_desc_order (items pre mid post : list Block) (o p : Block) :
  score o < score p ->
  sorted_desc items <> pre ++ o :: mid ++ p :: post.
Proof.
  intros Hlt Heq.
  pose proof (sorted_desc_sorted items) as Hs. rewrite Heq in Hs.
  clear Heq. induction pre as [|z pre IH]; simpl in Hs.
  - inversion Hs as [|? ? _ Hall]; subst.
    pose proof (proj1 (Forall_forall _ _) Hall p) as Hp.
    assert (In p (mid ++ p :: post))
      by (apply in_or_app; right; left; reflexivity).
    specialize (Hp H). cbv beta in Hp. lia.
  - inversion Hs; subst. now apply IH.
Qed.

Lemma slice_to_length_neg {A} (k : Z) (l : list A) :
  k < 0 ->
  Z.of_nat (length (slice_to k l)) = Z.max 0 (Z.of_nat (length l) + k).
Proof.
  intros Hk. unfold slice_to.
  destruct (0 <=? k) eqn:H; [apply Z.leb_le in H; lia|].
  rewrite length_firstn. lia.
Qed.

Lemma sorted_desc_length (l : list Block) :
  length (sorted_desc l) = length l.
Proof. apply Permutation_length, sorted_desc_perm. Qed.

(** The difference of the two scores, case by case. *)
Lemma price_score_gap (p o : Block) :
  b_weight p = b_weight o ->
  b_type p = lit "price" -> b_type o <> lit "price" ->
  score p - score o
  = 5 - type_bonus (b_type o)
    - (if is_short p then 2 else 0) + (if is_short o then 2 else 0) /\
  (type_bonus (b_type o) = 3 <-> b_type o = lit "headline") /\
  0 <= type_bonus (b_type o) <= 3.
Proof.
  intros Hw Hp Ho. rewrite !score_is_score_spec.
  unfold score_spec. rewrite Hw, Hp.
  change (type_bonus (lit "price")) with 5.
  split; [lia|]. unfold type_bonus.
  apply str_eqb_neq in Ho. rewrite Ho.
  destruct (str_eqb (b_type o) (lit "headline")) eqn:Hh.
  - apply str_eqb_eq in Hh. split; [tauto | lia].
  - apply str_eqb_neq in Hh.
    destruct (str_eqb (b_type o) (lit "list_item")); split; try lia;
      split; intros H; try lia; contradiction.
Qed.

Lemma price_outscores (p o : Block) :
  b_weight p = b_weight o ->
  b_type p = lit "price" -> b_type o <> lit "price" ->
  is_short p = false \/ b_type o <> lit "headline" \/ is_short o = true ->
  score o < score p.
Proof.
  intros Hw Hp Ho Hcase.
  destruct (price_score_gap p o Hw Hp Ho) as (Hgap & Hhead & Hrange).
  destruct Hcase as [Hs | [Hh | Hs]].
  - rewrite Hs in Hgap. destruct (is_short o); lia.
  - assert (type_bonus (b_type o) <> 3) by tauto.
    destruct (is_short p), (is_short o); lia.
  - rewrite Hs in Hgap. destruct (is_short p); lia.
Qed.

Lemma price_ties_headline (p o : Block) :
  b_weight p = b_weight o ->
  b_type p = lit "price" -> b_type o <> lit "price" ->
  is_short p = true -> b_type o = lit "headline" -> is_short o = false ->
  score o = score p.
Proof.
  intros Hw Hp Ho Hsp Hh Hso.
  destruct (price_score_gap p o Hw Hp Ho) as (Hgap & Hhead & _).
  rewrite Hsp, Hso in Hgap. apply Hhead in Hh. lia.
Qed.

(** C8 as stated fails in two ways.  For a short price text: a headline
    and a price of the same base weight 9, the price text "$10" being
    shorter than 12 and the headline text not, both score 12; the sort is
    stable, so the headline, first in the input, stays before the price.
    For a negative [keep_max]: the slice [[:-1]] of three blocks keeps
    two, which is more than [keep_max]. *)
Lemma price_block_not_first :
  let h := {| b_type := lit "headline"; b_text := lit "Breaking news today";
              b_path := lit "h1:nth-of-type(1)"; b_weight := 9;
              b_hash := lit "a" |} in
  let p := {| b_type := lit "price"; b_text := lit "$10";
              b_path := lit "text-scan"; b_weight := 9;
              b_hash := lit "b" |} in
  (b_weight h = b_weight p /\ b_type p = lit "price" /\
   b_type h <> lit "price" /\
   score h = 12 /\ score p = 12 /\
   added (filter_relevant {| added := [h; p]; removed := [];
                             modified := [] |} DEFAULT_KEEP_MAX)
   = [h; p]) /\
  (added (filter_relevant {| added := [h; p; h]; removed := [];
                             modified := [] |} (-1))
   = [h; p] /\
   ~ Z.of_nat (length [h; p]) <= -1).
Proof.
  vm_compute. split; [|split; [reflexivity | intros H; now apply H]].
  repeat split; try reflexivity. discriminate.
Qed.

(** C8, amended.  [filter_relevant] scores a block by its base weight
    plus the bonus of its type (price 5, headline 3, list_item 2) minus
    2 for a text shorter than 12; each of the three lists is sorted by
    decreasing score, blocks of equal score keeping their input order,
    and cut with [[:keep_max]]: to [keep_max] items at most when
    [keep_max] is not negative (in particular for the default 60), and
    to all but the last [-keep_max] when it is negative.  Of two blocks
    of equal base weight, one a price and the other not, the price has
    the strictly greater score and is never placed after the other,
    except when the price text is shorter than 12, and the other block
    is a headline with a text of 12 or more: then the two scores are
    equal and the two blocks keep their input order. *)
Theorem filter_relevant_ranks (changes : Changes) (keep_max : Z) :
  let out := filter_relevant changes keep_max in
  (forall b, score b = score_spec b) /\
  ranked (added changes) (added out) keep_max /\
  ranked (removed changes) (removed out) keep_max /\
  ranked (modified changes) (modified out) keep_max /\
  (0 <= keep_max ->
   Z.of_nat (length (added out)) <= keep_max /\
   Z.of_nat (length (removed out)) <= keep_max /\
   Z.of_nat (length (modified out)) <= keep_max) /\
  (keep_max < 0 ->
   Z.of_nat (length (added out))
   = Z.max 0 (Z.of_nat (length (added changes)) + keep_max) /\
   Z.of_nat (length (removed out))
   = Z.max 0 (Z.of_nat (length (removed changes)) + keep_max) /\
   Z.of_nat (length (modified out))
   = Z.max 0 (Z.of_nat (length (modified changes)) + keep_max)) /\
  (let out60 := filter_relevant changes DEFAULT_KEEP_MAX in
   (length (added out60) <= 60)%nat /\
   (length (removed out60) <= 60)%nat /\
   (length (modified out60) <= 60)%nat) /\
  (forall p o : Block,
      b_weight p = b_weight o ->
      b_type p = lit "price" -> b_type o <> lit "price" ->
      (is_short p = false \/ b_type o <> lit "headline" \/
       is_short o = true ->
       score o < score p /\
       sorted_desc [o; p] = [p; o] /\ sorted_desc [p; o] = [p; o] /\
       forall items pre mid post,
         sorted_desc items <> pre ++ o :: mid ++ p :: post) /\
      (is_short p = true -> b_type o = lit "headline" ->
       is_short o = false ->
       score o = score p /\
       sorted_desc [o; p] = [o; p] /\ sorted_desc [p; o] = [p; o])).
Proof.
  intros out. subst out. unfold filter_relevant. cbn [added removed modified].
  split; [exact score_is_score_spec|].
  split; [apply ranked_slice|].
  split; [apply ranked_slice|].
  split; [apply ranked_slice|].
  split.
  { intros Hk. repeat split; now apply slice_to_length. }
  split.
  { intros Hk. rewrite !slice_to_length_neg by exact Hk.
    rewrite !sorted_desc_length. repeat split. }
  split.
  { unfold DEFAULT_KEEP_MAX, slice_to. cbn [Z.leb Z.compare Z.to_nat].
    repeat split; rewrite length_firstn; apply Nat.le_min_l. }
  intros p o Hw Hp Ho. split.
  - intros Hcase.
    pose proof (price_outscores p o Hw Hp Ho Hcase) as Hlt.
    split; [assumption|].
    split; [|split].
    + cbn [sorted_desc fold_right insert_desc].
      assert (H : (score o <? score p) = true) by now apply Z.ltb_lt.
      now rewrite H.
    + cbn [sorted_desc fold_right insert_desc].
      assert (H : (score p <? score o) = false) by (apply Z.ltb_ge; lia).
      now rewrite H.
    + intros items pre mid post. now apply sorted_desc_order.
  - intros Hsp Hh Hso.
    pose proof (price_ties_headline p o Hw Hp Ho Hsp Hh Hso) as Heq.
    split; [assumption|]. cbn [sorted_desc fold_right insert_desc].
    rewrite Heq, Z.ltb_irrefl. split; reflexivity.
Qed.

(** A short price and a long paragraph, both of weight 9, among the
    added blocks: the price scores 12 and the paragraph 9. *)
Lemma filter_relevant_ranks_witness :
  let para := {| b_type := lit "paragraph";
                 b_text := lit "Shipping is free for orders placed today";
                 b_path := lit "p:nth-of-type(1)"; b_weight := 9;
                 b_hash := lit "a" |} in
  let price := {| b_type := lit "price"; b_text := lit "$10";
                  b_path := lit "text-scan"; b_weight := 9;
                  b_hash := lit "b" |} in
  let changes := {| added := [para; price]; removed := [];
                    modified := [] |} in
  Z.of_nat (length (added (filter_relevant changes 1))) <= 1 /\
  Z.of_nat (length (added (filter_relevant changes (-1)))) = 1 /\
  score para < score price /\
  sorted_desc [para; price] = [price; para].
Proof.
  intros para price changes.
  destruct (filter_relevant_ranks changes 1)
    as (_ & _ & _ & _ & Hlen & _ & _ & Hprice).
  destruct (filter_relevant_ranks changes (-1))
    as (_ & _ & _ & _ & _ & Hneg & _).
  destruct (Hlen ltac:(lia)) as (Ha & _ & _).
  destruct (Hneg ltac:(lia)) as (Hb & _ & _).
  destruct (Hprice price para eq_refl eq_refl ltac:(discriminate))
    as (Hwins & _).
  assert (Hpara : b_type para <> lit "headline")
    by (vm_compute; discriminate).
  destruct (Hwins (or_intror (or_introl Hpara))) as (Hlt & Hsort & _).
  split; [exact Ha|]. split; [exact Hb|].
  split; [exact Hlt | exact Hsort].
Defined.

End FilterRelevant.

(** ** One check (main.py) *)

Section RunCheck.
Import Db Main.




End RunCheck.

Section WorkedRuns.
Import Db Main Scenario.

(** C1.  Two consecutive checks of one monitor whose screenshots are
    uniformly gray, of levels 100 and 101.  The perceptual signatures
    ([ahash]) of the two screenshots are equal, at Hamming distance 0,
    below the threshold 8; the second check nevertheless records
    [changed_visual = true], because [run_check] compares the SHA-256
    digests of the 64x64 gray buffers for inequality. *)
Theorem visual_change_is_digest_mismatch :
  let page := lit "Item page" in
  let first := world true page (Some [100]) [] NoMail in
  let second := world true page (Some [101]) [] NoMail in
  MonitorCore.ahash solid_gray [100] 8 = Ok 0 /\
  MonitorCore.ahash solid_gray [101] 8 = Ok 0 /\
  MonitorCore.hamming64 0 0 = 0 /\
  0 < MonitorCore.VISUAL_HAMMING_THRESHOLD /\
  map changed_text (results (after [first; second])) = [true; false] /\
  map changed_visual (results (after [first; second])) = [true; true].
Proof. vm_compute. repeat split; reflexivity. Qed.

(** C3.  The first check of a fresh monitor, mail being configured and
    the SMTP server refusing the connection: the check row is committed,
    [send_email] raises inside the [try] block, and the handler commits
    a second row, "Error: Connection refused". *)
Theorem smtp_failure_adds_error_row :
  let env := world true (lit "Item page") None [] MailDown in
  let rows := results (fst (run_check env fresh 1)) in
  length rows = 2%nat /\
  map changed_text rows = [true; false] /\
  map note rows = [[]; lit "Error: Connection refused"].
Proof. vm_compute. repeat split; reflexivity. Qed.

(** The same check when the delivery succeeds, and when mail is not
    configured: one row. *)
Example smtp_success_one_row :
  map note (results (after [world true (lit "Item page") None [] MailOk]))
  = [[]] /\
  map note (results (after [world true (lit "Item page") None [] NoMail]))
  = [[]].
Proof. vm_compute. split; reflexivity. Qed.

(** C5.  The ratio recorded by [run_check] is the similarity itself,
    [SequenceMatcher(...).ratio()], not one minus it: after the text
    "abcd", the text "abce" is recorded with 3/4 (and not 1/4), and
    after "abc" the wholly different "xyz" with 0 (and not 1). *)
Theorem recorded_ratio_is_similarity :
  let w t := world true (lit t) None [] NoMail in
  let near := map text_change_ratio
                  (results (after [w "abcd"; w "abce"]))%string in
  let far := map text_change_ratio
                 (results (after [w "abc"; w "xyz"]))%string in
  Difflib.ratio (lit "abcd") (lit "abce") == 3 # 4 /\
  MonitorCore.text_change_ratio (lit "abcd") (lit "abce") == 1 # 4 /\
  Difflib.ratio (lit "abc") (lit "xyz") == 0 /\
  MonitorCore.text_change_ratio (lit "abc") (lit "xyz") == 1 /\
  near = [0 # 4; 6 # 8] /\
  far = [0 # 3; 0 # 6].
Proof. vm_compute. repeat split; reflexivity. Qed.

End WorkedRuns.

Section Monad.
Import Db Main.

Lemma returns_ret {A} (a : A) (s : Session) (P : A -> Session -> Prop) :
  P a s -> returns (ret a) s P.
Proof. exact (fun H => H). Qed.

Lemma returns_lift {A} (x : Exc A) (a : A) (s : Session)
      (P : A -> Session -> Prop) :
  x = Ok a -> P a s -> returns (lift x) s P.
Proof. intros -> H. exact H. Qed.

Lemma returns_bind {A B} (m : M A) (k : A -> M B) (s : Session)
      (Q : A -> Session -> Prop) (P : B -> Session -> Prop) :
  returns m s Q ->
  (forall a s', Q a s' -> returns (k a) s' P) ->
  returns (bindM m k) s P.
Proof.
  unfold returns, bindM. destruct (m s) as [[a|e] s']; [|intros []].
  intros HQ Hk. exact (Hk a s' HQ).
Qed.

Lemma returns_weaken {A} (m : M A) (s : Session)
      (Q P : A -> Session -> Prop) :
  returns m s Q -> (forall a s', Q a s' -> P a s') -> returns m s P.
Proof.
  unfold returns. destruct (m s) as [[a|e] s']; [|intros []].
  intros HQ H. now apply H.
Qed.

Lemma same_data_refl (s : Session) : same_data s s.
Proof. repeat split. Qed.

Lemma same_data_trans (s1 s2 s3 : Session) :
  same_data s1 s2 -> same_data s2 s3 -> same_data s1 s3.
Proof.
  unfold same_data. intros (H1 & H2 & H3) (H4 & H5 & H6).
  repeat split; congruence.
Qed.

Lemma quiet_ret {A} (a : A) : quiet (ret a).
Proof. intros s. apply same_data_refl. Qed.

Lemma quiet_lift {A} (x : Exc A) : quiet (lift x).
Proof. intros s. apply same_data_refl. Qed.

Lemma quiet_emit (e : Event) : quiet (emit e).
Proof. intros s. repeat split. Qed.

Lemma quiet_bind {A B} (m : M A) (k : A -> M B) :
  quiet m -> (forall a, quiet (k a)) -> quiet (bindM m k).
Proof.
  intros Hm Hk s. unfold bindM. specialize (Hm s).
  destruct (m s) as [[a|e] s']; [|exact Hm].
  eapply same_data_trans; [exact Hm | apply Hk].
Qed.

Section Stages.
Variable env : Env.

Lemma quiet_send_email (subject body : str) :
  quiet (send_email env subject body).
Proof.
  unfold send_email. destruct (smtp_configured env).
  - apply quiet_bind; [apply quiet_emit | intros _; apply quiet_lift].
  - apply quiet_emit.
Qed.

Lemma quiet_send_slack (text : str) : quiet (send_slack env text).
Proof.
  unfold send_slack. destruct (SLACK_WEBHOOK_URL env);
    [apply quiet_emit | apply quiet_ret].
Qed.

Lemma quiet_notify (mon : Monitor) (o : Observation) :
  quiet (notify env mon o).
Proof.
  unfold notify. destruct (should_notify o); [|apply quiet_ret].
  apply quiet_bind; [apply quiet_send_email|].
  intros _. apply quiet_send_slack.
Qed.

Lemma quiet_llm (u : str) (c : Extractor.Changes) :
  quiet (llm_decide_from_blocks env u c).
Proof.
  unfold llm_decide_from_blocks.
  destruct (negb (LLM_ENABLED env)); [apply quiet_ret|].
  apply quiet_bind; [apply quiet_emit|]. intros _.
  destruct (chain_invoke env _); apply quiet_ret.
Qed.

Lemma quiet_observe (mon : Monitor) : quiet (observe env mon).
Proof.
  unfold observe.
  apply quiet_bind; [apply quiet_emit | intros _].
  apply quiet_bind; [apply quiet_lift | intros [[text shot] html]].
  apply quiet_bind; [apply quiet_lift | intros h].
  apply quiet_bind.
  { destruct shot as [[|c shot]|]; try apply quiet_ret.
    apply quiet_bind; [apply quiet_lift | intros ?; apply quiet_ret]. }
  intros [vc ih].
  apply quiet_bind.
  { destruct (truthy html); [apply quiet_lift | apply quiet_ret]. }
  intros bs.
  apply quiet_bind.
  { match goal with |- quiet (if ?c then _ else _) => destruct c end;
      [|apply quiet_ret].
    apply quiet_bind; [apply quiet_llm | intros ?; apply quiet_ret]. }
  intros [[[m sv] sm] js]. apply quiet_ret.
Qed.

(** The second part commits one more row and the new baseline. *)
Lemma persist_commits (mon : Monitor) (o : Observation) (s : Session) :
  persist env mon o s =
  (Ok tt,
   {| store :=
        {| monitors := update (rebased env mon o) (monitors (store s));
           results := results (store s) ++
                      pending s ++ [check_row env mon o] |};
      pending := []; dirty := None; trace := trace s |}).
Proof. reflexivity. Qed.

End Stages.
End Monad.

Section FirstCheck.
Import Db Main.

Lemma hexdigest_length (m : bytes) : length (Sha256.hexdigest m) = 64%nat.
Proof.
  unfold Sha256.hexdigest, Sha256.hex_word.
  rewrite !length_app, !length_map. reflexivity.
Qed.

Lemma text_hash_not_empty (t h : str) :
  Diffing.text_hash t = Ok h -> str_eqb h [] = false.
Proof.
  unfold Diffing.text_hash. destruct (encode_utf8 t); [|discriminate].
  intros [= <-]. pose proof (hexdigest_length b) as H.
  destruct (Sha256.hexdigest b); [discriminate | reflexivity].
Qed.

Variable env : Env.

(** The first part of the first check of a monitor whose stored hash
    is the empty string, when nothing raises: the text counts as
    changed, so the check is a likely change and is classified. *)
Lemma observe_first (mon : Monitor) (s : Session)
      (text : option str) (shot : option bytes) (html : str) :
  last_content_hash mon = Some [] ->
  fetch_html_and_screenshot env (url mon) (render_js mon) (selector mon)
  = Ok (text, shot, html) ->
  encode_utf8 (Diffing.normalize_text_block text) <> None ->
  (forall c l, shot = Some (c :: l) ->
               exists buf, gray_resize env (c :: l) 64 = Ok buf) ->
  (html <> [] -> exists bs, extract_blocks_from_html env html = Ok bs) ->
  returns (observe env mon) s
          (fun o s' =>
             text_changed o = true /\ likely_changed o = true /\
             should_notify o = true /\
             same_data s s' /\
             (LLM_ENABLED env = true -> In (EvClassify (url mon)) (trace s'))).
Proof.
  intros Hhash Hfetch Henc Hshot Hhtml. unfold observe.
  eapply returns_bind with (Q := fun _ s' => same_data s s');
    [repeat split|]. intros _ s1 H1.
  eapply returns_bind with (Q := fun a s' => a = (text, shot, html)
                                             /\ same_data s s').
  { eapply returns_lift; [exact Hfetch | split; [reflexivity | exact H1]]. }
  intros ? s2 [-> H2]. cbv iota beta.
  destruct (encode_utf8 (Diffing.normalize_text_block text)) as [b|] eqn:Hb;
    [|congruence].
  assert (Hth : Diffing.text_hash (Diffing.normalize_text_block text)
                = Ok (Sha256.hexdigest b)).
  { unfold Diffing.text_hash. now rewrite Hb. }
  eapply returns_bind with (Q := fun a s' => a = Sha256.hexdigest b
                                             /\ same_data s s').
  { eapply returns_lift; [exact Hth | split; [reflexivity | exact H2]]. }
  intros ? s3 [-> H3]. rewrite Hhash.
  rewrite (text_hash_not_empty _ _ Hth). cbn [negb orb].
  eapply returns_bind with (Q := fun _ s' => same_data s s').
  { destruct shot as [[|c l]|]; try exact H3.
    destruct (Hshot c l eq_refl) as [buf Hbuf].
    unfold Diffing.image_hash. rewrite Hbuf. exact H3. }
  intros [vc ih] s4 H4.
  eapply returns_bind with (Q := fun _ s' => same_data s s').
  { destruct html as [|c html]; [exact H4|].
    destruct (Hhtml ltac:(discriminate)) as [bs Hbs].
    cbn [truthy]. rewrite Hbs. exact H4. }
  intros bs s5 H5.
  eapply returns_bind
    with (Q := fun _ s' =>
                 same_data s s' /\
                 (LLM_ENABLED env = true ->
                  In (EvClassify (url mon)) (trace s'))).
  { unfold llm_decide_from_blocks, returns, bindM, emit, ret.
    destruct (LLM_ENABLED env); cbn [negb].
    - destruct (chain_invoke env _); cbn;
        (split; [exact H5 | intros _; apply in_or_app; right; now left]).
    - split; [exact H5 | discriminate]. }
  intros [[[m sv] sm] js] s6 [H6 Hcls].
  apply returns_ret. cbn.
  unfold should_notify. cbn.
  rewrite orb_true_r. repeat split; try apply H6. exact Hcls.
Qed.

(** C10.  The first check of a monitor whose stored content hash is the
    empty string (the default of a new monitor), when the check passes
    the robots gate and fetching, hashing and extraction do not raise:
    the committed row has [changed_text = true], since the SHA-256 hex
    digest of the new text is never the empty string; the check counts
    as a likely change and is classified (the chain is invoked when the
    model is enabled), and the notification step runs (the alert is
    mailed, or printed when mail is not configured). *)
Theorem first_check_reports_text_change
        (st : Store) (mid : Z) (mon : Monitor)
        (text : option str) (shot : option bytes) (html : str) :
  Db.get st mid = Some mon ->
  is_active mon = true ->
  last_content_hash mon = Some [] ->
  ignore_robots mon = true \/
  Diffing.is_allowed_by_robots (robots_read env) (url mon)
                               (lit "PingPilotBot") = true ->
  fetch_html_and_screenshot env (url mon) (render_js mon) (selector mon)
  = Ok (text, shot, html) ->
  encode_utf8 (Diffing.normalize_text_block text) <> None ->
  (forall c l, shot = Some (c :: l) ->
               exists buf, gray_resize env (c :: l) 64 = Ok buf) ->
  (html <> [] -> exists bs, extract_blocks_from_html env html = Ok bs) ->
  let '(st', events) := run_check env st mid in
  exists row rest,
    results st' = results st ++ row :: rest /\
    changed_text row = true /\ note row = [] /\
    (LLM_ENABLED env = true -> In (EvClassify (url mon)) events) /\
    exists subject,
      In (EvAlertLog subject) events \/
      exists body, In (EvEmail subject body) events.
Proof.
  intros Hget Hact Hhash Hrob Hfetch Henc Hshot Hhtml.
  unfold run_check, run_check_session. cbn [store].
  rewrite Hget, Hact. cbn [negb].
  assert (Hgate : negb (ignore_robots mon) &&
                  negb (Diffing.is_allowed_by_robots (robots_read env)
                          (url mon) (lit "PingPilotBot")) = false).
  { destruct Hrob as [-> | ->]; [reflexivity | apply andb_false_r]. }
  rewrite Hgate.
  pose proof (observe_first mon
                {| store := st; pending := []; dirty := None; trace := [] |}
                text shot html Hhash Hfetch Henc Hshot Hhtml) as Hobs.
  unfold returns in Hobs. unfold try_except, check.
  unfold bindM at 1.
  destruct (observe env mon _) as [[o|e] [st1 pend1 dirty1 tr1]];
    [|destruct Hobs].
  destruct Hobs as (Htc & _ & Hnot & (Hst & Hpend & Hdirty) & Hcls).
  cbn [store pending dirty trace] in Hst, Hpend, Hdirty, Hcls.
  subst st1 pend1 dirty1.
  unfold bindM at 1. rewrite persist_commits.
  cbn [store pending dirty trace monitors results app].
  unfold notify. rewrite Hnot. unfold send_email, send_slack.
  destruct (smtp_configured env);
    [destruct (smtp_deliver env _ _) as [[]|e] eqn:Hsmtp|];
    unfold bindM, emit, lift, ret, session_add, session_commit;
    cbn [store pending dirty trace]; try rewrite Hsmtp;
    destruct (SLACK_WEBHOOK_URL env);
    cbn [store pending dirty trace monitors results app].
  all: rewrite <- ?app_assoc; cbn [app].
  all: exists (check_row env mon o); eexists.
  all: (split; [reflexivity|]; split; [exact Htc|]; split; [reflexivity|]).
  all: (split; [intros H; apply in_or_app; left; now apply Hcls|]).
  all: first [ now (eexists; right; eexists; apply in_or_app; right; left)
             | now (eexists; left; apply in_or_app; right; left) ].
Qed.

End FirstCheck.

Section Rows.
Import Db Main.

Lemma first_check_reports_text_change_witness :
  let env := Scenario.world true (lit "Item page") None []
                            Scenario.NoMail in
  exists row rest,
    results (fst (run_check env Scenario.fresh 1)) = row :: rest /\
    changed_text row = true /\ note row = [].
Proof.
  intros env.
  pose proof (first_check_reports_text_change env Scenario.fresh 1
                (Monitor_new 1 (lit "https://example.com/item") None
                             false 60 false 1690000000)
                (Some (lit "Item page")) None (lit "<html></html>")
                eq_refl eq_refl eq_refl (or_intror eq_refl) eq_refl
                ltac:(vm_compute; discriminate)
                ltac:(intros; discriminate)
                ltac:(intros _; eexists; reflexivity)) as H.
  destruct (run_check env Scenario.fresh 1) as [st' events].
  destruct H as (row & rest & Hrows & Htc & Hnote & _).
  exists row, rest. split; [exact Hrows|]. split; [exact Htc | exact Hnote].
Defined.

(** The third part raises only when a configured mail delivery does. *)
Lemma notify_raises (env : Env) (mon : Monitor) (o : Observation)
      (s s' : Session) (e : str) :
  notify env mon o s = (Raise e, s') ->
  smtp_configured env = true /\
  exists subject body, smtp_deliver env subject body = Raise e.
Proof.
  unfold notify, send_email, send_slack.
  destruct (should_notify o); [|discriminate].
  destruct (smtp_configured env).
  - unfold bindM, emit, lift, ret.
    destruct (smtp_deliver env _ _) as [[]|e'] eqn:Hsmtp.
    + destruct (SLACK_WEBHOOK_URL env); discriminate.
    + intros [= -> _]. split; [reflexivity|]. eauto.
  - unfold bindM, emit, ret.
    destruct (SLACK_WEBHOOK_URL env); discriminate.
Qed.

(** X20.  Rows persisted by one call, for a monitor that exists and is
    active: one, or two when the mail delivery raised after the
    commit. *)
Theorem run_check_rows (env : Env) (st : Store) (mid : Z) (mon : Monitor) :
  Db.get st mid = Some mon ->
  is_active mon = true ->
  let '(st', _) := run_check env st mid in
  (exists row, results st' = results st ++ [row]) \/
  (exists row e,
      results st' = results st ++
                    [row; CheckResult_note (id mon) (now env)
                                           (lit "Error: " ++ e)] /\
      note row = [] /\
      smtp_configured env = true /\
      exists subject body, smtp_deliver env subject body = Raise e).
Proof.
  intros Hget Hact.
  unfold run_check, run_check_session. cbn [store].
  rewrite Hget, Hact. cbn [negb].
  destruct (negb (ignore_robots mon) && _).
  { left. eexists. reflexivity. }
  unfold try_except, check. unfold bindM at 1.
  pose proof (quiet_observe env mon
                {| store := st; pending := []; dirty := None;
                   trace := [] |}) as Hq.
  destruct (observe env mon _) as [[o|e] [st1 pend1 dirty1 tr1]].
  - destruct Hq as (Hst & Hpend & Hdirty). cbn in Hst, Hpend, Hdirty.
    subst st1 pend1 dirty1.
    unfold bindM at 1. rewrite persist_commits.
    cbn [store pending dirty trace monitors results app].
    match goal with
    | |- context [notify env ?m ?o ?s] =>
        pose proof (quiet_notify env m o s) as Hn;
        pose proof (notify_raises env m o s) as Hr;
        destruct (notify env m o s) as [[[]|e] [st2 pend2 dirty2 tr2]]
    end.
    + destruct Hn as (Hst & _). cbn in Hst. subst st2.
      left. eexists. reflexivity.
    + destruct Hn as (Hst & Hpend & Hdirty). cbn in Hst, Hpend, Hdirty.
      subst st2 pend2 dirty2.
      destruct (Hr _ e eq_refl) as [Hconf Hsmtp].
      right. exists (check_row env mon o), e.
      split; [cbn; now rewrite <- app_assoc|].
      split; [reflexivity|]. split; assumption.
  - destruct Hq as (Hst & Hpend & Hdirty). cbn in Hst, Hpend, Hdirty.
    subst st1 pend1 dirty1. left. eexists. reflexivity.
Qed.

End Rows.

Section Flags.
Import Db Main.
Variable env : Env.

Lemma bindM_ok {A B} (m : M A) (k : A -> M B) (s s' : Session) (b : B) :
  bindM m k s = (Ok b, s') ->
  exists a s1, m s = (Ok a, s1) /\ k a s1 = (Ok b, s').
Proof.
  unfold bindM. destruct (m s) as [[a|e] s1]; [eauto | discriminate].
Qed.

(** What a check that reaches its verdict has computed: the text flag
    and the visual flag are inequalities of hex digests, and the ratio is
    the similarity of the two texts when the text flag is set. *)
Lemma observe_flags (mon : Monitor) (s s' : Session) (o : Observation)
      (text : option str) (shot : option bytes) (html : str) :
  fetch_html_and_screenshot env (url mon) (render_js mon) (selector mon)
  = Ok (text, shot, html) ->
  observe env mon s = (Ok o, s') ->
  text_for_diff o = Diffing.normalize_text_block text /\
  Diffing.text_hash (text_for_diff o) = Ok (new_text_hash o) /\
  text_changed o =
    match last_content_hash mon with
    | Some h => negb (str_eqb (new_text_hash o) h)
    | None => false
    end /\
  visual_changed o =
    match shot, last_image_hash mon with
    | Some (c :: l), Some h =>
        match gray_resize env (c :: l) 64 with
        | Ok buf => negb (str_eqb (Sha256.hexdigest buf) h)
        | Raise _ => false
        end
    | _, _ => false
    end /\
  change_ratio o =
    (if text_changed o
     then Difflib.ratio (or_str (last_text mon) []) (text_for_diff o)
     else 0%Q).
Proof.
  intros Hfetch H. unfold observe in H.
  apply bindM_ok in H as (_ & s1 & _ & H).
  apply bindM_ok in H as (fetched & s2 & Hf & H).
  unfold lift in Hf. rewrite Hfetch in Hf. injection Hf as <- _.
  cbv beta iota in H.
  apply bindM_ok in H as (h & s3 & Hh & H).
  unfold lift in Hh. injection Hh as Hh _.
  apply bindM_ok in H as ([vc ih] & s4 & Hv & H).
  apply bindM_ok in H as (bs & s5 & _ & H).
  apply bindM_ok in H as ([[[m sv] sm] js] & s6 & _ & H).
  unfold ret in H. injection H as <- _.
  cbn [text_for_diff new_text_hash text_changed visual_changed
       change_ratio].
  repeat split; try assumption.
  destruct shot as [[|c l]|]; try (injection Hv as <- _; reflexivity).
  apply bindM_ok in Hv as (ihash & s7 & Hi & Hv).
  unfold lift, Diffing.image_hash, bind in Hi.
  unfold ret in Hv. injection Hv as <- _.
  destruct (gray_resize env (c :: l) 64); [|discriminate].
  injection Hi as <- _. destruct (last_image_hash mon); reflexivity.
Qed.

End Flags.

(** ** Text normalization (diffing.py) *)

Section Normalize.
Import Diffing Shape.

Lemma space_is_space : Re.is_space 32 = true.
Proof. reflexivity. Qed.

Lemma collapse_single_spaced (s : str) :
  forall b, single_spaced b (collapse b s) = true.
Proof.
  induction s as [|c s IH]; intros b; simpl; [reflexivity|].
  destruct (Re.is_space c) eqn:Hc.
  - destruct b; [apply IH|]. simpl. apply IH.
  - cbn [single_spaced]. rewrite Hc. apply IH.
Qed.

Lemma single_spaced_weaken (s : str) :
  single_spaced true s = true -> single_spaced false s = true.
Proof.
  destruct s as [|c s]; simpl; [reflexivity|].
  destruct (Re.is_space c); [|exact (fun H => H)].
  rewrite andb_false_r. discriminate.
Qed.

Lemma lstrip_suffix (s : str) :
  exists p, s = p ++ lstrip s /\ Forall (fun c => Re.is_space c = true) p.
Proof.
  induction s as [|c s (p & Hp & Hall)]; simpl.
  - exists []. split; [reflexivity | constructor].
  - destruct (Re.is_space c) eqn:Hc.
    + exists (c :: p). split; [simpl; congruence | now constructor].
    + exists []. split; [reflexivity | constructor].
Qed.

Lemma lstrip_starts_clean (s : str) : starts_clean (lstrip s) = true.
Proof.
  induction s as [|c s IH]; simpl; [reflexivity|].
  destruct (Re.is_space c) eqn:Hc; [exact IH|]. simpl. now rewrite Hc.
Qed.

Lemma lstrip_clean (s : str) : starts_clean s = true -> lstrip s = s.
Proof.
  destruct s as [|c s]; simpl; [reflexivity|].
  destruct (Re.is_space c); [discriminate | reflexivity].
Qed.

Lemma single_spaced_suffix (p s : str) :
  forall b, single_spaced b (p ++ s) = true ->
            single_spaced false s = true.
Proof.
  induction p as [|c p IH]; intros b; simpl.
  - destruct b; [apply single_spaced_weaken | exact (fun H => H)].
  - destruct (Re.is_space c).
    + intros H. apply andb_true_iff in H as [_ H]. now apply IH in H.
    + apply IH.
Qed.

Lemma single_spaced_prefix (p s : str) :
  forall b, single_spaced b (p ++ s) = true -> single_spaced b p = true.
Proof.
  induction p as [|c p IH]; intros b; simpl; [reflexivity|].
  destruct (Re.is_space c).
  - intros H. apply andb_true_iff in H as [H1 H2].
    rewrite H1. now apply IH in H2.
  - apply IH.
Qed.

(** [strip s] is [lstrip s] without its trailing whitespace. *)
Lemma strip_prefix (s : str) :
  exists t, lstrip s = strip s ++ t /\
            Forall (fun c => Re.is_space c = true) t.
Proof.
  unfold strip.
  destruct (lstrip_suffix (rev (lstrip s))) as (p & Hp & Hall).
  exists (rev p). split.
  - rewrite <- (rev_involutive (lstrip s)) at 1. rewrite Hp at 1.
    now rewrite rev_app_distr.
  - apply Forall_rev. exact Hall.
Qed.

Lemma strip_ends_clean (s : str) : ends_clean (strip s) = true.
Proof.
  unfold ends_clean, strip. rewrite rev_involutive.
  apply lstrip_starts_clean.
Qed.

Lemma strip_starts_clean (s : str) : starts_clean (strip s) = true.
Proof.
  destruct (strip_prefix s) as (t & Ht & _).
  pose proof (lstrip_starts_clean s) as H. rewrite Ht in H.
  destruct (strip s); [reflexivity | exact H].
Qed.

Lemma strip_single_spaced (s : str) (b : bool) :
  single_spaced b s = true -> single_spaced false (strip s) = true.
Proof.
  intros H. destruct (lstrip_suffix s) as (p & Hp & _).
  rewrite Hp in H. apply single_spaced_suffix in H.
  destruct (strip_prefix s) as (t & Ht & _). rewrite Ht in H.
  now apply single_spaced_prefix in H.
Qed.

Lemma strip_clean (s : str) :
  starts_clean s = true -> ends_clean s = true -> strip s = s.
Proof.
  intros Hs He. unfold strip. rewrite (lstrip_clean s Hs).
  unfold ends_clean in He. rewrite (lstrip_clean _ He).
  apply rev_involutive.
Qed.

Lemma collapse_fixed (s : str) :
  forall b, single_spaced b s = true -> collapse b s = s.
Proof.
  induction s as [|c s IH]; intros b; simpl; [reflexivity|].
  destruct (Re.is_space c).
  - intros H. apply andb_true_iff in H as [H1 H2].
    apply andb_true_iff in H1 as [Hc Hb].
    apply Z.eqb_eq in Hc. apply negb_true_iff in Hb. subst b c.
    now rewrite (IH true H2).
  - intros H. now rewrite (IH false H).
Qed.

Lemma ink_collapse (s : str) : forall b, ink (collapse b s) = ink s.
Proof.
  unfold ink. induction s as [|c s IH]; intros b; simpl; [reflexivity|].
  destruct (Re.is_space c) eqn:Hc; simpl.
  - destruct b; simpl; apply IH.
  - rewrite Hc. simpl. now rewrite IH.
Qed.

Lemma ink_lstrip (s : str) : ink (lstrip s) = ink s.
Proof.
  unfold ink. induction s as [|c s IH]; simpl; [reflexivity|].
  destruct (Re.is_space c) eqn:Hc; simpl; [exact IH|].
  now rewrite Hc.
Qed.

Lemma ink_rev (s : str) : ink (rev s) = rev (ink s).
Proof.
  unfold ink. induction s as [|c s IH]; simpl; [reflexivity|].
  rewrite filter_app, IH. simpl.
  destruct (Re.is_space c); simpl; [apply app_nil_r | reflexivity].
Qed.

Lemma ink_strip (s : str) : ink (strip s) = ink s.
Proof.
  unfold strip.
  now rewrite ink_rev, ink_lstrip, ink_rev, rev_involutive, ink_lstrip.
Qed.

(** X1.  The text that [normalize_text_block] returns has no whitespace
    at either end, and no whitespace inside but single spaces. *)
Theorem normalize_text_block_shape (s : option str) :
  let t := normalize_text_block s in
  starts_clean t = true /\ ends_clean t = true /\
  single_spaced false t = true.
Proof.
  unfold normalize_text_block. split; [apply strip_starts_clean|].
  split; [apply strip_ends_clean|].
  apply (strip_single_spaced _ false), collapse_single_spaced.
Qed.

(** X2.  [normalize_text_block] changes whitespace only: the other
    characters of the text are kept, all of them and in their order; so a
    text that is missing, empty or all whitespace becomes the empty
    string, and no other text does. *)
Theorem normalize_text_block_keeps_ink (s : option str) :
  ink (normalize_text_block s) = ink (or_str s []) /\
  (normalize_text_block s = [] <-> ink (or_str s []) = []).
Proof.
  assert (Hink : ink (normalize_text_block s) = ink (or_str s [])).
  { unfold normalize_text_block. now rewrite ink_strip, ink_collapse. }
  split; [exact Hink|]. rewrite <- Hink. split; [intros ->; reflexivity|].
  intros H.
  assert (Hs : starts_clean (normalize_text_block s) = true)
    by (unfold normalize_text_block; apply strip_starts_clean).
  destruct (normalize_text_block s) as [|c t]; [reflexivity|].
  simpl in Hs. unfold ink in H. simpl in H. rewrite Hs in H. discriminate.
Qed.

(** X3.  Normalizing twice is normalizing once, and a text that has the
    normalized shape is left as it is. *)
Theorem normalize_text_block_idempotent (s : option str) :
  normalize_text_block (Some (normalize_text_block s))
  = normalize_text_block s /\
  (forall t, starts_clean t = true -> ends_clean t = true ->
             single_spaced false t = true ->
             normalize_text_block (Some t) = t).
Proof.
  assert (Hfix : forall t, starts_clean t = true -> ends_clean t = true ->
                           single_spaced false t = true ->
                           normalize_text_block (Some t) = t).
  { intros t Hs He Hsp. unfold normalize_text_block.
    assert (Hor : or_str (Some t) [] = t) by (destruct t; reflexivity).
    rewrite Hor, (collapse_fixed t false Hsp). now apply strip_clean. }
  split; [|exact Hfix].
  apply Hfix; unfold normalize_text_block.
  - apply strip_starts_clean.
  - apply strip_ends_clean.
  - apply (strip_single_spaced _ false), collapse_single_spaced.
Qed.

Lemma normalize_text_block_idempotent_witness :
  normalize_text_block (Some (lit "Price: $10")) = lit "Price: $10".
Proof.
  apply (proj2 (normalize_text_block_idempotent None)); reflexivity.
Defined.

End Normalize.

(** ** Fingerprints (diffing.py) *)

Section Fingerprints.
Import Diffing Shape.

Lemma hex_digit_is_hex (x : Z) : is_hex (Sha256.hex_digit (x mod 16)) = true.
Proof.
  pose proof (Z.mod_pos_bound x 16 ltac:(lia)) as H.
  unfold Sha256.hex_digit, is_hex.
  destruct (x mod 16 <? 10) eqn:Hlt.
  - apply Z.ltb_lt in Hlt. apply orb_true_iff. left.
    apply andb_true_iff. split; apply Z.leb_le; lia.
  - apply Z.ltb_ge in Hlt. apply orb_true_iff. right.
    apply andb_true_iff. split; apply Z.leb_le; lia.
Qed.

Lemma hex_word_is_hex (x : Z) : forallb is_hex (Sha256.hex_word x) = true.
Proof.
  unfold Sha256.hex_word. apply forallb_forall. intros c Hc.
  apply in_map_iff in Hc as (i & <- & _). apply hex_digit_is_hex.
Qed.

Lemma hexdigest_is_hex (m : bytes) : forallb is_hex (Sha256.hexdigest m) = true.
Proof.
  unfold Sha256.hexdigest. rewrite !forallb_app, !hex_word_is_hex.
  reflexivity.
Qed.

Lemma is_scalar_true (c : Z) :
  0 <= c < 55296 \/ 57344 <= c < 1114112 -> is_scalar c = true.
Proof.
  intros H. unfold is_scalar.
  destruct (Z.leb_spec 0 c), (Z.ltb_spec c 55296),
    (Z.leb_spec 57344 c), (Z.ltb_spec c 1114112); try reflexivity; lia.
Qed.

Lemma is_scalar_false (c : Z) :
  c < 0 \/ 55296 <= c < 57344 \/ 1114112 <= c -> is_scalar c = false.
Proof.
  intros H. unfold is_scalar.
  destruct (Z.leb_spec 0 c), (Z.ltb_spec c 55296),
    (Z.leb_spec 57344 c), (Z.ltb_spec c 1114112); try reflexivity; lia.
Qed.

Lemma utf8_char_scalar (c : Z) :
  utf8_char c = None <-> is_scalar c = false.
Proof.
  unfold utf8_char.
  destruct (Z.ltb_spec c 0);
    [rewrite is_scalar_false by lia; tauto|].
  destruct (Z.ltb_spec c 128);
    [rewrite is_scalar_true by lia; split; discriminate|].
  destruct (Z.ltb_spec c 2048);
    [rewrite is_scalar_true by lia; split; discriminate|].
  destruct (Z.leb_spec 55296 c), (Z.leb_spec c 57343); cbn [andb];
    try (rewrite is_scalar_false by lia; tauto); try lia.
  - destruct (Z.ltb_spec c 65536);
      [rewrite is_scalar_true by lia; split; discriminate|].
    destruct (Z.ltb_spec c 1114112);
      [rewrite is_scalar_true by lia; split; discriminate|].
    rewrite is_scalar_false by lia. tauto.
  - destruct (Z.ltb_spec c 65536); [|lia].
    rewrite is_scalar_true by lia. split; discriminate.
Qed.

Lemma encode_utf8_scalar (t : str) :
  encode_utf8 t <> None <-> forallb is_scalar t = true.
Proof.
  induction t as [|c t IH]; simpl; [split; [reflexivity|discriminate]|].
  pose proof (utf8_char_scalar c) as Hc.
  destruct (utf8_char c) as [b|]; destruct (is_scalar c); simpl.
  - destruct (encode_utf8 t).
    + split; [intros _; apply IH|]; discriminate.
    + split; [intros H; now elim H|].
      intros H. apply IH in H. now elim H.
  - destruct Hc as [_ Hc]. specialize (Hc eq_refl). discriminate.
  - destruct Hc as [Hc _]. specialize (Hc eq_refl). discriminate.
  - split; [intros H; now elim H | discriminate].
Qed.

(** X4.  [text_hash] returns a digest exactly for the texts whose code
    points are all Unicode scalar values, and raises for the others
    (a lone surrogate cannot be encoded); a digest is a string of 64
    lowercase hexadecimal digits, never the empty string. *)
Theorem text_hash_digest (t : str) :
  ((exists h, text_hash t = Ok h) <-> forallb is_scalar t = true) /\
  (forall h, text_hash t = Ok h ->
             length h = 64%nat /\ forallb is_hex h = true /\ h <> []).
Proof.
  unfold text_hash. pose proof (encode_utf8_scalar t) as Hsc.
  destruct (encode_utf8 t) as [b|]; split.
  - split; [intros _; apply Hsc; discriminate | intros _; eauto].
  - intros h [= <-]. split; [apply hexdigest_length|].
    split; [apply hexdigest_is_hex|].
    pose proof (hexdigest_length b) as H.
    destruct (Sha256.hexdigest b); discriminate.
  - split; [intros [h H]; discriminate|].
    intros H. apply Hsc in H. now elim H.
  - intros h H. discriminate.
Qed.

Lemma text_hash_digest_witness :
  length (Sha256.hexdigest (lit "abc")) = 64%nat.
Proof.
  apply (proj2 (text_hash_digest (lit "abc")) _ eq_refl).
Defined.

End Fingerprints.

(** ** Visual signatures (monitor_core.py) *)

Section Signatures.
Import MonitorCore.

Lemma pos_bit_count_pos (p : positive) : 0 < pos_bit_count p.
Proof. induction p; cbn [pos_bit_count]; lia. Qed.

Lemma pos_bit_count_size (p : positive) :
  pos_bit_count p <= Z.pos (Pos.size p).
Proof.
  induction p; cbn [pos_bit_count Pos.size]; rewrite ?Pos2Z.inj_succ; lia.
Qed.

Lemma bit_count_zero (x : Z) : bit_count x = 0 <-> x = 0.
Proof.
  destruct x as [|p|p]; cbn [bit_count]; [tauto| |];
    pose proof (pos_bit_count_pos p); split; (lia || discriminate).
Qed.

Lemma bit_count_bound (x n : Z) :
  0 <= n -> 0 <= x < 2 ^ n -> 0 <= bit_count x <= n.
Proof.
  intros Hn [H0 Hx]. destruct x as [|p|p]; cbn [bit_count]; [lia| |lia].
  pose proof (pos_bit_count_pos p). pose proof (pos_bit_count_size p).
  assert (Z.log2 (Z.pos p) < n) by (apply Z.log2_lt_pow2; lia).
  assert (Z.pos (Pos.size p) = Z.log2 (Z.pos p) + 1)
    by (destruct p; simpl; rewrite ?Pos2Z.inj_succ; lia).
  lia.
Qed.

Lemma lxor_bound (a b n : Z) :
  0 <= n -> 0 <= a < 2 ^ n -> 0 <= b < 2 ^ n -> 0 <= Z.lxor a b < 2 ^ n.
Proof.
  intros Hn [Ha Ha'] [Hb Hb'].
  assert (H0 : 0 <= Z.lxor a b) by (apply Z.lxor_nonneg; tauto).
  split; [exact H0|].
  destruct (Z.eq_dec (Z.lxor a b) 0) as [->|Hne];
    [apply Z.pow_pos_nonneg; lia|].
  assert (Hpos : 0 < n).
  { destruct (Z.eq_dec n 0) as [->|]; [|lia]. exfalso. apply Hne.
    change (2 ^ 0) with 1 in *.
    assert (a = 0) by lia. assert (b = 0) by lia. subst. reflexivity. }
  apply Z.log2_lt_pow2; [lia|].
  pose proof (Z.log2_lxor a b Ha Hb) as Hl.
  assert (Z.log2 a < n).
  { destruct (Z.eq_dec a 0) as [->|]; [simpl; lia|].
    apply Z.log2_lt_pow2; lia. }
  assert (Z.log2 b < n).
  { destruct (Z.eq_dec b 0) as [->|]; [simpl; lia|].
    apply Z.log2_lt_pow2; lia. }
  lia.
Qed.

(** X5.  [hamming64] is a distance on signatures: it is 0 exactly
    between equal integers, symmetric, and between two [n]-bit
    signatures it lies between 0 and [n]. *)
Theorem hamming64_distance (a b : Z) :
  (hamming64 a b = 0 <-> a = b) /\
  hamming64 a b = hamming64 b a /\
  (forall n, 0 <= n -> 0 <= a < 2 ^ n -> 0 <= b < 2 ^ n ->
             0 <= hamming64 a b <= n).
Proof.
  unfold hamming64. split; [|split].
  - rewrite bit_count_zero. apply Z.lxor_eq_0_iff.
  - now rewrite Z.lxor_comm.
  - intros n Hn Ha Hb. apply bit_count_bound; [assumption|].
    now apply lxor_bound.
Qed.

Lemma hamming64_distance_witness :
  0 <= hamming64 0xFF00 0x0FF0 <= 64.
Proof.
  apply (proj2 (proj2 (hamming64_distance 0xFF00 0x0FF0)) 64); lia.
Defined.

End Signatures.

Section AverageHash.
Import MonitorCore.

Lemma testbit_one_shifted (k j : Z) :
  0 <= k -> Z.testbit (Z.shiftl 1 k) j = (k =? j).
Proof.
  intros Hk. rewrite Z.shiftl_1_l. now apply Z.pow2_bits_eqb.
Qed.

(** The bit that [set_bits] gives position [j]: the one it had, or the
    test [p > avg] of the pixel that the position stands for. *)
Lemma set_bits_testbit (ps : list Z) (total n : Z) :
  forall k bits j,
    0 <= k -> 0 <= j ->
    Z.testbit (set_bits ps k total n bits) j =
    Z.testbit bits j ||
    ((k <=? j) &&
     match nth_error ps (Z.to_nat (j - k)) with
     | Some p => total <? p * n
     | None => false
     end).
Proof.
  induction ps as [|p ps IH]; intros k bits j Hk Hj; cbn [set_bits].
  - destruct (Z.to_nat (j - k)); cbn [nth_error];
      now rewrite andb_false_r, orb_false_r.
  - rewrite IH by lia.
    assert (Hnew :
              Z.testbit (if total <? p * n
                         then Z.lor bits (Z.shiftl 1 k) else bits) j =
              Z.testbit bits j || ((k =? j) && (total <? p * n))).
    { destruct (total <? p * n).
      - rewrite Z.lor_spec, testbit_one_shifted by lia.
        now rewrite andb_true_r.
      - now rewrite andb_false_r, orb_false_r. }
    rewrite Hnew. clear Hnew.
    destruct (Z.eqb_spec k j) as [->|Hne].
    + assert (H1 : (j + 1 <=? j) = false) by (apply Z.leb_gt; lia).
      assert (H2 : (j <=? j) = true) by (apply Z.leb_le; lia).
      rewrite H1, H2, Z.sub_diag. cbn [Z.to_nat nth_error andb].
      now rewrite orb_false_r.
    + cbn [andb]. rewrite orb_false_r.
      destruct (Z.leb_spec (k + 1) j) as [Hlt|Hge].
      * assert (H2 : (k <=? j) = true) by (apply Z.leb_le; lia).
        rewrite H2.
        replace (Z.to_nat (j - k)) with (S (Z.to_nat (j - (k + 1)))) by lia.
        reflexivity.
      * assert (H2 : (k <=? j) = false) by (apply Z.leb_gt; lia).
        now rewrite H2.
Qed.

Lemma set_bits_nonneg (ps : list Z) (total n : Z) :
  forall k bits, 0 <= k -> 0 <= bits -> 0 <= set_bits ps k total n bits.
Proof.
  induction ps as [|p ps IH]; intros k bits Hk Hb; cbn [set_bits];
    [assumption|].
  apply IH; [lia|]. destruct (total <? p * n); [|assumption].
  apply Z.lor_nonneg. split; [assumption|]. apply Z.shiftl_nonneg. lia.
Qed.

Lemma sum_above (ps : list Z) (t n : Z) :
  Forall (fun p => t < p * n) ps -> ps <> [] ->
  Z.of_nat (length ps) * t < n * fold_right Z.add 0 ps.
Proof.
  induction 1 as [|p ps Hp Hall IH]; intros Hne; [congruence|].
  cbn [length fold_right]. destruct ps as [|q ps].
  - cbn [length fold_right]. lia.
  - specialize (IH ltac:(discriminate)). cbn [length] in *. lia.
Qed.

(** X6.  When the decoder yields the pixels of an image, [ahash] returns
    the integer whose bit [i] tells whether pixel [i] is above the mean
    of all pixels: a non-negative integer below [2 ^ n] for [n] pixels,
    in which at least one bit is clear; for pixels that are all equal it
    is 0.  Without image bytes it is 0 as well, no image being decoded. *)
Theorem ahash_signature (gray_resize : bytes -> nat -> Exc (list Z))
        (image_bytes : bytes) (size : nat) (pixels : list Z) :
  ahash gray_resize [] size = Ok 0 /\
  (image_bytes <> [] -> pixels <> [] ->
   gray_resize image_bytes size = Ok pixels ->
   exists h,
     ahash gray_resize image_bytes size = Ok h /\
     0 <= h < 2 ^ Z.of_nat (length pixels) /\
     (forall i p, nth_error pixels i = Some p ->
                  Z.testbit h (Z.of_nat i) =
                  (fold_right Z.add 0 pixels
                   <? p * Z.of_nat (length pixels))) /\
     (exists i, (i < length pixels)%nat /\
                Z.testbit h (Z.of_nat i) = false) /\
     ((forall p q, In p pixels -> In q pixels -> p = q) -> h = 0)).
Proof.
  split; [reflexivity|]. intros Himg Hpx Hdec.
  set (total := fold_right Z.add 0 pixels).
  set (n := Z.of_nat (length pixels)).
  set (h := set_bits pixels 0 total n 0).
  assert (Hbit : forall j, 0 <= j ->
            Z.testbit h j =
            match nth_error pixels (Z.to_nat j) with
            | Some p => total <? p * n
            | None => false
            end).
  { intros j Hj. unfold h. rewrite set_bits_testbit by lia.
    rewrite Z.bits_0, Z.sub_0_r. cbn [orb].
    assert (Hle : (0 <=? j) = true) by (apply Z.leb_le; lia).
    now rewrite Hle. }
  assert (Hnn : 0 <= h) by (apply set_bits_nonneg; lia).
  exists h. split.
  { unfold ahash. destruct image_bytes as [|b bs]; [congruence|].
    unfold bind. rewrite Hdec. destruct pixels; [congruence | reflexivity]. }
  split.
  { split; [exact Hnn|].
    destruct (Z.eq_dec h 0) as [->|Hh0]; [apply Z.pow_pos_nonneg; lia|].
    apply Z.log2_lt_pow2; [lia|].
    destruct (Z.lt_ge_cases (Z.log2 h) n) as [|Hge]; [assumption|].
    exfalso. pose proof (Z.bit_log2 h ltac:(lia)) as Htop.
    rewrite Hbit in Htop by apply Z.log2_nonneg.
    assert (Hnone : nth_error pixels (Z.to_nat (Z.log2 h)) = None)
      by (apply nth_error_None; unfold n in Hge; lia).
    rewrite Hnone in Htop. discriminate. }
  split.
  { intros i p Hi. rewrite Hbit by lia. now rewrite Nat2Z.id, Hi. }
  split.
  { destruct (Forall_Exists_dec (fun p => total < p * n)
                (fun p => Z_lt_dec total (p * n)) pixels) as [Hall|Hex].
    - exfalso. pose proof (sum_above pixels total n Hall Hpx) as H.
      fold n total in H. lia.
    - apply Exists_exists in Hex as (p & Hin & Hp).
      apply In_nth_error in Hin as [i Hi]. exists i. split.
      + apply nth_error_Some. congruence.
      + rewrite Hbit by lia. rewrite Nat2Z.id, Hi. apply Z.ltb_ge. lia. }
  intros Hsame. apply Z.bits_inj_0. intros j.
  destruct (Z.neg_nonneg_cases j) as [Hneg|Hj];
    [now apply Z.testbit_neg_r|].
  rewrite Hbit by assumption.
  destruct (nth_error pixels (Z.to_nat j)) as [p|] eqn:Hp; [|reflexivity].
  apply Z.ltb_ge. apply nth_error_In in Hp.
  assert (Hsum : n * p = total).
  { unfold n, total. clear -Hsame Hp.
    assert (Hall : Forall (fun q => q = p) pixels).
    { apply Forall_forall. intros q Hq. now apply Hsame. }
    clear Hsame Hp. induction Hall as [|q l Hq Hall IH];
      cbn [length fold_right]; [lia|]. subst q. lia. }
  lia.
Qed.

Lemma ahash_signature_witness :
  ahash Scenario.solid_gray [7] 8 = Ok 0.
Proof.
  destruct (ahash_signature Scenario.solid_gray [7] 8 (repeat 7 64))
    as [_ H].
  destruct (H ltac:(discriminate) ltac:(discriminate) eq_refl)
    as (h & Hh & _ & _ & _ & Hzero).
  rewrite Hh. f_equal. apply Hzero.
  intros p q Hp Hq. apply repeat_spec in Hp, Hq. congruence.
Defined.

End AverageHash.

Section ClassifierBehaviour.
Import Re MonitorCore Rules.

Lemma occurs_scan (r : regex) (s : str) :
  occurs r s = match scan r s (length s) O with
               | Some _ => true
               | None => false
               end.
Proof.
  unfold occurs, matched, search.
  destruct (scan r s (length s) O) as [[[i j] c]|]; reflexivity.
Qed.

Lemma search_occurs (r : regex) (s : str) (n : nat) :
  match fst (search r s n) with Some _ => true | None => false end
  = occurs r s.
Proof.
  rewrite occurs_scan. unfold search.
  destruct (scan r s (length s) O) as [[[i j] c]|]; reflexivity.
Qed.

Lemma findall_absent (r : regex) (s : str) :
  occurs r s = false -> findall r s = [].
Proof.
  rewrite occurs_scan. unfold findall. cbn [findall_from].
  rewrite Nat.sub_0_r.
  destruct (scan r s (length s) O) as [[[i j] c]|];
    [discriminate | reflexivity].
Qed.

(** The flag that two successive searches of one pattern give. *)
Lemma searches_flag (r : regex) (a b : str) (n : nat) :
  let '(x, n') := search r a n in
  let '(y, _) := search r b n' in
  match_ne x y = hits r a b.
Proof.
  pose proof (match_ne_searches r a b n) as H.
  pose proof (search_occurs r a n) as Ha.
  destruct (search r a n) as [x n'].
  pose proof (search_occurs r b n') as Hb.
  destruct (search r b n') as [y n''].
  cbn [fst] in Ha, Hb. unfold hits. rewrite H, <- Ha, <- Hb.
  destruct x, y; reflexivity.
Qed.

(** X7.  What [classify_material_change] computes: its verdict depends
    only on which patterns match in either text, not on whether the
    matches differ.  It is (true, "high") when a stock phrase or a price
    occurs in the old or in the new text, otherwise (true, "medium") when
    a date does, otherwise (true, "low") when a call to action does, and
    (false, "none") only when none of the four patterns matches in either
    text. *)
Theorem classify_by_presence (old new : str) :
  classify_material_change old new =
  if hits STOCK_RE old new || hits PRICE_RE old new then (true, lit "high")
  else if hits DATE_RE old new then (true, lit "medium")
  else if hits CTA_RE old new then (true, lit "low")
  else (false, lit "none").
Proof.
  unfold classify_material_change.
  pose proof (searches_flag PRICE_RE old new O) as Hp.
  destruct (search PRICE_RE old O) as [p_old n1].
  destruct (search PRICE_RE new n1) as [p_new n2].
  pose proof (searches_flag DATE_RE old new n2) as Hd.
  destruct (search DATE_RE old n2) as [d_old n3].
  destruct (search DATE_RE new n3) as [d_new n4].
  pose proof (searches_flag STOCK_RE old new n4) as Hs.
  destruct (search STOCK_RE old n4) as [s_old n5].
  destruct (search STOCK_RE new n5) as [s_new n6].
  pose proof (searches_flag CTA_RE old new n6) as Hc.
  destruct (search CTA_RE old n6) as [c_old n7].
  destruct (search CTA_RE new n7) as [c_new n8].
  rewrite Hp, Hd, Hs, Hc.
  assert (Hprice : hits PRICE_RE old new ||
                   negb (strs_eqb (findall PRICE_RE old)
                                  (findall PRICE_RE new))
                   = hits PRICE_RE old new).
  { destruct (hits PRICE_RE old new) eqn:Hh; [reflexivity|].
    unfold hits in Hh. apply orb_false_iff in Hh as [Ho Hn].
    now rewrite (findall_absent _ _ Ho), (findall_absent _ _ Hn). }
  rewrite Hprice. reflexivity.
Qed.

End ClassifierBehaviour.

(** ** More on block diffing and ranking (extractor.py) *)

Section DiffBlocksMore.
Import Extractor.

Lemma filter_all {A} (f : A -> bool) (l : list A) :
  (forall x, In x l -> f x = true) -> filter f l = l.
Proof.
  induction l as [|x l IH]; intros H; simpl; [reflexivity|].
  rewrite (H x (or_introl eq_refl)). f_equal. apply IH.
  intros y Hy. apply H. now right.
Qed.

(** X8.  [index_blocks] loses and invents nothing: looking a path up
    gives the blocks of the list at that path, in their order, and
    nothing for a path that no block has; no group is empty, each path
    is a key once, and the groups together hold the blocks of the list,
    each as often as the list does. *)
Theorem index_blocks_lookup (l : list Block) :
  let idx := index_blocks l in
  (forall p, get idx p =
             if has_path l p then Some (at_path p l) else None) /\
  (forall p bs, get idx p = Some bs -> bs <> []) /\
  NoDup (keys idx) /\
  Permutation (flat_map snd idx) l.
Proof.
  intros idx. pose proof (index_blocks_indexes l) as Hidx.
  destruct Hidx as (Hget & Hnd & Hkeys).
  split; [exact Hget|]. split; [|split; [exact Hnd|]].
  - intros p bs. rewrite Hget.
    destruct (has_path l p) eqn:Hp; [|discriminate].
    intros [= <-]. now apply has_path_at_path.
  - pose proof (grouped_perm (fun _ _ => true) (index_blocks l) l
                  (conj Hget (conj Hnd Hkeys))) as H.
    cbv beta in H.
    rewrite (filter_all (fun _ => true) l) in H by reflexivity.
    etransitivity; [|exact H]. apply Permutation_refl'.
    apply flat_map_ext. intros [p bs]. cbn [fst snd].
    symmetry. now apply filter_all.
Qed.

Lemma perm_nil_eq {A} (l : list A) : Permutation l [] -> l = [].
Proof. intros H. apply Permutation_nil. now symmetry. Qed.

Lemma diff_blocks_self (l : list Block) : diff_blocks l l = no_changes.
Proof.
  assert (Ha : added (diff_blocks l l) = []).
  { apply perm_nil_eq. etransitivity; [apply diff_blocks_added|].
    rewrite filter_none; [constructor|].
    intros b Hb. apply negb_false_iff, has_path_true. now exists b. }
  assert (Hr : removed (diff_blocks l l) = []).
  { apply perm_nil_eq. etransitivity; [apply diff_blocks_removed|].
    rewrite filter_none; [constructor|].
    intros b Hb. apply negb_false_iff, has_path_true. now exists b. }
  assert (Hm : modified (diff_blocks l l) = []).
  { apply perm_nil_eq. etransitivity; [apply diff_blocks_modified|].
    rewrite filter_none; [constructor|].
    intros b Hb. rewrite hash_in_self by assumption. apply andb_false_r. }
  destruct (diff_blocks l l) as [a r m]. cbn in Ha, Hr, Hm. now subst.
Qed.

Lemma slice_to_nil {A} (k : Z) : slice_to k (@nil A) = [].
Proof. unfold slice_to. destruct (0 <=? k); apply firstn_nil. Qed.

(** X9.  A block list diffed against itself gives no change at all,
    and the relevance filter keeps it so, whatever its bound. *)
Theorem diff_blocks_same_is_empty (l : list Block) (keep_max : Z) :
  diff_blocks l l = no_changes /\
  filter_relevant (diff_blocks l l) keep_max = no_changes.
Proof.
  split; [apply diff_blocks_self|]. rewrite diff_blocks_self.
  unfold filter_relevant, no_changes. cbn [added removed modified sorted_desc
                                            fold_right].
  now rewrite slice_to_nil.
Qed.

Lemma filter_partition3 {A} (f g : A -> bool) (l : list A) :
  (forall x, In x l -> f x && g x = false) ->
  Permutation l (filter f l ++ filter g l ++
                 filter (fun x => negb (f x) && negb (g x)) l).
Proof.
  induction l as [|x l IH]; intros H; [constructor|].
  pose proof (H x (or_introl eq_refl)) as Hx.
  specialize (IH (fun y Hy => H y (or_intror Hy))).
  cbn [filter]. destruct (f x) eqn:Hf, (g x) eqn:Hg; cbn [negb andb app];
    try discriminate.
  - now apply perm_skip.
  - etransitivity; [apply perm_skip, IH|]. apply Permutation_middle.
  - etransitivity; [apply perm_skip, IH|].
    rewrite !app_assoc. apply Permutation_middle.
Qed.

(** X10.  [diff_blocks] accounts for every block once.  The current
    blocks are the added ones, the modified ones and those left
    unreported (at a path that the previous list has, with a hash found
    there), each as often as it occurs; and what is added from [a] to
    [b] is what is removed from [b] to [a]. *)
Theorem diff_blocks_accounts (prev curr : list Block) :
  Permutation curr
    (added (diff_blocks prev curr) ++ modified (diff_blocks prev curr) ++
     filter (fun b => has_path prev (b_path b) &&
                      hash_in (b_hash b) (at_path (b_path b) prev)) curr)
  /\
  Permutation (added (diff_blocks prev curr))
              (removed (diff_blocks curr prev)) /\
  (length (added (diff_blocks prev curr)) +
   length (modified (diff_blocks prev curr)) <= length curr)%nat /\
  (length (removed (diff_blocks prev curr)) <= length prev)%nat.
Proof.
  pose proof (diff_blocks_added prev curr) as Ha.
  pose proof (diff_blocks_modified prev curr) as Hm.
  pose proof (diff_blocks_removed prev curr) as Hr.
  assert (Hall : Permutation curr
    (added (diff_blocks prev curr) ++ modified (diff_blocks prev curr) ++
     filter (fun b => has_path prev (b_path b) &&
                      hash_in (b_hash b) (at_path (b_path b) prev)) curr)).
  { etransitivity;
      [apply (filter_partition3
                (fun b => negb (has_path prev (b_path b)))
                (fun b => has_path prev (b_path b) &&
                          negb (hash_in (b_hash b)
                                        (at_path (b_path b) prev))))|].
    - intros b _. destruct (has_path prev (b_path b)); reflexivity.
    - apply Permutation_app; [now symmetry|].
      apply Permutation_app; [now symmetry|].
      apply Permutation_refl'. apply filter_ext. intros b.
      destruct (has_path prev (b_path b)),
        (hash_in (b_hash b) (at_path (b_path b) prev)); reflexivity. }
  split; [exact Hall|]. split; [|split].
  - etransitivity; [exact Ha|]. symmetry. apply diff_blocks_removed.
  - apply Permutation_length in Hall. rewrite !length_app in Hall. lia.
  - apply Permutation_length in Hr. rewrite Hr. apply filter_length_le.
Qed.

End DiffBlocksMore.

Section RankingMore.
Import Extractor.

Lemma insert_desc_top (x : Block) (l : list Block) :
  Forall (fun y => score y <= score x) l -> insert_desc x l = x :: l.
Proof.
  destruct l as [|y l]; [reflexivity|]. intros H.
  inversion H as [|? ? Hy _]; subst. cbn [insert_desc].
  assert (Hlt : (score x <? score y) = false) by (apply Z.ltb_ge; lia).
  now rewrite Hlt.
Qed.

Lemma sorted_desc_fixed (l : list Block) :
  StronglySorted (fun x y => score y <= score x) l -> sorted_desc l = l.
Proof.
  induction 1 as [|x l Hs IH Hall]; [reflexivity|].
  cbn [sorted_desc fold_right]. fold (sorted_desc l). rewrite IH.
  now apply insert_desc_top.
Qed.

Lemma sorted_firstn (n : nat) (l : list Block) :
  StronglySorted (fun x y => score y <= score x) l ->
  StronglySorted (fun x y => score y <= score x) (firstn n l).
Proof.
  intros H. revert n. induction H as [|x l Hs IH Hall]; intros [|n];
    cbn [firstn]; try constructor; [apply IH|].
  apply Forall_forall. intros y Hy.
  apply (proj1 (Forall_forall _ _) Hall).
  rewrite <- (firstn_skipn n l). apply in_or_app. now left.
Qed.

Lemma slice_to_firstn {A} (k : Z) (l : list A) :
  exists n, slice_to k l = firstn n l.
Proof. unfold slice_to. destruct (0 <=? k); eauto. Qed.

(** X11.  In each list [filter_relevant] keeps the best blocks: what it
    keeps and what it drops make up the input, and no dropped block has
    a greater score than a kept one. *)
Theorem filter_relevant_keeps_best (changes : Changes) (keep_max : Z) :
  let out := filter_relevant changes keep_max in
  let best (input kept : list Block) :=
    exists dropped,
      Permutation (kept ++ dropped) input /\
      forall k d, In k kept -> In d dropped -> score d <= score k in
  best (added changes) (added out) /\
  best (removed changes) (removed out) /\
  best (modified changes) (modified out).
Proof.
  assert (H : forall (input : list Block),
             exists dropped,
               Permutation (slice_to keep_max (sorted_desc input) ++ dropped)
                           input /\
               forall k d, In k (slice_to keep_max (sorted_desc input)) ->
                           In d dropped -> score d <= score k).
  { intros input.
    destruct (slice_to_firstn keep_max (sorted_desc input)) as [n ->].
    exists (skipn n (sorted_desc input)). split.
    - rewrite firstn_skipn. apply sorted_desc_perm.
    - pose proof (sorted_desc_sorted input) as Hs.
      rewrite <- (firstn_skipn n (sorted_desc input)) in Hs.
      revert Hs. generalize (firstn n (sorted_desc input)) as pre.
      generalize (skipn n (sorted_desc input)) as post.
      intros post pre. induction pre as [|x pre IH]; intros Hs k d Hk Hd;
        [destruct Hk|].
      cbn [app] in Hs. inversion Hs as [|? ? Hs' Hall]; subst.
      destruct Hk as [<-|Hk]; [|now apply (IH Hs')].
      apply (proj1 (Forall_forall _ _) Hall). apply in_or_app. now right. }
  intros out best. subst out best. cbv beta.
  unfold filter_relevant. cbn [added removed modified].
  repeat split; apply H.
Qed.

(** X12.  For a bound that is not negative, filtering twice is filtering
    once. *)
Theorem filter_relevant_idempotent (changes : Changes) (keep_max : Z) :
  0 <= keep_max ->
  filter_relevant (filter_relevant changes keep_max) keep_max
  = filter_relevant changes keep_max.
Proof.
  intros Hk.
  assert (H : forall l : list Block,
             slice_to keep_max
               (sorted_desc (slice_to keep_max (sorted_desc l)))
             = slice_to keep_max (sorted_desc l)).
  { intros l. unfold slice_to.
    assert (Hle : (0 <=? keep_max) = true) by now apply Z.leb_le.
    rewrite Hle. rewrite sorted_desc_fixed
      by apply sorted_firstn, sorted_desc_sorted.
    rewrite firstn_firstn. now rewrite Nat.min_id. }
  unfold filter_relevant. cbn [added removed modified].
  now rewrite !H.
Qed.

Lemma filter_relevant_idempotent_witness :
  let b := {| b_type := lit "price"; b_text := lit "$10";
              b_path := lit "text-scan"; b_weight := 9;
              b_hash := lit "a" |} in
  let c := {| added := [b; b]; removed := [b]; modified := [] |} in
  filter_relevant (filter_relevant c 1) 1 = filter_relevant c 1.
Proof.
  intros b c. apply filter_relevant_idempotent. lia.
Defined.

End RankingMore.

(** ** Outcomes of one check (main.py) *)

Section Outcomes.
Import Db Main Outcome.
Variable env : Env.

(** All the ways in which [run_check] ends. *)
Lemma run_check_outcome (st : Store) (mid : Z) :
  run_check env st mid =
  match Db.get st mid with
  | None => (st, [])
  | Some mon =>
      if negb (is_active mon) then (st, [])
      else if gate_closed env mon then (with_row st (blocked_row env mon), [])
      else
        match observe env mon (opened st) with
        | (Raise e, s1) => (with_row st (error_row env mon e), trace s1)
        | (Ok o, s1) =>
            match notify env (rebased env mon o) o
                         {| store := committed env st mon o; pending := [];
                            dirty := None; trace := trace s1 |} with
            | (Ok _, s2) => (committed env st mon o, trace s2)
            | (Raise e, s2) =>
                (with_row (committed env st mon o) (error_row env mon e),
                 trace s2)
            end
        end
  end.
Proof.
  unfold run_check, run_check_session. cbn [store].
  destruct st as [mons rows].
  destruct (Db.get _ mid) as [mon|]; [|reflexivity].
  destruct (negb (is_active mon)); [reflexivity|].
  fold (gate_closed env mon). destruct (gate_closed env mon); [reflexivity|].
  unfold try_except, check. unfold bindM at 1.
  pose proof (quiet_observe env mon
                {| store := {| monitors := mons; results := rows |};
                   pending := []; dirty := None; trace := [] |}) as Hq.
  unfold opened.
  destruct (observe env mon _) as [[o|e] [st1 pend1 dirty1 tr1]];
    destruct Hq as (Hst & Hpend & Hdirty); cbn in Hst, Hpend, Hdirty;
    subst st1 pend1 dirty1; [|reflexivity].
  unfold bindM at 1. rewrite persist_commits.
  cbn [store pending dirty trace monitors results app]. unfold committed.
  cbn [monitors results].
  match goal with
  | |- context [notify env ?m ?o ?s] =>
      pose proof (quiet_notify env m o s) as Hn;
      destruct (notify env m o s) as [[[]|e] [st2 pend2 dirty2 tr2]]
  end; destruct Hn as (Hst & Hpend & Hdirty); cbn in Hst, Hpend, Hdirty;
    subst st2 pend2 dirty2; reflexivity.
Qed.

End Outcomes.

Section StoreLemmas.
Import Db.

Lemma get_id (st : Store) (mid : Z) (mon : Monitor) :
  Db.get st mid = Some mon -> id mon = mid.
Proof.
  unfold Db.get. intros H. apply find_some in H as [_ H].
  now apply Z.eqb_eq.
Qed.

Lemma find_update_same (m' : Monitor) (l : list Monitor) (mon : Monitor) :
  find (fun m => id m =? id m') l = Some mon ->
  find (fun m => id m =? id m') (update m' l) = Some m'.
Proof.
  unfold update. induction l as [|x l IH]; cbn [find map]; [discriminate|].
  destruct (id x =? id m') eqn:Hx.
  - intros _. cbn [find]. now rewrite Z.eqb_refl.
  - intros H. cbn [find]. rewrite Hx. now apply IH.
Qed.

Lemma find_update_other (m' : Monitor) (l : list Monitor) (other : Z) :
  other <> id m' ->
  find (fun m => id m =? other) (update m' l) =
  find (fun m => id m =? other) l.
Proof.
  intros Hne. unfold update. induction l as [|x l IH]; [reflexivity|].
  cbn [find map]. destruct (id x =? id m') eqn:Hx.
  - apply Z.eqb_eq in Hx.
    assert (H1 : (id m' =? other) = false) by (apply Z.eqb_neq; congruence).
    assert (H2 : (id x =? other) = false) by (apply Z.eqb_neq; congruence).
    now rewrite H1, H2.
  - destruct (id x =? other); [reflexivity | exact IH].
Qed.

Lemma map_id_update (m' : Monitor) (l : list Monitor) :
  map id (update m' l) = map id l.
Proof.
  unfold update. induction l as [|x l IH]; [reflexivity|].
  cbn [map]. rewrite IH. destruct (id x =? id m') eqn:Hx; [|reflexivity].
  apply Z.eqb_eq in Hx. now rewrite Hx.
Qed.

End StoreLemmas.

Section Skips.
Import Db Main Outcome.
Variable env : Env.

(** X13.  A check of a monitor that does not exist, or that is not
    active, does nothing: the store is as it was and no collaborator is
    called. *)
Theorem run_check_skips (st : Store) (mid : Z) :
  Db.get st mid = None \/
  (exists mon, Db.get st mid = Some mon /\ is_active mon = false) ->
  run_check env st mid = (st, []).
Proof.
  intros H. rewrite run_check_outcome.
  destruct H as [-> | (mon & -> & ->)]; reflexivity.
Qed.

(** X14.  When the fetch raises, the check records one row, "Error: "
    followed by the message, and that is all: the monitors keep their
    baseline, and nothing but the fetch was attempted. *)
Theorem fetch_failure_recorded (st : Store) (mid : Z) (mon : Monitor)
        (e : str) :
  Db.get st mid = Some mon ->
  is_active mon = true ->
  gate_closed env mon = false ->
  fetch_html_and_screenshot env (url mon) (render_js mon) (selector mon)
  = Raise e ->
  run_check env st mid =
  ({| monitors := monitors st;
      results := results st ++
                 [CheckResult_note mid (now env) (lit "Error: " ++ e)] |},
   [EvFetch (url mon)]).
Proof.
  intros Hget Hact Hgate Hfetch. rewrite run_check_outcome.
  rewrite Hget, Hact, Hgate. cbn [negb].
  unfold observe, bindM, emit, lift, opened.
  cbn [store pending dirty trace]. rewrite Hfetch.
  unfold with_row, error_row. cbn [trace app].
  now rewrite (get_id _ _ _ Hget).
Qed.

(** X15.  What a check leaves alone, whatever happens in it: the rows
    already there stay, in place, and at most two rows are added, all of
    them for the monitor checked; no monitor is added or removed, every
    other monitor is as it was, and the monitor checked keeps its
    settings; and its baseline is touched only in a check that has added
    its normal row (status 200, empty note). *)
Theorem run_check_frame (st : Store) (mid : Z) :
  let '(st', _) := run_check env st mid in
  (exists rows, results st' = results st ++ rows /\
                (length rows <= 2)%nat /\
                forall r, In r rows -> monitor_id r = mid) /\
  map id (monitors st') = map id (monitors st) /\
  (forall other, other <> mid -> Db.get st' other = Db.get st other) /\
  (forall mon, Db.get st mid = Some mon ->
               exists mon', Db.get st' mid = Some mon' /\
                            same_settings mon mon') /\
  (monitors st' = monitors st \/
   exists row rest, results st' = results st ++ row :: rest /\
                    status_code row = 200 /\ note row = []).
Proof.
  rewrite run_check_outcome.
  assert (Hsame : forall mon, Db.get st mid = Some mon ->
                              exists mon', Db.get st mid = Some mon' /\
                                           same_settings mon mon').
  { intros mon H. exists mon. split; [exact H|]. repeat split. }
  assert (Hnil : exists rows, results st = results st ++ rows /\
                   (length rows <= 2)%nat /\
                   forall r, In r rows -> monitor_id r = mid).
  { exists []. rewrite app_nil_r. split; [reflexivity|].
    split; [cbn; lia | intros r []]. }
  destruct (Db.get st mid) as [mon|] eqn:Hget;
    [|split; [exact Hnil|]; repeat split; auto; discriminate].
  pose proof (get_id _ _ _ Hget) as Hid.
  assert (Hone : forall r, monitor_id r = mid ->
            (exists rows, results (with_row st r) = results st ++ rows /\
                          (length rows <= 2)%nat /\
                          forall r', In r' rows -> monitor_id r' = mid) /\
            map id (monitors (with_row st r)) = map id (monitors st) /\
            (forall other, other <> mid ->
                           Db.get (with_row st r) other = Db.get st other) /\
            (forall mon0, Some mon = Some mon0 ->
                          exists mon', Db.get (with_row st r) mid = Some mon'
                                       /\ same_settings mon0 mon') /\
            (monitors (with_row st r) = monitors st \/
             exists row rest,
               results (with_row st r) = results st ++ row :: rest /\
               status_code row = 200 /\ note row = [])).
  { intros r Hr. split; [|split; [reflexivity|split; [reflexivity|split]]].
    - exists [r]. split; [reflexivity|]. split; [cbn; lia|].
      intros r' [<-|[]]. exact Hr.
    - intros mon0 [= <-]. exists mon. split; [exact Hget|]. repeat split.
    - now left. }
  destruct (negb (is_active mon)).
  { split; [exact Hnil|]. split; [reflexivity|]. split; [reflexivity|].
    split; [|now left].
    intros mon0 [= <-]. exists mon. split; [exact Hget|]. repeat split. }
  destruct (gate_closed env mon); [now apply Hone|].
  destruct (observe env mon (opened st)) as [[o|e] s1]; [|now apply Hone].
  assert (Hcommitted :
            map id (monitors (committed env st mon o)) = map id (monitors st)
            /\ (forall other, other <> mid ->
                  Db.get (committed env st mon o) other = Db.get st other)
            /\ (forall mon0, Some mon = Some mon0 ->
                  exists mon', Db.get (committed env st mon o) mid = Some mon'
                               /\ same_settings mon0 mon')).
  { unfold committed, Db.get. cbn [monitors]. split; [apply map_id_update|].
    split.
    - intros other Hne. apply find_update_other. cbn [id rebased]. congruence.
    - intros mon0 [= <-]. exists (rebased env mon o). split.
      + rewrite <- Hid. change (id mon) with (id (rebased env mon o)).
        apply find_update_same with (mon := mon).
        cbn [id rebased]. now rewrite Hid.
      + repeat split. }
  destruct Hcommitted as (Hids & Hother & Hmon).
  destruct (notify env _ o _) as [[[]|e] s2].
  - split; [|split; [exact Hids|split; [exact Hother|split; [exact Hmon|]]]].
    + exists [check_row env mon o]. split; [reflexivity|].
      split; [cbn; lia|]. intros r [<-|[]]. exact Hid.
    + right. exists (check_row env mon o), []. repeat split.
  - split; [|split; [exact Hids|split; [exact Hother|split; [exact Hmon|]]]].
    + exists [check_row env mon o; error_row env mon e]. split.
      * cbn. now rewrite <- app_assoc.
      * split; [cbn; lia|]. intros r [<-|[<-|[]]]; exact Hid.
    + right. exists (check_row env mon o), [error_row env mon e].
      split; [cbn; now rewrite <- app_assoc|]. split; reflexivity.
Qed.

End Skips.

Section OutcomeWitnesses.
Import Db Main Outcome.

Lemma run_check_skips_witness :
  run_check Cases.shop Scenario.fresh 2 = (Scenario.fresh, []).
Proof.
  apply run_check_skips. left. reflexivity.
Defined.

Lemma fetch_failure_recorded_witness :
  snd (run_check Cases.offline Scenario.fresh 1)
  = [EvFetch (lit "https://example.com/item")] /\
  monitors (fst (run_check Cases.offline Scenario.fresh 1))
  = monitors Scenario.fresh.
Proof.
  rewrite (fetch_failure_recorded Cases.offline Scenario.fresh 1 Cases.item
             (lit "timed out") eq_refl eq_refl eq_refl eq_refl).
  split; reflexivity.
Defined.

Lemma run_check_frame_witness :
  Db.get (fst (run_check Cases.shop Scenario.fresh 1)) 2
  = Db.get Scenario.fresh 2.
Proof.
  pose proof (run_check_frame Cases.shop Scenario.fresh 1) as H.
  destruct (run_check Cases.shop Scenario.fresh 1) as [st' ev].
  destruct H as (_ & _ & Hother & _). apply Hother. discriminate.
Defined.

Lemma run_check_rows_witness :
  let st' := fst (run_check Cases.shop Scenario.fresh 1) in
  (exists row, results st' = [row]) \/
  (exists row err, results st' = [row; err]).
Proof.
  pose proof (run_check_rows Cases.shop Scenario.fresh 1 Cases.item
                eq_refl eq_refl) as H.
  destruct (run_check Cases.shop Scenario.fresh 1) as [st' ev].
  cbn [fst]. destruct H as [[row H] | (row & e & H & _)].
  - left. exists row. exact H.
  - right. eexists. eexists. exact H.
Defined.

End OutcomeWitnesses.

Section Verdicts.
Import Db Main Extractor.
Variable env : Env.



End Verdicts.

Section VerdictWitness.
Import Db Main Extractor.


End VerdictWitness.

(** ** Checks that succeed (main.py) *)

Section Success.
Import Db Main Extractor Outcome Page.
Variable env : Env.

(** What the first part of a check computes from a page that is served. *)
Lemma observe_served (mon : Monitor) (p : Served) (s : Session) :
  serves env mon p ->
  returns (observe env mon) s
    (fun o s' =>
       same_data s s' /\
       text_for_diff o = Diffing.normalize_text_block (text p) /\
       new_text_hash o = digest p /\
       new_img_hash o = shot_digest p /\
       new_blocks o = blocks p /\
       text_changed o =
         match last_content_hash mon with
         | Some h => negb (str_eqb (digest p) h)
         | None => false
         end /\
       visual_changed o =
         match shot_digest p, last_image_hash mon with
         | Some d, Some h => negb (str_eqb d h)
         | _, _ => false
         end /\
       filtered o =
         (if truthy (blocks p)
          then filter_relevant
                 (diff_blocks (match last_blocks_json mon with
                               | Some bs => bs
                               | None => []
                               end) (blocks p)) DEFAULT_KEEP_MAX
          else filter_relevant no_changes DEFAULT_KEEP_MAX) /\
       change_ratio o =
         (if text_changed o
          then Difflib.ratio (or_str (last_text mon) []) (text_for_diff o)
          else 0%Q) /\
       o_diff_preview o =
         (if text_changed o
          then make_diff_preview env (or_str (last_text mon) [])
                                 (text_for_diff o)
          else []) /\
       likely_changed o =
         (text_changed o || visual_changed o ||
          (truthy (added (filtered o)) || truthy (removed (filtered o)) ||
           truthy (modified (filtered o)))) /\
       (likely_changed o = false ->
        o_material_change o = false /\ o_severity o = lit "none" /\
        summary_short o = [] /\ llm_json_str o = [] /\
        trace s' = trace s ++ [EvFetch (url mon)])).
Proof.
  intros (Hfetch & Hhash & Hshot & Hblocks). unfold observe.
  set (Q0 := fun s' : Session =>
               same_data s s' /\ trace s' = trace s ++ [EvFetch (url mon)]).
  eapply returns_bind with (Q := fun _ s' => Q0 s').
  { repeat split. }
  intros _ s1 H1.
  eapply returns_bind
    with (Q := fun a s' => a = (text p, shot p, html p) /\ Q0 s').
  { eapply returns_lift; [exact Hfetch | now split]. }
  intros ? s2 [-> H2]. cbv iota beta.
  eapply returns_bind with (Q := fun a s' => a = digest p /\ Q0 s').
  { eapply returns_lift; [exact Hhash | now split]. }
  intros ? s3 [-> H3].
  eapply returns_bind
    with (Q := fun a s' =>
                 a = (match shot_digest p, last_image_hash mon with
                      | Some d, Some h => negb (str_eqb d h)
                      | _, _ => false
                      end, shot_digest p) /\ Q0 s').
  { unfold shot_digest. destruct (shot p) as [[|c l]|];
      try (split; [reflexivity | exact H3]).
    unfold Diffing.image_hash. rewrite Hshot.
    unfold returns, bindM, lift, ret, bind. split; [|exact H3].
    destruct (last_image_hash mon); reflexivity. }
  intros ? s4 [-> H4].
  eapply returns_bind with (Q := fun a s' => a = blocks p /\ Q0 s').
  { destruct (truthy (html p)).
    - eapply returns_lift; [exact Hblocks | now split].
    - apply returns_ret. now split. }
  intros ? s5 [-> [H5 Ht5]].
  match goal with
  | |- returns (bindM (if ?c then _ else _) _) _ _ => destruct c eqn:Hlikely
  end.
  - eapply returns_bind with (Q := fun _ s' => same_data s s').
    { eapply returns_bind with (Q := fun _ s' => same_data s s').
      - pose proof (quiet_llm env (url mon)
                      (if truthy (blocks p)
                       then filter_relevant
                              (diff_blocks match last_blocks_json mon with
                                           | Some bs => bs
                                           | None => []
                                           end (blocks p)) DEFAULT_KEEP_MAX
                       else filter_relevant no_changes DEFAULT_KEEP_MAX)
                      s5) as Hq.
        unfold returns.
        destruct (llm_decide_from_blocks env _ _ s5) as [[v|e] s6] eqn:Hl.
        + cbn [snd] in Hq. eapply same_data_trans; eassumption.
        + exfalso. revert Hl. unfold llm_decide_from_blocks, bindM, emit, ret.
          destruct (negb (LLM_ENABLED env)); [discriminate|].
          destruct (chain_invoke env _); discriminate.
      - intros v s6 H6. apply returns_ret. exact H6. }
    intros [[[m sv] sm] js] s6 H6. apply returns_ret.
    cbn [text_for_diff new_text_hash new_img_hash new_blocks text_changed
         visual_changed filtered change_ratio o_diff_preview likely_changed
         o_material_change o_severity summary_short llm_json_str].
    repeat (split; [first [exact H6 | reflexivity]|]).
    split; [symmetry; exact Hlikely|].
    discriminate.
  - eapply returns_bind with (Q := fun a s' => a = (false, lit "none", [], [])
                                               /\ Q0 s').
    { apply returns_ret. split; [reflexivity | now split]. }
    intros ? s6 [-> [H6 Ht6]]. apply returns_ret.
    cbn [text_for_diff new_text_hash new_img_hash new_blocks text_changed
         visual_changed filtered change_ratio o_diff_preview likely_changed
         o_material_change o_severity summary_short llm_json_str].
    repeat (split; [first [exact H6 | reflexivity]|]).
    split; [symmetry; exact Hlikely|].
    intros _. repeat split. exact Ht6.
Qed.

Lemma update_update (m : Monitor) (l : list Monitor) :
  update m (update m l) = update m l.
Proof.
  unfold update. rewrite map_map. apply map_ext. intros x.
  destruct (id x =? id m) eqn:Hx; [|now rewrite Hx].
  now rewrite Z.eqb_refl.
Qed.

Lemma rebased_served (mon : Monitor) (p : Served) (o : Observation) :
  text_for_diff o = Diffing.normalize_text_block (text p) ->
  new_text_hash o = digest p ->
  new_img_hash o = shot_digest p ->
  new_blocks o = blocks p ->
  rebased env mon o = baseline_of env mon p.
Proof.
  intros H1 H2 H3 H4. unfold rebased, baseline_of.
  now rewrite H1, H2, H3, H4.
Qed.

(** A check of a page that is served commits its row and the baseline of
    the page; then it notifies or not. *)
Lemma served_outcome (st : Store) (mid : Z) (mon : Monitor) (p : Served) :
  Db.get st mid = Some mon ->
  is_active mon = true ->
  gate_closed env mon = false ->
  serves env mon p ->
  exists o s1,
    observe env mon (opened st) = (Ok o, s1) /\
    rebased env mon o = baseline_of env mon p /\
    monitors (fst (run_check env st mid))
    = update (baseline_of env mon p) (monitors st) /\
    Db.get (fst (run_check env st mid)) mid = Some (baseline_of env mon p) /\
    exists rest,
      results (fst (run_check env st mid))
      = results st ++ check_row env mon o :: rest.
Proof.
  intros Hget Hact Hgate Hserved.
  pose proof (observe_served mon p (opened st) Hserved) as Hobs.
  unfold returns in Hobs. rewrite run_check_outcome, Hget, Hact, Hgate.
  cbn [negb].
  destruct (observe env mon (opened st)) as [[o|e] s1]; [|destruct Hobs].
  destruct Hobs as (_ & H1 & H2 & H3 & H4 & _).
  pose proof (rebased_served mon p o H1 H2 H3 H4) as Hreb.
  exists o, s1. split; [reflexivity|]. split; [exact Hreb|].
  assert (Hfind : Db.get (committed env st mon o) mid
                  = Some (baseline_of env mon p)).
  { unfold committed, Db.get. cbn [monitors]. rewrite Hreb.
    pose proof (get_id _ _ _ Hget) as Hid.
    replace mid with (id (baseline_of env mon p))
      by (cbn [id baseline_of]; exact Hid).
    apply find_update_same with (mon := mon).
    cbn [id baseline_of]. rewrite Hid. exact Hget. }
  destruct (notify env _ o _) as [[[]|e] s2]; cbn [fst].
  - split; [unfold committed; cbn [monitors]; now rewrite Hreb|].
    split; [exact Hfind|]. exists []. reflexivity.
  - split; [unfold with_row, committed; cbn [monitors]; now rewrite Hreb|].
    split; [exact Hfind|]. exists [error_row env mon e].
    unfold with_row, committed. cbn [results]. now rewrite <- app_assoc.
Qed.

(** X17.  A check that gets past the robots gate and in which fetching,
    hashing, decoding and extraction succeed leaves in the monitor the
    baseline of the page fetched: the normalized text, its digest, the
    digest of the screenshot if there is one (the old one otherwise), the
    blocks extracted and the time of the check; and this whether the
    notification that follows succeeds or raises. *)
Theorem check_stores_baseline (st : Store) (mid : Z) (mon : Monitor)
        (p : Served) :
  Db.get st mid = Some mon ->
  is_active mon = true ->
  gate_closed env mon = false ->
  serves env mon p ->
  let '(st', _) := run_check env st mid in
  Db.get st' mid = Some (baseline_of env mon p) /\
  monitors st' = update (baseline_of env mon p) (monitors st) /\
  exists row rest,
    results st' = results st ++ row :: rest /\
    status_code row = 200 /\ note row = [] /\
    raw_text_len row
    = Z.of_nat (length (Diffing.normalize_text_block (text p))).
Proof.
  intros Hget Hact Hgate Hserved.
  destruct (served_outcome st mid mon p Hget Hact Hgate Hserved)
    as (o & s1 & Hobs & _ & Hmons & Hnew & rest & Hrows).
  pose proof (observe_served mon p (opened st) Hserved) as Hret.
  unfold returns in Hret. rewrite Hobs in Hret.
  destruct Hret as (_ & Htext & _).
  destruct (run_check env st mid) as [st' ev]. cbn [fst] in *.
  split; [exact Hnew|]. split; [exact Hmons|].
  exists (check_row env mon o), rest. split; [exact Hrows|].
  split; [reflexivity|]. split; [reflexivity|].
  cbn [raw_text_len check_row]. now rewrite Htext.
Qed.

Lemma filter_relevant_nothing :
  filter_relevant no_changes DEFAULT_KEEP_MAX = no_changes.
Proof. reflexivity. Qed.

(** A page that the monitor already has for its baseline: the check is
    silent. *)
Lemma up_to_date_outcome (st : Store) (mid : Z) (mon : Monitor)
      (p : Served) :
  Db.get st mid = Some mon ->
  is_active mon = true ->
  gate_closed env mon = false ->
  serves env mon p ->
  up_to_date mon p ->
  exists row,
    silent_row row /\
    run_check env st mid =
    ({| monitors := update (baseline_of env mon p) (monitors st);
        results := results st ++ [row] |},
     [EvFetch (url mon)]).
Proof.
  intros Hget Hact Hgate Hserved (Hhash & Himg & Hblocks).
  pose proof (observe_served mon p (opened st) Hserved) as Hobs.
  unfold returns in Hobs. rewrite run_check_outcome, Hget, Hact, Hgate.
  cbn [negb].
  destruct (observe env mon (opened st)) as [[o|e] s1]; [|destruct Hobs].
  destruct Hobs as (_ & H1 & H2 & H3 & H4 & Htc & Hvc & Hfil & Hratio &
                    Hprev & Hlikely & Hquiet).
  pose proof (rebased_served mon p o H1 H2 H3 H4) as Hreb.
  rewrite Hhash, str_eqb_refl in Htc. cbn [negb] in Htc.
  assert (Hvc' : visual_changed o = false).
  { rewrite Hvc. destruct Himg as [-> | ->]; [reflexivity|].
    destruct (shot_digest p); [|reflexivity].
    now rewrite str_eqb_refl. }
  assert (Hfil' : filtered o = no_changes).
  { rewrite Hfil, Hblocks.
    destruct (truthy (blocks p)); [|reflexivity].
    rewrite diff_blocks_self. reflexivity. }
  rewrite Htc, Hvc', Hfil' in Hlikely. cbn in Hlikely.
  destruct (Hquiet Hlikely) as (Hm & Hsev & Hsum & Hjson & Htrace).
  rewrite Htc in Hratio, Hprev.
  exists (check_row env mon o). split.
  { unfold silent_row. cbn [check_row changed_text changed_visual
      text_change_ratio diff_preview material_change severity changes_json
      status_code note].
    rewrite Htc, Hvc', Hratio, Hprev, Hsum, Hm, Hsev, Hfil'.
    repeat split. }
  unfold notify.
  assert (Hnot : should_notify o = false).
  { unfold should_notify. rewrite Hm, Hsev, Htc, Hvc'. reflexivity. }
  rewrite Hnot. unfold ret. cbn [trace].
  unfold committed. rewrite Hreb, Htrace. reflexivity.
Qed.

(** X18.  When the monitor already has the page for its baseline (the
    stored digests and blocks are those of the page now served), the
    check reports no change: one row with both flags false, ratio 0, no
    preview, verdict (false, "none") and an empty change list; nothing
    is classified and nobody is notified, the fetch being the only call
    made. *)
Theorem unchanged_page_is_silent (st : Store) (mid : Z) (mon : Monitor)
        (p : Served) :
  Db.get st mid = Some mon ->
  is_active mon = true ->
  gate_closed env mon = false ->
  serves env mon p ->
  up_to_date mon p ->
  let '(st', events) := run_check env st mid in
  events = [EvFetch (url mon)] /\
  exists row, results st' = results st ++ [row] /\ silent_row row.
Proof.
  intros Hget Hact Hgate Hserved Hup.
  destruct (up_to_date_outcome st mid mon p Hget Hact Hgate Hserved Hup)
    as (row & Hsilent & ->).
  split; [reflexivity|]. exists row. now split.
Qed.

End Success.

Section Recheck.
Import Db Main Extractor Outcome Page.

(** X19.  Checking the same page twice.  When a check succeeds and a
    later check is served the same page (the clock may have moved on),
    the later check is silent: no change reported, nothing classified,
    nobody notified; and it leaves the text, digests and blocks of the
    baseline as the first check stored them. *)
Theorem recheck_is_silent (env env' : Env) (st : Store) (mid : Z)
        (mon : Monitor) (p : Served) :
  Db.get st mid = Some mon ->
  is_active mon = true ->
  gate_closed env mon = false -> serves env mon p ->
  gate_closed env' mon = false -> serves env' mon p ->
  let '(st1, _) := run_check env st mid in
  let '(st2, events) := run_check env' st1 mid in
  events = [EvFetch (url mon)] /\
  (exists row, results st2 = results st1 ++ [row] /\ silent_row row) /\
  exists mon1 mon2,
    Db.get st1 mid = Some mon1 /\ Db.get st2 mid = Some mon2 /\
    last_text mon2 = last_text mon1 /\
    last_content_hash mon2 = last_content_hash mon1 /\
    last_image_hash mon2 = last_image_hash mon1 /\
    last_blocks_json mon2 = last_blocks_json mon1 /\
    last_checked_at mon2 = Some (now env').
Proof.
  intros Hget Hact Hgate Hserved Hgate' Hserved'.
  destruct (served_outcome env st mid mon p Hget Hact Hgate Hserved)
    as (o & s1 & _ & _ & Hmons & Hnew & _).
  destruct (run_check env st mid) as [st1 ev1]. cbn [fst] in *.
  set (mon1 := baseline_of env mon p) in *.
  assert (Hserved1 : serves env' mon1 p) by exact Hserved'.
  assert (Himg : last_image_hash (baseline_of env' mon1 p)
                 = last_image_hash mon1).
  { unfold mon1, baseline_of. cbn [last_image_hash].
    destruct (shot_digest p) as [[|c h]|]; reflexivity. }
  assert (Hup : up_to_date mon1 p).
  { split; [reflexivity|]. split; [|reflexivity].
    unfold mon1, baseline_of. cbn [last_image_hash].
    unfold shot_digest. destruct (shot p) as [[|c l]|]; try now left.
    right. pose proof (hexdigest_length (buffer p)) as Hlen.
    destruct (Sha256.hexdigest (buffer p)); [discriminate | reflexivity]. }
  destruct (up_to_date_outcome env' st1 mid mon1 p Hnew Hact Hgate' Hserved1
              Hup) as (row & Hsilent & Hrun).
  pose proof (served_outcome env' st1 mid mon1 p Hnew Hact Hgate' Hserved1)
    as (_ & _ & _ & _ & _ & Hnew2 & _).
  rewrite Hrun in *. cbn [fst] in Hnew2.
  split; [reflexivity|]. split; [exists row; now split|].
  exists mon1, (baseline_of env' mon1 p).
  split; [exact Hnew|]. split; [exact Hnew2|].
  split; [reflexivity|]. split; [reflexivity|].
  split; [exact Himg|]. split; reflexivity.
Qed.

(** The page of [Cases.shop], in full. *)
Lemma shop_serves :
  serves Cases.shop Cases.item
         {| text := Some (lit "Autumn sale"); shot := None;
            html := lit "<html></html>";
            digest := Sha256.hexdigest (lit "Autumn sale");
            buffer := []; blocks := [Cases.headline] |}.
Proof. repeat split. Defined.

Lemma check_stores_baseline_witness :
  exists mon', Db.get (fst (run_check Cases.shop Scenario.fresh 1)) 1
               = Some mon' /\
               last_text mon' = Some (lit "Autumn sale") /\
               last_blocks_json mon' = Some [Cases.headline].
Proof.
  pose proof (check_stores_baseline Cases.shop Scenario.fresh 1 Cases.item _
                eq_refl eq_refl eq_refl shop_serves) as H.
  destruct (run_check Cases.shop Scenario.fresh 1) as [st' ev].
  destruct H as (Hget & _). eexists. split; [exact Hget|].
  split; reflexivity.
Defined.

Lemma unchanged_page_is_silent_witness :
  let mon := baseline_of Cases.shop Cases.item
               {| text := Some (lit "Autumn sale"); shot := None;
                  html := lit "<html></html>";
                  digest := Sha256.hexdigest (lit "Autumn sale");
                  buffer := []; blocks := [Cases.headline] |} in
  snd (run_check Cases.shop {| monitors := [mon]; results := [] |} 1)
  = [EvFetch (lit "https://example.com/item")].
Proof.
  intros mon.
  pose proof (unchanged_page_is_silent Cases.shop
                {| monitors := [mon]; results := [] |} 1 mon _
                eq_refl eq_refl eq_refl shop_serves
                (conj eq_refl (conj (or_introl eq_refl) eq_refl))) as H.
  destruct (run_check Cases.shop _ 1) as [st' ev].
  destruct H as [Hev _]. exact Hev.
Defined.

Lemma recheck_is_silent_witness :
  snd (run_check Cases.shop (fst (run_check Cases.shop Scenario.fresh 1)) 1)
  = [EvFetch (lit "https://example.com/item")].
Proof.
  pose proof (recheck_is_silent Cases.shop Cases.shop Scenario.fresh 1
                Cases.item _ eq_refl eq_refl eq_refl shop_serves
                eq_refl shop_serves) as H.
  destruct (run_check Cases.shop Scenario.fresh 1) as [st1 ev1].
  cbn [fst]. destruct (run_check Cases.shop st1 1) as [st2 ev2].
  destruct H as [Hev _]. exact Hev.
Defined.

End Recheck.

(** ** The job store (scheduler.py) *)

Section Jobs.
Import Db Scheduler.

Lemma lit_inj (a b : string) : lit a = lit b -> a = b.
Proof.
  unfold lit. intros H.
  rewrite <- (string_of_list_ascii_of_string a).
  rewrite <- (string_of_list_ascii_of_string b). f_equal.
  revert H. generalize (list_ascii_of_string a) (list_ascii_of_string b).
  intros l. induction l as [|x l IH]; intros [|y l']; cbn [map];
    try discriminate; [reflexivity|].
  intros [= Hxy Hl]. f_equal; [|now apply IH].
  apply N2Z.inj in Hxy.
  rewrite <- (ascii_N_embedding x), <- (ascii_N_embedding y).
  now rewrite Hxy.
Qed.

Lemma str_of_int_inj (a b : Z) : str_of_int a = str_of_int b -> a = b.
Proof.
  unfold str_of_int. intros H. apply lit_inj in H.
  assert (Hnn : forall z, Z.to_int z <> Decimal.Pos Decimal.Nil /\
                          Z.to_int z <> Decimal.Neg Decimal.Nil).
  { intros [|p|p]; cbn; split; try discriminate;
      intros [= Hp]; now apply (DecimalPos.Unsigned.to_uint_nonnil p). }
  assert (Hint : Some (Z.to_int a) = Some (Z.to_int b)).
  { rewrite <- (NilZero.isi (Z.to_int a)) by apply Hnn.
    rewrite <- (NilZero.isi (Z.to_int b)) by apply Hnn.
    now rewrite H. }
  injection Hint as Hint.
  rewrite <- (DecimalZ.of_to a), <- (DecimalZ.of_to b). now rewrite Hint.
Qed.

Lemma job_name_inj (a b : Z) : job_name a = job_name b -> a = b.
Proof.
  unfold job_name. intros H. apply app_inv_head in H.
  now apply str_of_int_inj.
Qed.

Lemma lookup_add_job_same (j : Job) (jobs : list Job) :
  lookup (job_id j) (add_job j jobs) = Some j.
Proof.
  unfold lookup. induction jobs as [|x rest IH]; cbn [add_job find].
  - now rewrite str_eqb_refl.
  - destruct (str_eqb (job_id x) (job_id j)) eqn:Hx; cbn [find].
    + now rewrite str_eqb_refl.
    + now rewrite Hx.
Qed.

Lemma lookup_add_job_other (j : Job) (jobs : list Job) (name : str) :
  name <> job_id j ->
  lookup name (add_job j jobs) = lookup name jobs.
Proof.
  intros Hne. apply not_eq_sym in Hne. apply str_eqb_neq in Hne.
  unfold lookup. induction jobs as [|x rest IH]; cbn [add_job find].
  - now rewrite Hne.
  - destruct (str_eqb (job_id x) (job_id j)) eqn:Hx; cbn [find].
    + apply str_eqb_eq in Hx. rewrite Hx, Hne. reflexivity.
    + destruct (str_eqb (job_id x) name); [reflexivity | exact IH].
Qed.

Lemma ids_add_job (j : Job) (jobs : list Job) :
  map job_id (add_job j jobs) =
  if existsb (fun x => str_eqb (job_id x) (job_id j)) jobs
  then map job_id jobs else map job_id jobs ++ [job_id j].
Proof.
  induction jobs as [|x rest IH]; cbn [add_job existsb map app];
    [reflexivity|].
  destruct (str_eqb (job_id x) (job_id j)) eqn:Hx; cbn [map orb].
  - apply str_eqb_eq in Hx. now rewrite Hx.
  - rewrite IH. destruct (existsb _ rest); reflexivity.
Qed.

Lemma add_job_nodup (j : Job) (jobs : list Job) :
  NoDup (map job_id jobs) -> NoDup (map job_id (add_job j jobs)).
Proof.
  intros Hnd. rewrite ids_add_job.
  destruct (existsb _ jobs) eqn:Hex; [assumption|].
  apply NoDup_app; [assumption | repeat constructor; intros [] |].
  intros name Hin [<-|[]].
  apply in_map_iff in Hin as (x & Hx & Hin).
  assert (existsb (fun x => str_eqb (job_id x) (job_id j)) jobs = true).
  { apply existsb_exists. exists x. split; [assumption|].
    now apply str_eqb_eq. }
  congruence.
Qed.

Lemma add_job_twice (j : Job) (jobs : list Job) :
  add_job j (add_job j jobs) = add_job j jobs.
Proof.
  induction jobs as [|x rest IH]; cbn [add_job].
  - now rewrite str_eqb_refl.
  - destruct (str_eqb (job_id x) (job_id j)) eqn:Hx; cbn [add_job].
    + now rewrite str_eqb_refl.
    + now rewrite Hx, IH.
Qed.

Lemma length_add_job (j : Job) (jobs : list Job) :
  length (add_job j jobs) =
  match lookup (job_id j) jobs with
  | Some _ => length jobs
  | None => S (length jobs)
  end.
Proof.
  unfold lookup. induction jobs as [|x rest IH]; cbn [add_job find];
    [reflexivity|].
  destruct (str_eqb (job_id x) (job_id j)); [reflexivity|].
  cbn [length]. rewrite IH. destruct (find _ rest); reflexivity.
Qed.

(** X21.  [schedule_monitor] gives the monitor one job, named after its
    id, at an interval of its frequency but never less than 5 minutes,
    coalescing and with one instance at most; a job of that name is
    replaced, not doubled, so that scheduling twice is scheduling once;
    every job of another name is left as it was, and job ids that were
    distinct stay distinct. *)
Theorem schedule_monitor_replaces (mon : Monitor) (jobs : list Job) :
  let jobs' := schedule_monitor mon jobs in
  (exists j, lookup (job_name (id mon)) jobs' = Some j /\
             minutes j = Z.max 5 (frequency_minutes mon) /\
             5 <= minutes j /\ args j = id mon /\
             coalesce j = true /\ max_instances j = 1) /\
  (forall name, name <> job_name (id mon) ->
                lookup name jobs' = lookup name jobs) /\
  schedule_monitor mon jobs' = jobs' /\
  (length jobs' =
   match lookup (job_name (id mon)) jobs with
   | Some _ => length jobs
   | None => S (length jobs)
   end) /\
  (NoDup (map job_id jobs) -> NoDup (map job_id jobs')).
Proof.
  intros jobs'. subst jobs'. unfold schedule_monitor.
  set (j := {| job_id := job_name (id mon);
               minutes := Z.max 5 (frequency_minutes mon);
               args := id mon; coalesce := true; max_instances := 1 |}).
  split; [|split; [|split; [|split]]].
  - exists j. split; [apply (lookup_add_job_same j)|].
    cbn [minutes args coalesce max_instances j]. repeat split. lia.
  - intros name Hne. now apply lookup_add_job_other.
  - apply add_job_twice.
  - apply (length_add_job j).
  - apply add_job_nodup.
Qed.

Lemma schedule_monitor_replaces_witness :
  NoDup (map job_id (schedule_monitor Cases.item (schedule_monitor Cases.item []))).
Proof.
  apply (schedule_monitor_replaces Cases.item (schedule_monitor Cases.item [])).
  apply (schedule_monitor_replaces Cases.item []). constructor.
Defined.

End Jobs.

Section Loading.
Import Db Scheduler.

Lemma fold_schedule_other (l : list Monitor) (name : str) :
  forall jobs,
    (forall m, In m l -> name <> job_name (id m)) ->
    lookup name (fold_left (fun js m => schedule_monitor m js) l jobs)
    = lookup name jobs.
Proof.
  induction l as [|x l IH]; intros jobs H; cbn [fold_left]; [reflexivity|].
  rewrite IH by (intros m Hm; apply H; now right).
  unfold schedule_monitor. apply lookup_add_job_other.
  apply H. now left.
Qed.

Lemma fold_schedule_member (l : list Monitor) (m : Monitor) :
  forall jobs,
    NoDup (map id l) -> In m l ->
    exists j,
      lookup (job_name (id m))
             (fold_left (fun js x => schedule_monitor x js) l jobs) = Some j
      /\ minutes j = Z.max 5 (frequency_minutes m) /\ args j = id m.
Proof.
  induction l as [|x l IH]; intros jobs Hnd Hin; [destruct Hin|].
  cbn [map] in Hnd. inversion Hnd as [|? ? Hx Hnd']; subst.
  cbn [fold_left]. destruct Hin as [->|Hin].
  - rewrite fold_schedule_other.
    + unfold schedule_monitor. eexists. split;
        [apply lookup_add_job_same with (j := Build_Job _ _ _ _ _)|].
      split; reflexivity.
    + intros y Hy Heq. apply job_name_inj in Heq. apply Hx.
      rewrite Heq. now apply in_map.
  - now apply IH.
Qed.

Lemma nodup_filter_ids (f : Monitor -> bool) (l : list Monitor) :
  NoDup (map id l) -> NoDup (map id (filter f l)).
Proof.
  induction l as [|x l IH]; cbn [map filter]; [constructor|].
  intros Hnd. inversion Hnd as [|? ? Hx Hnd']; subst.
  destruct (f x); [|now apply IH]. cbn [map]. constructor; [|now apply IH].
  intros Hin. apply Hx. apply in_map_iff in Hin as (y & Hy & Hin).
  apply filter_In in Hin as [Hin _]. rewrite <- Hy. now apply in_map.
Qed.

(** X22.  [load_schedules], on a table whose ids are distinct: every
    active monitor has its job afterwards, at an interval of its
    frequency and of 5 minutes at least; every job that is not named
    after an active monitor is left as it was, so that no job is ever
    removed, not even that of a monitor that is no longer active. *)
Theorem load_schedules_covers (st : Store) (jobs : list Job) :
  NoDup (map id (monitors st)) ->
  (forall m, In m (monitors st) -> is_active m = true ->
             exists j, lookup (job_name (id m)) (load_schedules st jobs)
                       = Some j /\
                       minutes j = Z.max 5 (frequency_minutes m) /\
                       5 <= minutes j /\ args j = id m) /\
  (forall name,
      (forall m, In m (monitors st) -> is_active m = true ->
                 name <> job_name (id m)) ->
      lookup name (load_schedules st jobs) = lookup name jobs).
Proof.
  intros Hnd. unfold load_schedules. split.
  - intros m Hin Hact.
    destruct (fold_schedule_member (filter is_active (monitors st)) m jobs)
      as (j & Hj & Hmin & Hargs).
    + now apply nodup_filter_ids.
    + apply filter_In. now split.
    + exists j. split; [exact Hj|]. split; [exact Hmin|].
      split; [lia | exact Hargs].
  - intros name H. apply fold_schedule_other.
    intros m Hm. apply filter_In in Hm as [Hin Hact]. now apply H.
Qed.

Lemma load_schedules_covers_witness :
  exists j, lookup (job_name 1) (load_schedules Scenario.fresh []) = Some j
            /\ minutes j = 60.
Proof.
  destruct (load_schedules_covers Scenario.fresh []) as [Hall _].
  { repeat constructor. intros []. }
  destruct (Hall Cases.item (or_introl eq_refl) eq_refl)
    as (j & Hj & Hmin & _).
  exists j. split; [exact Hj | exact Hmin].
Defined.

End Loading.

(** ** Creating and deleting monitors (main.py) *)

Section Endpoints.
Import Db Main Scheduler Api Outcome.

Lemma lookup_remove_other (name other : str) (jobs : list Job) :
  other <> name ->
  lookup other (remove_job_quietly name jobs) = lookup other jobs.
Proof.
  intros Hne. unfold remove_job_quietly, lookup.
  induction jobs as [|x rest IH]; cbn [remove_job]; [reflexivity|].
  destruct (str_eqb (job_id x) name) eqn:Hx.
  - apply str_eqb_eq in Hx. cbn [find].
    assert (Hf : str_eqb (job_id x) other = false)
      by (apply str_eqb_neq; congruence).
    now rewrite Hf.
  - destruct (remove_job name rest) as [rest'|e]; [|reflexivity].
    cbn [find]. destruct (str_eqb (job_id x) other); [reflexivity|exact IH].
Qed.

Lemma lookup_remove_same (name : str) (jobs : list Job) :
  NoDup (map job_id jobs) ->
  lookup name (remove_job_quietly name jobs) = None.
Proof.
  unfold remove_job_quietly, lookup.
  induction jobs as [|x rest IH]; intros Hnd; cbn [remove_job];
    [reflexivity|].
  cbn [map] in Hnd. inversion Hnd as [|? ? Hx Hnd']; subst.
  destruct (str_eqb (job_id x) name) eqn:Hxn.
  - apply str_eqb_eq in Hxn. subst name.
    destruct (find _ rest) as [y|] eqn:Hf; [|reflexivity].
    apply find_some in Hf as [Hin Hy]. apply str_eqb_eq in Hy.
    exfalso. apply Hx. rewrite <- Hy. now apply in_map.
  - specialize (IH Hnd').
    destruct (remove_job name rest) as [rest'|e]; cbn [find];
      rewrite Hxn; exact IH.
Qed.

Lemma find_filter_out (mid : Z) (l : list Monitor) :
  find (fun m => id m =? mid) (filter (fun m => negb (id m =? mid)) l)
  = None.
Proof.
  induction l as [|x l IH]; cbn [filter]; [reflexivity|].
  destruct (id x =? mid) eqn:Hx; cbn [negb]; [exact IH|].
  cbn [find]. now rewrite Hx.
Qed.

Lemma find_filter_other (mid other : Z) (l : list Monitor) :
  other <> mid ->
  find (fun m => id m =? other) (filter (fun m => negb (id m =? mid)) l)
  = find (fun m => id m =? other) l.
Proof.
  intros Hne. induction l as [|x l IH]; cbn [filter find]; [reflexivity|].
  destruct (id x =? mid) eqn:Hx; cbn [negb].
  - apply Z.eqb_eq in Hx.
    assert (Hf : (id x =? other) = false) by (apply Z.eqb_neq; lia).
    now rewrite Hf.
  - cbn [find]. destruct (id x =? other); [reflexivity | exact IH].
Qed.

(** X23.  [delete_monitor].  For an id that no monitor has, the answer
    is 404 and the database is untouched.  Otherwise the monitor is gone
    and so are all its rows, the other monitors and the rows of the
    others staying as they were and in their order; a check of the
    deleted id then does nothing.  In both cases the job named after the
    id is gone (the job ids being distinct) and the other jobs stay. *)
Theorem delete_monitor_cascades (env : Env) (app : App) (mid : Z) :
  let '(resp, app') := delete_monitor app mid in
  (Db.get (db app) mid = None ->
   resp = HTTPException 404 (lit "Monitor not found") /\
   db app' = db app) /\
  (forall mon, Db.get (db app) mid = Some mon ->
     resp = Resp mid /\
     Db.get (db app') mid = None /\
     (forall r, In r (results (db app')) -> monitor_id r <> mid) /\
     (forall other, other <> mid ->
        Db.get (db app') other = Db.get (db app) other) /\
     results (db app')
     = filter (fun r => negb (monitor_id r =? mid)) (results (db app)) /\
     run_check env (db app') mid = (db app', [])) /\
  (NoDup (map job_id (jobs app)) ->
   lookup (job_name mid) (jobs app') = None) /\
  (forall name, name <> job_name mid ->
                lookup name (jobs app') = lookup name (jobs app)).
Proof.
  unfold delete_monitor.
  destruct (Db.get (db app) mid) as [mon|] eqn:Hget; cbn [db jobs].
  - pose proof (get_id _ _ _ Hget) as Hid.
    split; [discriminate|]. split.
    + intros ? [= <-].
      assert (Hnone : Db.get
                {| monitors := filter (fun m => negb (id m =? id mon))
                                      (monitors (db app));
                   results := filter (fun r => negb (monitor_id r =? mid))
                                     (results (db app)) |} mid = None).
      { unfold Db.get. cbn [monitors]. rewrite Hid. apply find_filter_out. }
      split; [reflexivity|]. split; [exact Hnone|]. split.
      { intros r Hr. cbn [results] in Hr. apply filter_In in Hr as [_ Hr].
        apply negb_true_iff, Z.eqb_neq in Hr. exact Hr. }
      split.
      { intros other Hne. unfold Db.get. cbn [monitors]. rewrite Hid.
        now apply find_filter_other. }
      split; [reflexivity|].
      rewrite run_check_outcome, Hnone. reflexivity.
    + split; [apply lookup_remove_same|].
      intros name Hne. now apply lookup_remove_other.
  - split; [intros _; split; reflexivity|].
    split; [discriminate|].
    split; [apply lookup_remove_same|].
    intros name Hne. now apply lookup_remove_other.
Qed.

Lemma delete_monitor_cascades_witness :
  Db.get (db (snd (delete_monitor
                     {| db := Scenario.fresh; jobs := [] |} 1))) 1 = None.
Proof.
  pose proof (delete_monitor_cascades Cases.shop
                {| db := Scenario.fresh; jobs := [] |} 1) as H.
  destruct (delete_monitor _ 1) as [resp app'].
  destruct H as (_ & Hfound & _).
  destruct (Hfound Cases.item eq_refl) as (_ & Hnone & _). exact Hnone.
Defined.

End Endpoints.

Section Creation.
Import Db Main Scheduler Api Outcome.
Variable env : Env.






End Creation.

Section CreationRuns.
Import Db Main Scheduler Api Outcome.


End CreationRuns.

(** ** The robots.txt address (diffing.py) *)

Section Matching.
Import Py Re Site.
Variable s : str.
Variable R : Type.

Lemma skipn_uncons (i : nat) :
  skipn i s = match nth_error s i with
              | Some x => x :: skipn (S i) s
              | None => []
              end.
Proof.
  revert i. induction s as [|y l IH]; intros [|i]; try reflexivity.
  cbn [nth_error]. rewrite <- IH. reflexivity.
Qed.

Lemma run_seq_cons (a : regex) (l : list regex) (i : nat) (c : caps)
      (k : nat -> caps -> option R) :
  run s R (seq_of (a :: l)) i c k
  = run s R a i c (fun j c' => run s R (seq_of l) j c' k).
Proof. destruct l; reflexivity. Qed.

(** A literal is matched character by character. *)
Lemma run_chars (w : str) :
  forall (i : nat) (c : caps) (k : nat -> caps -> option R),
    run s R (seq_of (map chr w)) i c k
    = match strip_prefix w (skipn i s) with
      | Some _ => k (i + length w)%nat c
      | None => None
      end.
Proof.
  induction w as [|a w IH]; intros i c k.
  - cbn [map seq_of run strip_prefix length]. now rewrite Nat.add_0_r.
  - cbn [map]. rewrite run_seq_cons. unfold chr at 1. cbn [run].
    rewrite (skipn_uncons i). destruct (nth_error s i) as [x|];
      cbn [strip_prefix]; [|reflexivity].
    destruct (a =? x); [|reflexivity].
    rewrite IH. cbn [length]. now rewrite Nat.add_succ_r.
Qed.

(** An optional character: taken when it is there and the rest matches
    after it. *)
Lemma run_opt_chr (x : Z) (i : nat) (c : caps)
      (k : nat -> caps -> option R) :
  run s R (opt (chr x)) i c k
  = match nth_error s i with
    | Some y =>
        if x =? y
        then match k (S i) c with
             | Some r => Some r
             | None => k i c
             end
        else k i c
    | None => k i c
    end.
Proof.
  unfold opt, chr. cbn [run].
  assert (Hlt : Nat.ltb i (S i) = true) by (apply Nat.ltb_lt; lia).
  destruct (nth_error s i) as [y|]; [|reflexivity].
  destruct (x =? y); [|reflexivity].
  rewrite Hlt. destruct (length s - i)%nat; reflexivity.
Qed.

(** One or more characters of a class, before a continuation that
    accepts anything: the whole run is taken. *)
Lemma run_rep_span (p : Z -> bool) (lo : nat) (i : nat) (c : caps)
      (f : nat -> R) :
  run s R (Rep lo None (Cls p)) i c (fun j _ => Some (f j))
  = if Nat.leb lo (span p (skipn i s))
    then Some (f (i + span p (skipn i s))%nat)
    else None.
Proof.
  cbn [run].
  assert (Hfuel : (span p (skipn i s) < S (length s - i))%nat).
  { assert (H : forall l, (span p l <= length l)%nat).
    { induction l as [|x l IH]; cbn [span length]; [lia|].
      destruct (p x); lia. }
    specialize (H (skipn i s)). rewrite length_skipn in H. lia. }
  match goal with
  | |- context [?loop (length s - i)%nat 1%nat (S i) c] =>
      assert (H : forall fuel cnt j,
                 (span p (skipn j s) < fuel)%nat ->
                 loop fuel cnt j c
                 = if Nat.leb lo (cnt + span p (skipn j s))
                   then Some (f (j + span p (skipn j s))%nat)
                   else None);
      [|exact (H (S (length s - i)) O i Hfuel)]
  end.
  clear i Hfuel. intros fuel.
  induction fuel as [|fuel IH]; intros cnt i Hfuel; [lia|].
  rewrite (skipn_uncons i) in *.
  destruct (nth_error s i) as [x|]; cbn [span] in *.
  - destruct (p x) eqn:Hp.
    + assert (Hlt : Nat.ltb i (S i) = true) by (apply Nat.ltb_lt; lia).
      rewrite Hlt, IH by lia.
      replace (S cnt + span p (skipn (S i) s))%nat
        with (cnt + S (span p (skipn (S i) s)))%nat by lia.
      replace (S i + span p (skipn (S i) s))%nat
        with (i + S (span p (skipn (S i) s)))%nat by lia.
      destruct (Nat.leb lo (cnt + S (span p (skipn (S i) s)))) eqn:Hlo;
        [reflexivity|].
      apply Nat.leb_gt in Hlo.
      destruct (Nat.leb_spec lo cnt); [lia | reflexivity].
    + now rewrite !Nat.add_0_r.
  - now rewrite !Nat.add_0_r.
Qed.

End Matching.

Section Origin.
Import Py Re Site Diffing.

Lemma span_firstn (p : Z -> bool) (l : str) :
  Forall (fun c => p c = true) (firstn (span p l) l) /\
  match skipn (span p l) l with
  | [] => True
  | c :: _ => p c = false
  end.
Proof.
  induction l as [|x l [IH1 IH2]]; cbn [span]; [split; constructor|].
  destruct (p x) eqn:Hp; cbn [firstn skipn].
  - split; [now constructor | exact IH2].
  - split; [constructor | exact Hp].
Qed.

(** The pattern on an address that goes on after its scheme with a
    character other than a slash. *)
Lemma origin_of_site (scheme : str) (c : Z) (rest : str) :
  is_scheme scheme -> c <> 47 ->
  origin (scheme ++ c :: rest)
  = Some (scheme ++ c :: firstn (span not_slash rest) rest).
Proof.
  intros Hs Hc. unfold origin, ORIGIN_RE, word.
  change (lit "http") with [104; 116; 116; 112].
  change (lit "://") with [58; 47; 47].
  assert (Hp : span not_slash (c :: rest) = S (span not_slash rest)).
  { cbn [span]. unfold not_slash at 1.
    destruct (Z.eqb_spec c 47); [contradiction | reflexivity]. }
  rewrite run_seq_cons, run_chars.
  destruct Hs as [-> | ->].
  - change (lit "http://") with [104; 116; 116; 112; 58; 47; 47].
    cbn [app skipn strip_prefix Z.eqb Pos.eqb length Nat.add].
    rewrite run_seq_cons, run_opt_chr.
    cbn [nth_error Z.eqb Pos.eqb].
    rewrite run_seq_cons, run_chars.
    cbn [skipn strip_prefix Z.eqb Pos.eqb length Nat.add seq_of].
    rewrite (run_rep_span _ nat (fun c0 => negb (c0 =? 47)) 1 7 []
                          (fun j => j)).
    cbn [skipn]. fold not_slash. rewrite Hp. cbn [Nat.leb Nat.add].
    reflexivity.
  - change (lit "https://") with [104; 116; 116; 112; 115; 58; 47; 47].
    cbn [app skipn strip_prefix Z.eqb Pos.eqb length Nat.add].
    rewrite run_seq_cons, run_opt_chr.
    cbn [nth_error Z.eqb Pos.eqb].
    rewrite run_seq_cons, run_chars.
    cbn [skipn strip_prefix Z.eqb Pos.eqb length Nat.add seq_of].
    rewrite (run_rep_span _ nat (fun c0 => negb (c0 =? 47)) 1 8 []
                          (fun j => j)).
    cbn [skipn]. fold not_slash. rewrite Hp. cbn [Nat.leb Nat.add].
    reflexivity.
Qed.

Lemma strip_prefix_some (w l r : str) :
  strip_prefix w l = Some r -> l = w ++ r.
Proof.
  revert l. induction w as [|a w IH]; intros [|x l]; cbn [strip_prefix app];
    try discriminate; try (now intros [= ->]).
  destruct (Z.eqb_spec a x); [|discriminate].
  intros H. apply IH in H. now subst.
Qed.

(** The pattern matches such addresses only. *)
Lemma origin_some (url base : str) :
  origin url = Some base ->
  exists scheme c rest,
    is_scheme scheme /\ c <> 47 /\ url = scheme ++ c :: rest.
Proof.
  unfold origin, ORIGIN_RE, word.
  change (lit "http") with [104; 116; 116; 112].
  change (lit "://") with [58; 47; 47].
  rewrite run_seq_cons, run_chars. cbn [skipn].
  destruct (strip_prefix _ url) as [r1|] eqn:H1; [|discriminate].
  apply strip_prefix_some in H1. subst url.
  cbn [length Nat.add]. rewrite run_seq_cons, run_opt_chr.
  assert (Hplain :
            forall r,
              match run ([104; 116; 116; 112] ++ r) nat
                        (seq_of [seq_of (map chr [58; 47; 47]);
                                 Rep 1 None
                                     (Cls (fun c => negb (c =? 47)))])
                        4 [] (fun j _ => Some j) with
              | Some j => Some (firstn j ([104; 116; 116; 112] ++ r))
              | None => None
              end = Some base ->
              exists scheme c rest,
                is_scheme scheme /\ c <> 47 /\
                [104; 116; 116; 112] ++ r = scheme ++ c :: rest).
  { intros r. rewrite run_seq_cons, run_chars. cbn [app skipn].
    destruct (strip_prefix _ r) as [r2|] eqn:H2; [|discriminate].
    apply strip_prefix_some in H2. subst r.
    cbn [length Nat.add seq_of].
    rewrite (run_rep_span _ nat (fun c0 => negb (c0 =? 47)) 1 7 []
                          (fun j => j)).
    cbn [app skipn]. destruct r2 as [|c rest]; cbn [span Nat.leb];
      [discriminate|].
    destruct (Z.eqb_spec c 47); cbn [negb Nat.leb]; [discriminate|].
    intros _. exists (lit "http://"), c, rest.
    split; [now left|]. split; [assumption | reflexivity]. }
  cbn [app nth_error]. destruct r1 as [|y r2]; cbn [nth_error].
  { intros H. exact (Hplain [] H). }
  destruct (Z.eqb_spec 115 y) as [<-|Hy]; [|intros H; exact (Hplain (y :: r2) H)].
  rewrite run_seq_cons, run_chars. cbn [skipn].
  destruct (strip_prefix _ r2) as [r3|] eqn:H3.
  - apply strip_prefix_some in H3. subst r2.
    cbn [length Nat.add seq_of].
    rewrite (run_rep_span _ nat (fun c0 => negb (c0 =? 47)) 1 8 []
                          (fun j => j)).
    cbn [app skipn]. destruct r3 as [|c rest]; cbn [span Nat.leb].
    + intros H. exact (Hplain [115; 58; 47; 47] H).
    + destruct (Z.eqb_spec c 47); cbn [negb Nat.leb];
        [intros H; exact (Hplain (115 :: 58 :: 47 :: 47 :: c :: rest) H)|].
      intros _. exists (lit "https://"), c, rest.
      split; [now right|]. split; [assumption | reflexivity].
  - intros H. exact (Hplain (115 :: r2) H).
Qed.

Lemma span_host (host rest : str) :
  Forall (fun c => c <> 47) host -> ends_host rest ->
  span not_slash (host ++ rest) = length host.
Proof.
  intros Hh Hr. induction Hh as [|x l Hx Hl IH]; cbn [app span length].
  - destruct rest as [|c rest]; [reflexivity|]. cbn [span].
    cbn [ends_host] in Hr. subst c. reflexivity.
  - unfold not_slash at 1. destruct (Z.eqb_spec x 47); [contradiction|].
    cbn [negb]. now rewrite IH.
Qed.

(** X25.  Where [is_allowed_by_robots] looks.  For an address made of
    http:// or https://, a host without a slash and a rest that is empty
    or starts with a slash, the file read is robots.txt at the root of
    that scheme and host, the answer being the parser's, and yes when
    reading raises.  An address that does not start so (another scheme,
    capitals in the scheme, nothing after the slashes) is allowed
    whatever robots.txt files there are. *)
Theorem is_allowed_by_robots_site
        (robots_read : str -> Exc (str -> str -> bool)) (user_agent : str) :
  (forall scheme host rest,
      is_scheme scheme -> host <> [] ->
      Forall (fun c => c <> 47) host -> ends_host rest ->
      is_allowed_by_robots robots_read (scheme ++ host ++ rest) user_agent
      = match robots_read (scheme ++ host ++ lit "/robots.txt") with
        | Raise _ => true
        | Ok can_fetch => can_fetch user_agent (scheme ++ host ++ rest)
        end) /\
  (forall url,
      (forall scheme c rest,
          is_scheme scheme -> c <> 47 -> url <> scheme ++ c :: rest) ->
      forall read, is_allowed_by_robots read url user_agent = true).
Proof.
  split.
  - intros scheme host rest Hs Hne Hhost Hrest.
    destruct host as [|c host]; [contradiction|].
    inversion Hhost as [|? ? Hc Hhost']; subst.
    unfold is_allowed_by_robots. cbn [app].
    rewrite (origin_of_site scheme c (host ++ rest) Hs Hc).
    rewrite (span_host host rest Hhost' Hrest).
    rewrite firstn_app, Nat.sub_diag, firstn_all. cbn [firstn].
    rewrite app_nil_r. rewrite <- !app_assoc. reflexivity.
  - intros url Hnot read. unfold is_allowed_by_robots.
    destruct (origin url) as [base|] eqn:Ho; [|reflexivity].
    destruct (origin_some url base Ho) as (scheme & c & rest & Hs & Hc & Hu).
    exfalso. exact (Hnot scheme c rest Hs Hc Hu).
Qed.

Lemma is_allowed_by_robots_site_witness :
  is_allowed_by_robots (fun _ => Ok (fun _ _ => false))
                       (lit "https://shop.example/item")
                       (lit "PingPilotBot") = false /\
  is_allowed_by_robots (fun _ => Ok (fun _ _ => false))
                       (lit "HTTPS://shop.example/item")
                       (lit "PingPilotBot") = true.
Proof.
  destruct (is_allowed_by_robots_site (fun _ => Ok (fun _ _ => false))
                                      (lit "PingPilotBot")) as [Hsite Hnot].
  split.
  - apply (Hsite (lit "https://") (lit "shop.example") (lit "/item")).
    + now right.
    + discriminate.
    + repeat constructor; discriminate.
    + reflexivity.
  - apply Hnot. intros scheme c rest [-> | ->] _; discriminate.
Defined.

End Origin.

(** ** Blocks without repetition (extractor.py) *)

Section Uniq.
Import Py Extractor Blocks.

Lemma key_eqb_eq (a b : key) : key_eqb a b = true <-> a = b.
Proof.
  unfold key_eqb. destruct a as [a1 a2], b as [b1 b2]. cbn [fst snd].
  rewrite andb_true_iff, !str_eqb_eq. split.
  - now intros [-> ->].
  - now intros [= -> ->].
Qed.

Lemma seen_has_head (k k' : key) (seen : list key) :
  seen_has (k' :: seen) k = false -> k' <> k /\ seen_has seen k = false.
Proof.
  unfold seen_has. cbn [existsb]. intros H.
  apply orb_false_iff in H as [H1 H2]. split; [|exact H2].
  intros ->. assert (Ht : key_eqb k k = true) by now apply key_eqb_eq.
  congruence.
Qed.

Lemma unique_in (l : list Block) :
  forall seen b,
    In b (unique seen l) -> In b l /\ seen_has seen (key_of b) = false.
Proof.
  induction l as [|x l IH]; intros seen b; cbn [unique]; [intros []|].
  destruct (seen_has seen (key_of x)) eqn:Hx.
  - intros H. apply IH in H as [H1 H2]. split; [now right | exact H2].
  - intros [<-|H]; [split; [now left | exact Hx]|].
    apply IH in H as [H1 H2]. apply seen_has_head in H2 as [_ H2].
    split; [now right | exact H2].
Qed.

Lemma unique_nodup (l : list Block) :
  forall seen, NoDup (map key_of (unique seen l)).
Proof.
  induction l as [|x l IH]; intros seen; cbn [unique]; [constructor|].
  destruct (seen_has seen (key_of x)); [apply IH|].
  cbn [map]. constructor; [|apply IH].
  intros Hin. apply in_map_iff in Hin as (b & Hk & Hb).
  apply unique_in in Hb as [_ Hb]. apply seen_has_head in Hb as [Hne _].
  congruence.
Qed.

Lemma unique_covers (l : list Block) :
  forall seen b,
    In b l -> seen_has seen (key_of b) = false ->
    exists b', In b' (unique seen l) /\ key_of b' = key_of b.
Proof.
  induction l as [|x l IH]; intros seen b; [intros []|].
  cbn [unique]. intros Hin Hb.
  destruct (seen_has seen (key_of x)) eqn:Hx.
  - destruct Hin as [->|Hin]; [congruence|]. now apply IH.
  - destruct (key_eqb (key_of b) (key_of x)) eqn:Hk.
    + apply key_eqb_eq in Hk. exists x. split; [now left | congruence].
    + destruct Hin as [->|Hin].
      { assert (Ht : key_eqb (key_of b) (key_of b) = true)
          by now apply key_eqb_eq.
        congruence. }
      destruct (IH (key_of x :: seen) b Hin) as (b' & Hb' & Hkey).
      { unfold seen_has in *. cbn [existsb]. now rewrite Hk, Hb. }
      exists b'. split; [now right | exact Hkey].
Qed.

Lemma unique_first (l : list Block) :
  forall seen b,
    In b (unique seen l) ->
    exists pre post,
      l = pre ++ b :: post /\ forall x, In x pre -> key_of x <> key_of b.
Proof.
  induction l as [|x l IH]; intros seen b; cbn [unique]; [intros []|].
  destruct (seen_has seen (key_of x)) eqn:Hx.
  - intros H. pose proof (unique_in _ _ _ H) as [_ Hb].
    destruct (IH _ _ H) as (pre & post & -> & Hpre).
    exists (x :: pre), post. split; [reflexivity|].
    intros y [<-|Hy]; [congruence | now apply Hpre].
  - intros [<-|H].
    + exists [], l. split; [reflexivity | intros y []].
    + pose proof (unique_in _ _ _ H) as [_ Hb].
      apply seen_has_head in Hb as [Hne _].
      destruct (IH _ _ H) as (pre & post & -> & Hpre).
      exists (x :: pre), post. split; [reflexivity|].
      intros y [<-|Hy]; [exact Hne | now apply Hpre].
Qed.

Lemma unique_fixed (l : list Block) :
  forall seen,
    NoDup (map key_of l) ->
    (forall x, In x l -> seen_has seen (key_of x) = false) ->
    unique seen l = l.
Proof.
  induction l as [|x l IH]; intros seen Hnd Hseen; [reflexivity|].
  cbn [unique]. rewrite (Hseen x (or_introl eq_refl)).
  cbn [map] in Hnd. inversion Hnd as [|? ? Hx Hnd']; subst.
  f_equal. apply IH; [exact Hnd'|].
  intros y Hy. pose proof (Hseen y (or_intror Hy)) as Hs.
  unfold seen_has in *. cbn [existsb]. rewrite Hs, orb_false_r.
  destruct (key_eqb (key_of y) (key_of x)) eqn:Hk; [|reflexivity].
  apply key_eqb_eq in Hk. exfalso. apply Hx. rewrite <- Hk.
  now apply in_map.
Qed.

Lemma unique_order (l : list Block) (x y : Block) :
  forall seen, before x y (unique seen l) -> before x y l.
Proof.
  unfold before. induction l as [|z l IH]; intros seen (a & b & c & H).
  - destruct a; discriminate.
  - cbn [unique] in H. destruct (seen_has seen (key_of z)).
    + destruct (IH seen) as (a' & b' & c' & ->); [now exists a, b, c|].
      now exists (z :: a'), b', c'.
    + destruct a as [|z' a]; cbn [app] in H; injection H as -> H.
      * assert (Hy : In y (unique (key_of x :: seen) l)).
        { rewrite H. apply in_or_app. right. now left. }
        apply unique_in in Hy as [Hy _].
        apply in_split in Hy as (p & q & ->). now exists [], p, q.
      * destruct (IH (key_of z' :: seen)) as (a' & b' & c' & ->);
          [now exists a, b, c|].
        now exists (z' :: a'), b', c'.
Qed.

(** X26.  What [extract_blocks_from_html] returns of the blocks it has
    collected: no two blocks of the same type and text; for every
    collected block one with its type and text; nothing that was not
    collected; of blocks alike the first one; the blocks in the order of
    collection; and all of them when no two were alike.  It raises when
    the collection does. *)
Theorem extract_blocks_unique (collect : str -> Exc (list Block))
        (html : str) :
  match collect html with
  | Raise e => extract_blocks_from_html collect html = Raise e
  | Ok blocks =>
      exists out,
        extract_blocks_from_html collect html = Ok out /\
        NoDup (map key_of out) /\
        (forall b, In b blocks ->
                   exists b', In b' out /\ key_of b' = key_of b) /\
        (forall b, In b out ->
                   exists pre post,
                     blocks = pre ++ b :: post /\
                     forall x, In x pre -> key_of x <> key_of b) /\
        (forall x y, before x y out -> before x y blocks) /\
        (NoDup (map key_of blocks) -> out = blocks)
  end.
Proof.
  unfold extract_blocks_from_html.
  destruct (collect html) as [blocks|e]; [|reflexivity].
  exists (unique [] blocks). split; [reflexivity|].
  split; [apply unique_nodup|]. split.
  { intros b Hb. now apply unique_covers. }
  split; [intros b Hb; exact (unique_first _ _ _ Hb)|].
  split; [intros x y; apply unique_order|].
  intros Hnd. apply unique_fixed; [exact Hnd | reflexivity].
Qed.

End Uniq.
